(** * go-bexpr: boolean expressions over structured data

    A shallow embedding of the Go sources of the repository:
    - [grammar/ast.go]: the syntax tree, the names of its operators, the
      absence dispositions and the textual dump;
    - the PEG grammar of package [grammar] (rules and their actions);
    - package [bexpr]: the coercion helpers and the evaluator.

    Module [Go] holds the part of the Go run time the sources lean on:
    dynamically typed values as [reflect] sees them, errors, panics and the
    handful of [strings], [strconv] and [fmt] functions that are called. *)

From Stdlib Require Import String Ascii ZArith List Bool Lia Floats DecimalString
  DecimalPos DecimalN DecimalFacts.
Import ListNotations.
Open Scope string_scope.
#[local] Set Warnings "-register-all".

(* ================================================================= *)
(** ** The Go run time the sources use *)

Module Go.

(** Characters that a string literal of this file cannot hold verbatim. *)
Definition dquote : string := String (ascii_of_nat 34) "".
Definition squote : string := String (ascii_of_nat 39) "".
Definition newline : string := String (ascii_of_nat 10) "".
Definition backslash : string := String (ascii_of_nat 92) "".

(** [reflect.Kind]. *)
Module reflect.
Inductive Kind : Set :=
| Invalid | Bool
| Int | Int8 | Int16 | Int32 | Int64
| Uint | Uint8 | Uint16 | Uint32 | Uint64 | Uintptr
| Float32 | Float64 | Complex64 | Complex128
| Array | Chan | Func | Interface | Map | Pointer | Slice | String | Struct
| UnsafePointer.

Definition Kind_eqb (a b : Kind) : bool :=
  match a, b with
  | Invalid, Invalid | Bool, Bool | Int, Int | Int8, Int8 | Int16, Int16
  | Int32, Int32 | Int64, Int64 | Uint, Uint | Uint8, Uint8 | Uint16, Uint16
  | Uint32, Uint32 | Uint64, Uint64 | Uintptr, Uintptr | Float32, Float32
  | Float64, Float64 | Complex64, Complex64 | Complex128, Complex128
  | Array, Array | Chan, Chan | Func, Func | Interface, Interface | Map, Map
  | Pointer, Pointer | Slice, Slice | String, String | Struct, Struct
  | UnsafePointer, UnsafePointer => true
  | _, _ => false
  end.
End reflect.

(** Static types, as far as the evaluator inspects them: the predeclared
    types (named by their kind), the empty interface, the composite types and
    named types such as [bexpr.UndefinedType] or [json.Number]. *)
Inductive gotype : Set :=
| TBasic (k : reflect.Kind)
| TInterface
| TSlice (elem : gotype)
| TArray (len : nat) (elem : gotype)
| TMap (key elem : gotype)
| TPtr (elem : gotype)
| TChan (elem : gotype)
| TFunc
| TNamed (name : string) (k : reflect.Kind).

Fixpoint gotype_eqb (a b : gotype) : bool :=
  match a, b with
  | TBasic k, TBasic k' => reflect.Kind_eqb k k'
  | TInterface, TInterface => true
  | TSlice e, TSlice e' => gotype_eqb e e'
  | TArray n e, TArray n' e' => Nat.eqb n n' && gotype_eqb e e'
  | TMap k e, TMap k' e' => gotype_eqb k k' && gotype_eqb e e'
  | TPtr e, TPtr e' => gotype_eqb e e'
  | TChan e, TChan e' => gotype_eqb e e'
  | TFunc, TFunc => true
  | TNamed n k, TNamed n' k' => (n =? n') && reflect.Kind_eqb k k'
  | _, _ => false
  end.

(** [rtype.Kind()]. *)
Definition Kind_of_type (t : gotype) : reflect.Kind :=
  match t with
  | TBasic k => k
  | TInterface => reflect.Interface
  | TSlice _ => reflect.Slice
  | TArray _ _ => reflect.Array
  | TMap _ _ => reflect.Map
  | TPtr _ => reflect.Pointer
  | TChan _ => reflect.Chan
  | TFunc => reflect.Func
  | TNamed _ k => k
  end.

(** The integer and floating point types a value can have. *)
Inductive IntType : Set :=
| int | int8 | int16 | int32 | int64
| uint | uint8 | uint16 | uint32 | uint64 | uintptr.

Inductive FloatType : Set := float32 | float64.

Definition IntType_kind (t : IntType) : reflect.Kind :=
  match t with
  | int => reflect.Int | int8 => reflect.Int8 | int16 => reflect.Int16
  | int32 => reflect.Int32 | int64 => reflect.Int64
  | uint => reflect.Uint | uint8 => reflect.Uint8 | uint16 => reflect.Uint16
  | uint32 => reflect.Uint32 | uint64 => reflect.Uint64
  | uintptr => reflect.Uintptr
  end.

Definition FloatType_kind (t : FloatType) : reflect.Kind :=
  match t with float32 => reflect.Float32 | float64 => reflect.Float64 end.

(** A dynamically typed Go value, the contents of an [interface{}].
    Floats are IEEE 754 binary64 numbers.  A pointer is known by its target
    only; [VStruct] carries the name of its type. *)
Inductive value : Type :=
| VNil
| VBool (b : bool)
| VInt (t : IntType) (n : Z)
| VFloat (t : FloatType) (f : float)
| VString (s : string)
| VJsonNumber (s : string)
| VSlice (elem : gotype) (items : list value)
| VArray (elem : gotype) (items : list value)
| VMap (key elem : gotype) (entries : list (value * value))
| VStruct (name : string) (fields : list (string * value))
| VPtr (elem : gotype) (target : option value)
| VChan (elem : gotype) (queued : list value)
| VFunc.

(** [reflect.TypeOf]; the nil interface has no type. *)
Definition TypeOf (v : value) : option gotype :=
  match v with
  | VNil => None
  | VBool _ => Some (TBasic reflect.Bool)
  | VInt t _ => Some (TBasic (IntType_kind t))
  | VFloat t _ => Some (TBasic (FloatType_kind t))
  | VString _ => Some (TBasic reflect.String)
  | VJsonNumber _ => Some (TNamed "json.Number" reflect.String)
  | VSlice e _ => Some (TSlice e)
  | VArray e items => Some (TArray (List.length items) e)
  | VMap k e _ => Some (TMap k e)
  | VStruct n _ => Some (TNamed n reflect.Struct)
  | VPtr e _ => Some (TPtr e)
  | VChan e _ => Some (TChan e)
  | VFunc => Some TFunc
  end.

(** [reflect.ValueOf(v).Kind()]: the zero [reflect.Value], which [VNil]
    stands for, has kind [Invalid]. *)
Definition ValueOf_Kind (v : value) : reflect.Kind :=
  match TypeOf v with
  | None => reflect.Invalid
  | Some t => Kind_of_type t
  end.

(** [reflect.Indirect]: one pointer is followed, a nil pointer gives the
    zero [reflect.Value]. *)
Definition Indirect (v : value) : value :=
  match v with
  | VPtr _ (Some w) => w
  | VPtr _ None => VNil
  | _ => v
  end.

(** Arguments of a formatted error message, kept unformatted. *)
Inductive fmtArg : Type :=
| AValue (v : value)
| AType (v : value)
| AKind (k : reflect.Kind)
| AInt (n : Z)
| AString (s : string).

(** Errors: package level sentinels (compared by identity), errors made by
    [errors.New] and [fmt.Errorf] (the format with its arguments, and the
    error wrapped by a [%w] verb), and [strconv.NumError]. *)
Inductive error : Type :=
| Sentinel (name : string)
| Errorf (format : string) (args : list fmtArg) (wrapped : option error)
| NumError (Func Num : string) (Err : error).

Definition errors_New (s : string) : error := Errorf s [] None.

Definition ErrSyntax : error := Sentinel "strconv.ErrSyntax".
Definition ErrRange : error := Sentinel "strconv.ErrRange".
Definition ErrNotFound : error := Sentinel "pointerstructure.ErrNotFound".
Definition ErrOutOfRange : error := Sentinel "pointerstructure.ErrOutOfRange".
Definition ErrInvalidKind : error := Sentinel "pointerstructure.ErrInvalidKind".
Definition ErrParse : error := Sentinel "pointerstructure.ErrParse".

(** [errors.Is err target] for a sentinel [target]. *)
Fixpoint errors_Is (err : error) (target : string) : bool :=
  match err with
  | Sentinel n => n =? target
  | Errorf _ _ (Some e) => errors_Is e target
  | Errorf _ _ None => false
  | NumError _ _ e => errors_Is e target
  end.

Definition is_ErrNotFound (err : error) : bool :=
  errors_Is err "pointerstructure.ErrNotFound".

(** Run-time panics. *)
Inductive panic : Type :=
| InterfaceConversion (v : value) (want : string)
| ReflectOnZeroValue (method : string)
| ReflectWrongKind (method : string) (k : reflect.Kind)
| ReflectNotAssignable (method : string)
| IntegerDivideByZero
| NilDereference.

(** A computation either completes or panics. *)
Inductive exec (A : Type) : Type :=
| Done (a : A)
| Panic (p : panic).
Arguments Done {A} a.
Arguments Panic {A} p.

Definition bind {A B : Type} (m : exec A) (k : A -> exec B) : exec B :=
  match m with
  | Done a => k a
  | Panic p => Panic p
  end.

(** What a Go function with results [(T, error)] hands back. *)
Definition result (T : Type) : Type := (T * option error)%type.

(** *** Machine integers *)

(** The value of an [int64] after two's complement wrap-around. *)
Definition wrap64 (z : Z) : Z :=
  ((z + 2 ^ 63) mod 2 ^ 64 - 2 ^ 63)%Z.

(** Go's integer division truncates toward zero; a zero divisor panics. *)
Definition int64_div (a b : Z) : exec Z :=
  if (b =? 0)%Z then Panic IntegerDivideByZero else Done (wrap64 (Z.quot a b)).

(** *** Package strings *)

Definition strings_HasPrefix (s prefix : string) : bool := String.prefix prefix s.

Fixpoint strings_Contains (s substr : string) : bool :=
  String.prefix substr s
  || match s with
     | "" => false
     | String _ s' => strings_Contains s' substr
     end.

Definition strings_Join (elems : list string) (sep : string) : string :=
  String.concat sep elems.

Fixpoint strings_Repeat (s : string) (count : nat) : string :=
  match count with
  | O => ""
  | S n => s ++ strings_Repeat s n
  end.

(** *** Package strconv *)

Definition strconv_ParseBool (str : string) : result bool :=
  if existsb (String.eqb str) ["1"; "t"; "T"; "TRUE"; "true"; "True"]
  then (true, None)
  else if existsb (String.eqb str) ["0"; "f"; "F"; "FALSE"; "false"; "False"]
  then (false, None)
  else (false, Some (NumError "ParseBool" str ErrSyntax)).

Definition byte_in (lo hi : ascii) (n : N) : bool :=
  (N_of_ascii lo <=? n)%N && (n <=? N_of_ascii hi)%N.

(** [lower(c)] of strconv: the byte with bit [0x20] set. *)
Definition lower (c : ascii) : N := N.lor (N_of_ascii c) 32.

(** [underscoreOK]: underscores stand only between digits, or between a base
    prefix and a digit.  [saw] is the last character class seen. *)
Inductive sawClass : Set := sawStart | sawDigit | sawUnderscore | sawOther.

Fixpoint underscoreOK_loop (hex : bool) (saw : sawClass) (s : string) : bool :=
  match s with
  | "" => match saw with sawUnderscore => false | _ => true end
  | String c s' =>
      if byte_in "0" "9" (N_of_ascii c) || (hex && byte_in "a" "f" (lower c))
      then underscoreOK_loop hex sawDigit s'
      else if Ascii.eqb c "_"
      then match saw with
           | sawDigit => underscoreOK_loop hex sawUnderscore s'
           | _ => false
           end
      else match saw with
           | sawUnderscore => false
           | _ => underscoreOK_loop hex sawOther s'
           end
  end.

Definition isBasePrefix (c : ascii) : bool :=
  (lower c =? N_of_ascii "b")%N || (lower c =? N_of_ascii "o")%N
  || (lower c =? N_of_ascii "x")%N.

Definition underscoreOK (s : string) : bool :=
  let s := match s with
           | String c s' => if Ascii.eqb c "-" || Ascii.eqb c "+" then s' else s
           | "" => s
           end in
  match s with
  | String "0" (String c s') =>
      if isBasePrefix c
      then underscoreOK_loop (lower c =? N_of_ascii "x")%N sawDigit s'
      else underscoreOK_loop false sawStart s
  | _ => underscoreOK_loop false sawStart s
  end.

Inductive numFailure : Set := failSyntax | failRange.

Definition maxUint64 : N := 2 ^ 64 - 1.

(** The digit loop of [ParseUint] for 64 bits: the number read, how it
    failed if it did, and whether an underscore was skipped. *)
Fixpoint ParseUint_digits (base0 : bool) (base : N) (s : string) (n : N)
    (underscores : bool) : N * option numFailure * bool :=
  match s with
  | "" => (n, None, underscores)
  | String c s' =>
      if Ascii.eqb c "_" && base0
      then ParseUint_digits base0 base s' n true
      else
        let d :=
          if byte_in "0" "9" (N_of_ascii c)
          then Some (N_of_ascii c - N_of_ascii "0")%N
          else if byte_in "a" "z" (lower c)
          then Some (lower c - N_of_ascii "a" + 10)%N
          else None in
        match d with
        | None => (0%N, Some failSyntax, underscores)
        | Some d =>
            if (base <=? d)%N then (0%N, Some failSyntax, underscores)
            else if (maxUint64 / base + 1 <=? n)%N
            then (maxUint64, Some failRange, underscores)
            else
              let n1 := (n * base + d)%N in
              if (maxUint64 <? n1)%N
              then (maxUint64, Some failRange, underscores)
              else ParseUint_digits base0 base s' n1 underscores
        end
  end.

(** [strconv.ParseUint(s, base, 64)] for [base] 0 or between 2 and 36. *)
Definition strconv_ParseUint (s : string) (base : N) : N * option numFailure :=
  match s with
  | "" => (0%N, Some failSyntax)
  | String c0 rest =>
      let base0 := (base =? 0)%N in
      let '(base', digits) :=
        if negb base0 then (base, s)
        else if Ascii.eqb c0 "0"
        then match rest with
             | String c1 (String c2 s2) =>
                 if (lower c1 =? N_of_ascii "b")%N then (2%N, String c2 s2)
                 else if (lower c1 =? N_of_ascii "o")%N then (8%N, String c2 s2)
                 else if (lower c1 =? N_of_ascii "x")%N then (16%N, String c2 s2)
                 else (8%N, rest)
             | _ => (8%N, rest)
             end
        else (10%N, s) in
      let '(n, failure, underscores) :=
        ParseUint_digits base0 base' digits 0%N false in
      match failure with
      | Some f => (n, Some f)
      | None =>
          if underscores && negb (underscoreOK s)
          then (0%N, Some failSyntax)
          else (n, None)
      end
  end.

(** [strconv.ParseInt(s, base, 64)]. *)
Definition strconv_ParseInt (s : string) (base : N) : result Z :=
  match s with
  | "" => (0%Z, Some (NumError "ParseInt" s ErrSyntax))
  | String c rest =>
      let neg := Ascii.eqb c "-" in
      let digits := if Ascii.eqb c "+" || neg then rest else s in
      let '(un, failure) := strconv_ParseUint digits base in
      match failure with
      | Some failSyntax => (0%Z, Some (NumError "ParseInt" s ErrSyntax))
      | _ =>
          let cutoff := (2 ^ 63)%N in
          if negb neg && (cutoff <=? un)%N
          then ((2 ^ 63 - 1)%Z, Some (NumError "ParseInt" s ErrRange))
          else if neg && (cutoff <? un)%N
          then ((- 2 ^ 63)%Z, Some (NumError "ParseInt" s ErrRange))
          else ((if neg then - Z.of_N un else Z.of_N un)%Z, None)
      end
  end.

(** Decimal text of an integer, as [%v] and [%d] print it. *)
Definition FormatInt (n : Z) : string := NilZero.string_of_int (Z.to_int n).

Definition is_ascii (s : string) : bool :=
  forallb (fun c => (N_of_ascii c <? 128)%N) (list_ascii_of_string s).

Definition hexDigit (n : N) : string :=
  match String.get (N.to_nat n) "0123456789abcdef" with
  | Some c => String c ""
  | None => ""
  end.

(** One byte below 128 inside a quoted string or character literal, as
    [strconv.Quote] and [strconv.QuoteRune] escape it. *)
Definition quoteByte (quote c : ascii) : string :=
  let n := N_of_ascii c in
  if Ascii.eqb c quote || (n =? 92)%N then backslash ++ String c ""
  else if (32 <=? n)%N && (n <=? 126)%N then String c ""
  else if (n =? 7)%N then backslash ++ "a"
  else if (n =? 8)%N then backslash ++ "b"
  else if (n =? 12)%N then backslash ++ "f"
  else if (n =? 10)%N then backslash ++ "n"
  else if (n =? 13)%N then backslash ++ "r"
  else if (n =? 9)%N then backslash ++ "t"
  else if (n =? 11)%N then backslash ++ "v"
  else backslash ++ "x" ++ hexDigit (n / 16) ++ hexDigit (n mod 16).

Fixpoint quoteBytes (quote : ascii) (s : string) : string :=
  match s with
  | "" => ""
  | String c s' => quoteByte quote c ++ quoteBytes quote s'
  end.

(** *** What the model takes from outside

    [pointerstructure] and [regexp] are libraries of their own, and the
    floating point conversions, the escapes of [strconv.Unquote] and the text
    of non-ASCII or composite values are long tables: they enter as the
    fields of a [Runtime]. *)

Record Config : Type := {
  TagName : string;
  ValueTransformationHook : option (value -> value)
}.

Record Pointer : Type := {
  Parts : list string;
  PointerConfig : Config
}.

Record Runtime : Type := {
  (** [strconv.ParseFloat(s, 64)] *)
  strconv_ParseFloat : string -> result float;
  (** [strconv.Unquote] *)
  strconv_Unquote : string -> result string;
  (** [strconv.Quote] of a string with bytes from 128 on *)
  strconv_Quote_utf8 : string -> string;
  (** [strconv.QuoteRune] of a rune from 128 on *)
  strconv_QuoteRune_utf8 : Z -> string;
  (** the text of a value under a verb of [fmt], where the model has none *)
  fmt_value : ascii -> value -> string;
  (** [regexp.Compile]: the message of the error, if the pattern is wrong *)
  regexp_Compile : string -> option string;
  (** [Regexp.Match] of the compiled pattern on a byte sequence *)
  regexp_Match : string -> string -> bool;
  (** whether [Value.Len] accepts a pointer to an array, as the [reflect]
      package of the later toolchains does *)
  reflect_Len_array_pointer : bool;
  (** [pointerstructure.Parse] *)
  pointerstructure_Parse : string -> result (list string);
  (** [Pointer.Get] *)
  pointerstructure_Get : Pointer -> value -> result value
}.

Section Fmt.
Context (rt : Runtime).

Definition strconv_Quote (s : string) : string :=
  if is_ascii s
  then dquote ++ quoteBytes (ascii_of_nat 34) s ++ dquote
  else strconv_Quote_utf8 rt s.

Definition strconv_QuoteRune (r : Z) : string :=
  if (0 <=? r)%Z && (r <? 128)%Z
  then squote ++ quoteByte (ascii_of_nat 39) (ascii_of_N (Z.to_N r)) ++ squote
  else strconv_QuoteRune_utf8 rt r.

(** [fmt.Sprintf("%v", v)]. *)
Definition Sprintv (v : value) : string :=
  match v with
  | VNil => "<nil>"
  | VBool b => if b then "true" else "false"
  | VInt _ n => FormatInt n
  | VString s => s
  | VJsonNumber s => s
  | _ => fmt_value rt "v" v
  end.

End Fmt.

End Go.

Notation "x <- m ;; k" := (Go.bind m (fun x => k))
  (at level 61, m at next level, right associativity).
Notation "' pat <- m ;; k" := (Go.bind m (fun x => match x with pat => k end))
  (at level 61, pat pattern, m at next level, right associativity).

(* ================================================================= *)
(** ** Package grammar: the syntax tree (grammar/ast.go) *)

Module grammar.
Import Go.

(** The operators are Go integers numbered by [iota]; a value outside the
    declared constants is possible and every [switch] has a default. *)
Definition UnaryOperator := Z.
Definition UnaryOpNot : UnaryOperator := 0%Z.

Definition UnaryOperator_String (op : UnaryOperator) : string :=
  match op with
  | 0%Z => "Not"
  | _ => "UNKNOWN"
  end.

Definition BinaryOperator := Z.
Definition BinaryOpAnd : BinaryOperator := 0%Z.
Definition BinaryOpOr : BinaryOperator := 1%Z.

Definition BinaryOperator_String (op : BinaryOperator) : string :=
  match op with
  | 0%Z => "And"
  | 1%Z => "Or"
  | _ => "UNKNOWN"
  end.

Definition MathOperator := Z.
Definition MathOpValue : MathOperator := 0%Z.
Definition MathOpPlus : MathOperator := 1%Z.
Definition MathOpMinus : MathOperator := 2%Z.
Definition MathOpMul : MathOperator := 3%Z.
Definition MathOpDiv : MathOperator := 4%Z.

Definition MathOperator_String (op : MathOperator) : string :=
  match op with
  | 0%Z => "="
  | 1%Z => "+"
  | 2%Z => "-"
  | 3%Z => "*"
  | 4%Z => "/"
  | _ => "UNKNOWN"
  end.

Definition MatchOperator := Z.
Definition MatchEqual : MatchOperator := 0%Z.
Definition MatchNotEqual : MatchOperator := 1%Z.
Definition MatchIn : MatchOperator := 2%Z.
Definition MatchNotIn : MatchOperator := 3%Z.
Definition MatchIsEmpty : MatchOperator := 4%Z.
Definition MatchIsNotEmpty : MatchOperator := 5%Z.
Definition MatchMatches : MatchOperator := 6%Z.
Definition MatchNotMatches : MatchOperator := 7%Z.
Definition MatchLower : MatchOperator := 8%Z.
Definition MatchLowerOrEqual : MatchOperator := 9%Z.
Definition MatchHigher : MatchOperator := 10%Z.
Definition MatchHigherOrEqual : MatchOperator := 11%Z.

Definition MatchOperator_String (op : MatchOperator) : string :=
  match op with
  | 0%Z => "Equal"
  | 1%Z => "Not Equal"
  | 2%Z => "In"
  | 3%Z => "Not In"
  | 4%Z => "Is Empty"
  | 5%Z => "Is Not Empty"
  | 6%Z => "Matches"
  | 7%Z => "Not Matches"
  | 8%Z => "Lower"
  | 10%Z => "Higher"
  | 9%Z => "Lower or Equal"
  | 11%Z => "Higher or Equal"
  | _ => "UNKNOWN"
  end.

(** [NotPresentDisposition]: the answer of a match whose selector misses a
    map key. *)
Definition NotPresentDisposition (op : MatchOperator) : bool :=
  match op with
  | 0%Z => false   (* MatchEqual *)
  | 1%Z => true    (* MatchNotEqual *)
  | 2%Z => false   (* MatchIn *)
  | 3%Z => true    (* MatchNotIn *)
  | 4%Z => true    (* MatchIsEmpty *)
  | 5%Z => false   (* MatchIsNotEmpty *)
  | 6%Z => false   (* MatchMatches *)
  | 7%Z => true    (* MatchNotMatches *)
  | 8%Z => true    (* MatchLower *)
  | 10%Z => false  (* MatchHigher *)
  | 9%Z => true    (* MatchLowerOrEqual *)
  | 11%Z => false  (* MatchHigherOrEqual *)
  | _ => false
  end.

Definition SelectorType := Z.
Definition SelectorTypeUnknown : SelectorType := 0%Z.
Definition SelectorTypeBexpr : SelectorType := 1%Z.
Definition SelectorTypeJsonPointer : SelectorType := 2%Z.

Definition ValueType := Z.
Definition ValueTypeUndefined : ValueType := 0%Z.
Definition ValueTypeBool : ValueType := 1%Z.
Definition ValueTypeInt : ValueType := 2%Z.
Definition ValueTypeUint : ValueType := 3%Z.
Definition ValueTypeFloat32 : ValueType := 4%Z.
Definition ValueTypeFloat64 : ValueType := 5%Z.
Definition ValueTypeString : ValueType := 6%Z.
Definition ValueTypeReflect : ValueType := 7%Z.

(** [Type] is a word of Rocq: the two fields of that name are [Type_]
    and [ValType]. *)
Record Selector : Type := {
  Type_ : SelectorType;
  Path : list string
}.

Definition noSelector : Selector := {| Type_ := SelectorTypeUnknown; Path := [] |}.

Definition Selector_String (sel : Selector) : string :=
  match Path sel with
  | [] => ""
  | _ =>
      match Type_ sel with
      | 1%Z => strings_Join (Path sel) "."
      | 2%Z => strings_Join (Path sel) "/"
      | _ => ""
      end
  end.

Record MatchValue : Type := {
  Sel : Selector;
  ValType : ValueType;
  Raw : string;
  Converted : option value
}.

(** What an [interface{}] slot of the tree can hold: nothing, or a pointer
    to one of the five node types.  [ExpressionValue] is the pointer type
    [*ExpressionValue], which the evaluator tests against nil. *)
Inductive Node : Type :=
| Nil
| UnaryExpression (Operator : UnaryOperator) (Operand : Node)
| BinaryExpression (Left : Node) (Operator : BinaryOperator) (Right : Node)
| MatchNode (expr : MatchExpression)
| ValueNode (expr : ExpressionValue)
| MatchValueNode (mv : MatchValue)
with MatchExpression : Type :=
| mkMatchExpression (Operator : MatchOperator) (Left Right : ExpressionValue)
with ExpressionValue : Type :=
| nilExpressionValue
| mkExpressionValue (Left : Node) (Operator : MathOperator) (Right : Node).

Section Dump.
Context (rt : Runtime).

(** [fmt] on a [*MatchValue]: the pointer to a struct prints as its fields
    between braces; [Selector] has a [String] method, the [ValueType] is a
    plain [uint32] and a nil [Converted] prints as [<nil>] under every verb. *)
Definition formatMatchValue (verb : ascii) (mv : MatchValue) : string :=
  let sel := Selector_String (Sel mv) in
  let conv :=
    match Converted mv with
    | None => "<nil>"
    | Some v => if Ascii.eqb verb "v" then Sprintv rt v else fmt_value rt verb v
    end in
  if Ascii.eqb verb "q"
  then "&{" ++ strconv_Quote rt sel ++ " " ++ strconv_QuoteRune rt (ValType mv)
       ++ " " ++ strconv_Quote rt (Raw mv) ++ " " ++ conv ++ "}"
  else if Ascii.eqb verb "s"
  then "&{" ++ sel ++ " %!s(grammar.ValueType=" ++ FormatInt (ValType mv) ++ ") "
       ++ Raw mv ++ " " ++ conv ++ "}"
  else "&{" ++ sel ++ " " ++ FormatInt (ValType mv) ++ " " ++ Raw mv ++ " "
       ++ conv ++ "}".

(** [fmt] on an operand slot under the verbs [v], [s] and [q].  A pointer
    to any other node prints the machine addresses of the pointers inside
    it, which no text of the model stands for: [None]. *)
Definition formatOperand (verb : ascii) (operand : Node) : option string :=
  match operand with
  | Nil =>
      Some (if Ascii.eqb verb "v" then "<nil>"
            else "%!" ++ String verb "" ++ "(<nil>)")
  | MatchValueNode mv => Some (formatMatchValue verb mv)
  | _ => None
  end.

Definition option_app (a b : option string) : option string :=
  match a, b with
  | Some x, Some y => Some (x ++ y)
  | _, _ => None
  end.

(** [(expr *ExpressionValue) ExpressionDump]: the format is
    [%s%s %v %v] followed by a line feed, over the indent, [expr.Left], the
    name of the operator and [expr.Right]. *)
Definition ExpressionValue_ExpressionDump (expr : ExpressionValue)
    (indent : string) (level : nat) : exec (option string) :=
  match expr with
  | nilExpressionValue => Panic NilDereference
  | mkExpressionValue lhs op rhs =>
      let localIndent := strings_Repeat indent level in
      Done (option_app
              (option_app (Some localIndent) (formatOperand "s" lhs))
              (option_app (Some (" " ++ MathOperator_String op ++ " "))
                 (option_app (formatOperand "v" rhs) (Some newline))))
  end.

(** [(expr *MatchExpression) ExpressionDump]. *)
Definition MatchExpression_ExpressionDump (expr : MatchExpression)
    (indent : string) (level : nat) : exec (option string) :=
  let '(mkMatchExpression op lhs rhs) := expr in
  let i1 := strings_Repeat indent level in
  let i2 := strings_Repeat indent (level + 1) in
  let binary :=
    existsb (Z.eqb op)
      [MatchEqual; MatchNotEqual; MatchIn; MatchNotIn; MatchLower; MatchHigher;
       MatchLowerOrEqual; MatchHigherOrEqual] in
  match lhs with
  | nilExpressionValue => Panic NilDereference
  | mkExpressionValue leftLeft _ _ =>
      if binary then
        match rhs with
        | nilExpressionValue => Panic NilDereference
        | mkExpressionValue _ _ rightRight =>
            Done (option_app
                    (option_app
                       (Some (i1 ++ MatchOperator_String op ++ " {" ++ newline
                              ++ i2 ++ "Selector: "))
                       (formatOperand "v" leftLeft))
                    (option_app
                       (Some (newline ++ i2 ++ "Value: "))
                       (option_app (formatOperand "q" rightRight)
                          (Some (newline ++ i1 ++ "}" ++ newline)))))
        end
      else
        Done (option_app
                (option_app
                   (Some (i1 ++ MatchOperator_String op ++ " {" ++ newline
                          ++ i2 ++ "Selector: "))
                   (formatOperand "v" leftLeft))
                (Some (newline ++ i1 ++ "}" ++ newline)))
  end.

(** [ExpressionDump] through the [Expression] interface.  A nil interface
    has no method to call; a [*MatchValue] is no [Expression] and cannot
    stand where one is dumped. *)
Fixpoint ExpressionDump (expr : Node) (indent : string) (level : nat)
    : exec (option string) :=
  match expr with
  | Nil => Panic NilDereference
  | UnaryExpression op operand =>
      let localIndent := strings_Repeat indent level in
      body <- ExpressionDump operand indent (level + 1) ;;
      Done (option_app
              (Some (localIndent ++ UnaryOperator_String op ++ " {" ++ newline))
              (option_app body (Some (localIndent ++ "}" ++ newline))))
  | BinaryExpression lhs op rhs =>
      let localIndent := strings_Repeat indent level in
      l <- ExpressionDump lhs indent (level + 1) ;;
      r <- ExpressionDump rhs indent (level + 1) ;;
      Done (option_app
              (Some (localIndent ++ BinaryOperator_String op ++ " {" ++ newline))
              (option_app l
                 (option_app r (Some (localIndent ++ "}" ++ newline)))))
  | MatchNode e => MatchExpression_ExpressionDump e indent level
  | ValueNode e => ExpressionValue_ExpressionDump e indent level
  | MatchValueNode _ => Done None
  end.

End Dump.

(* ----------------------------------------------------------------- *)
(** *** The grammar (a parsing expression grammar) and its actions

    A rule reads a prefix of the input.  It matches, with a value and the
    input that is left; or it does not match, and the enclosing choice
    tries its next alternative; or one of the error productions of the
    grammar (a code predicate or an action that returns an error) has run.
    The generated parser records such an error and reports it when the parse
    ends, whatever else matches afterwards: a recorded error decides the
    outcome, and [Failed] carries the first one.  The input is read as a
    sequence of ASCII characters, the classes [\pL] and [\pN] being the
    letters and the digits. *)

Inductive presult (A : Type) : Type :=
| Matched (a : A) (rest : string)
| NoMatch
| Failed (msg : string)
| OutOfFuel.
Arguments Matched {A} a rest.
Arguments NoMatch {A}.
Arguments Failed {A} msg.
Arguments OutOfFuel {A}.

Definition parser (A : Type) : Type := string -> presult A.

Definition pret {A : Type} (a : A) : parser A := fun s => Matched a s.

Definition pbind {A B : Type} (p : parser A) (k : A -> parser B) : parser B :=
  fun s =>
    match p s with
    | Matched a rest => k a rest
    | NoMatch => NoMatch
    | Failed msg => Failed msg
    | OutOfFuel => OutOfFuel
    end.

(** Ordered choice [p / q]. *)
Definition alt {A : Type} (p q : parser A) : parser A :=
  fun s =>
    match p s with
    | NoMatch => q s
    | r => r
    end.

(** The predicates [&p] and [!p]: nothing is consumed. *)
Definition andp {A : Type} (p : parser A) : parser unit :=
  fun s =>
    match p s with
    | Matched _ _ => Matched tt s
    | NoMatch => NoMatch
    | Failed msg => Failed msg
    | OutOfFuel => OutOfFuel
    end.

Definition notp {A : Type} (p : parser A) : parser unit :=
  fun s =>
    match p s with
    | Matched _ _ => NoMatch
    | NoMatch => Matched tt s
    | Failed msg => Failed msg
    | OutOfFuel => OutOfFuel
    end.

(** An error production: a code predicate that returns
    [false, errors.New(msg)], or an action that returns an error. *)
Definition raise {A : Type} (msg : string) : parser A := fun _ => Failed msg.

(** [p*], at most [fuel] rounds. *)
Fixpoint star {A : Type} (fuel : nat) (p : parser A) : parser (list A) :=
  fun s =>
    match fuel with
    | O => OutOfFuel
    | S n =>
        match p s with
        | Matched a rest =>
            match star n p rest with
            | Matched l rest' => Matched (a :: l) rest'
            | r => r
            end
        | NoMatch => Matched [] s
        | Failed msg => Failed msg
        | OutOfFuel => OutOfFuel
        end
    end.

(** [p*] for a [p] that consumes a character in each round. *)
Definition many {A : Type} (p : parser A) : parser (list A) :=
  fun s => star (S (String.length s)) p s.

Declare Scope peg_scope.
Delimit Scope peg_scope with peg.
Notation "x <~ p ;; k" := (pbind p (fun x => k))
  (at level 61, p at next level, right associativity) : peg_scope.
Notation "p ~> q" := (pbind p (fun _ => q))
  (at level 61, right associativity) : peg_scope.
Notation "p // q" := (alt p q)
  (at level 62, right associativity) : peg_scope.
#[local] Open Scope peg_scope.

(** What is left of [s] after the prefix [t], if [s] starts with [t]. *)
Fixpoint dropPrefix (t s : string) : option string :=
  match t, s with
  | "", _ => Some s
  | String a t', String b s' => if Ascii.eqb a b then dropPrefix t' s' else None
  | String _ _, "" => None
  end.

(** A literal. *)
Definition lit (t : string) : parser unit :=
  fun s =>
    match dropPrefix t s with
    | Some rest => Matched tt rest
    | None => NoMatch
    end.

(** One character of a class. *)
Definition class (f : ascii -> bool) : parser ascii :=
  fun s =>
    match s with
    | String c rest => if f c then Matched c rest else NoMatch
    | "" => NoMatch
    end.

(** The longest prefix of characters of a class. *)
Fixpoint span (f : ascii -> bool) (s : string) : string * string :=
  match s with
  | String c rest =>
      if f c then let '(a, b) := span f rest in (String c a, b) else ("", s)
  | "" => ("", "")
  end.

Definition classStar (f : ascii -> bool) : parser string :=
  fun s => let '(a, rest) := span f s in Matched a rest.

Definition classPlus (f : ascii -> bool) : parser string :=
  c <~ class f ;; cs <~ classStar f ;; pret (String c cs).

(** [c.text]: the text a rule has matched. *)
Definition text {A : Type} (p : parser A) : parser string :=
  fun s =>
    match p s with
    | Matched _ rest =>
        Matched (substring 0 (String.length s - String.length rest) s) rest
    | NoMatch => NoMatch
    | Failed msg => Failed msg
    | OutOfFuel => OutOfFuel
    end.

Definition isSpace (c : ascii) : bool :=
  Ascii.eqb c " " || (N_of_ascii c =? 9)%N || (N_of_ascii c =? 13)%N
  || (N_of_ascii c =? 10)%N.
Definition isLetter (c : ascii) : bool :=
  byte_in "a" "z" (N_of_ascii c) || byte_in "A" "Z" (N_of_ascii c).
Definition isDigit (c : ascii) : bool := byte_in "0" "9" (N_of_ascii c).
Definition isIdentChar (c : ascii) : bool :=
  isLetter c || isDigit c || Ascii.eqb c "_" || Ascii.eqb c "/".
Definition isPointerChar (c : ascii) : bool :=
  isLetter c || isDigit c || Ascii.eqb c "-" || Ascii.eqb c "_"
  || Ascii.eqb c "." || Ascii.eqb c "~" || Ascii.eqb c ":" || Ascii.eqb c "|".
Definition doubleQuote : ascii := ascii_of_nat 34.
Definition backQuote : ascii := ascii_of_nat 96.

Definition tailOf (s : string) : string :=
  match s with
  | String _ s' => s'
  | "" => ""
  end.

(** The rules, under the names the grammar gives them.  Inside [peg] a
    rule may bear the name of an operator constant or of a node type of the
    syntax tree; the body of such a rule still means the constant. *)
Module peg.

(** White space (the rule named by an underscore), its optional form and
    the end of the input. *)
Definition ws : parser unit := classPlus isSpace ~> pret tt.
Definition ows : parser unit := classStar isSpace ~> pret tt.
Definition EOF : parser unit :=
  fun s => match s with "" => Matched tt "" | _ => NoMatch end.

(** [AfterNumbers]: white space, the end of the input or a closing
    parenthesis follows. *)
Definition AfterNumbers : parser unit := andp (ws // EOF // lit ")").

Definition optional (t : string) : parser unit := lit t // pret tt.

Definition integerPart : parser unit :=
  lit "0"
  // (class (fun c => byte_in "1" "9" (N_of_ascii c)) ~> classStar isDigit
      ~> pret tt).

(** [Float]: an optional minus sign, a zero or a number that starts with
    a digit from 1 to 9, then a dot and digits. *)
Definition Float : parser string :=
  text (optional "-" ~> integerPart ~> lit "." ~> classPlus isDigit).

(** [Integer]: an optional minus sign, then a zero or a number that
    starts with a digit from 1 to 9. *)
Definition Integer : parser string := text (optional "-" ~> integerPart).

(** [Identifier]: a letter, then letters, digits, underscores and
    slashes. *)
Definition Identifier : parser string :=
  text (class isLetter ~> classStar isIdentChar).

(** [JsonPointerSegment], whose action drops the slash. *)
Definition JsonPointerSegment : parser string :=
  t <~ text (lit "/" ~> classPlus isPointerChar) ;; pret (tailOf t).

Definition MathOpPlus : parser MathOperator :=
  ows ~> lit "+" ~> ows ~> pret MathOpPlus.
Definition MathOpMinus : parser MathOperator :=
  ows ~> lit "-" ~> ows ~> pret MathOpMinus.
Definition MathOpMul : parser MathOperator :=
  ows ~> lit "*" ~> ows ~> pret MathOpMul.
Definition MathOpDiv : parser MathOperator :=
  ows ~> lit "/" ~> ows ~> pret MathOpDiv.

Definition MatchLowerOrEqual : parser MatchOperator :=
  ows ~> lit "<=" ~> ows ~> pret MatchLowerOrEqual.
Definition MatchLower : parser MatchOperator :=
  ows ~> lit "<" ~> ows ~> pret MatchLower.
Definition MatchHigherOrEqual : parser MatchOperator :=
  ows ~> lit ">=" ~> ows ~> pret MatchHigherOrEqual.
Definition MatchHigher : parser MatchOperator :=
  ows ~> lit ">" ~> ows ~> pret MatchHigher.
Definition MatchEqual : parser MatchOperator :=
  ows ~> lit "==" ~> ows ~> pret MatchEqual.
Definition MatchNotEqual : parser MatchOperator :=
  ows ~> lit "!=" ~> ows ~> pret MatchNotEqual.
Definition MatchIsEmpty : parser MatchOperator :=
  ws ~> lit "is" ~> ws ~> lit "empty" ~> pret MatchIsEmpty.
Definition MatchIsNotEmpty : parser MatchOperator :=
  ws ~> lit "is" ~> ws ~> lit "not" ~> ws ~> lit "empty" ~> pret MatchIsNotEmpty.
Definition MatchContains : parser MatchOperator :=
  ws ~> lit "contains" ~> ws ~> pret MatchIn.
Definition MatchNotContains : parser MatchOperator :=
  ws ~> lit "not" ~> ws ~> lit "contains" ~> ws ~> pret MatchNotIn.
Definition MatchIn : parser MatchOperator :=
  ws ~> lit "in" ~> ws ~> pret MatchIn.
Definition MatchNotIn : parser MatchOperator :=
  ws ~> lit "not" ~> ws ~> lit "in" ~> ws ~> pret MatchNotIn.
Definition MatchMatches : parser MatchOperator :=
  ws ~> lit "matches" ~> ws ~> pret MatchMatches.
Definition MatchNotMatches : parser MatchOperator :=
  ws ~> lit "not" ~> ws ~> lit "matches" ~> ws ~> pret MatchNotMatches.

(** [Undefined] and [TrueOrFalse] return their text when the literal
    ends where a literal may end, and are an error when it does not. *)
Definition Undefined : parser string :=
  (t <~ text (lit "undefined") ;; AfterNumbers ~> pret t)
  // (lit "undefined" ~> notp AfterNumbers ~> raise "Invalid undefined literal").

Definition TrueOrFalse : parser string :=
  (t <~ text (lit "true" // lit "false") ;; AfterNumbers ~> pret t)
  // ((lit "true" // lit "false") ~> notp AfterNumbers
      ~> raise "Invalid bool literal").

Section Rules.
Context (rt : Runtime).

Definition quoted (q : ascii) : parser unit :=
  class (Ascii.eqb q) ~> classStar (fun c => negb (Ascii.eqb q c))
  ~> class (Ascii.eqb q) ~> pret tt.

Definition unclosed (q : ascii) : parser unit :=
  class (Ascii.eqb q) ~> classStar (fun c => negb (Ascii.eqb q c)) ~> pret tt.

(** [StringLiteral]: the action hands the matched text, quotes included,
    to [strconv.Unquote]. *)
Definition StringLiteral : parser string :=
  (t <~ text (quoted backQuote // quoted doubleQuote) ;;
   match strconv_Unquote rt t with
   | (s, None) => pret s
   | (_, Some _) => raise "invalid syntax"
   end)
  // ((unclosed backQuote // unclosed doubleQuote) ~> EOF
      ~> raise "Unterminated string literal").

Definition IndexExpression : parser string :=
  (lit "[" ~> ows ~> l <~ StringLiteral ;; ows ~> lit "]" ~> pret l)
  // (lit "[" ~> ows ~> notp StringLiteral ~> raise "Invalid index")
  // (lit "[" ~> ows ~> StringLiteral ~> ows ~> notp (lit "]")
      ~> raise "Unclosed index expression").

Definition SelectorOrIndex : parser string :=
  (lit "." ~> Identifier)
  // IndexExpression
  // (t <~ text (lit "." ~> classPlus isDigit) ;; pret (tailOf t)).

(** [Selector]: a dotted path, or a JSON pointer between double quotes,
    which [pointerstructure.Parse] validates and normalises. *)
Definition Selector : parser Selector :=
  (first <~ Identifier ;;
   rest <~ many SelectorOrIndex ;;
   pret {| Type_ := SelectorTypeBexpr; Path := first :: rest |})
  // (class (Ascii.eqb doubleQuote) ~>
      ptrsegs <~ many JsonPointerSegment ;;
      class (Ascii.eqb doubleQuote) ~>
      match pointerstructure_Parse rt ("/" ++ strings_Join ptrsegs "/") with
      | (parts, None) =>
          pret {| Type_ := SelectorTypeJsonPointer; Path := parts |}
      | (_, Some _) => raise "error validating json pointer"
      end).

Definition literal (t : ValueType) (raw : string) : MatchValue :=
  {| Sel := noSelector; ValType := t; Raw := raw; Converted := None |}.

Definition Value : parser MatchValue :=
  (b <~ TrueOrFalse ;; pret (literal ValueTypeBool b))
  // (u <~ Undefined ;; pret (literal ValueTypeUndefined u))
  // (selector <~ Selector ;;
      pret {| Sel := selector; ValType := ValueTypeReflect; Raw := "";
              Converted := None |})
  // (n <~ Float ;; AfterNumbers ~> pret (literal ValueTypeFloat64 n))
  // (n <~ Integer ;; AfterNumbers ~> pret (literal ValueTypeInt n))
  // (Float ~> notp AfterNumbers ~> raise "Invalid number literal")
  // (Integer ~> notp AfterNumbers ~> raise "Invalid number literal")
  // (TrueOrFalse ~> notp AfterNumbers ~> raise "Invalid bool literal")
  // (s <~ StringLiteral ;; pret (literal ValueTypeString s)).

Definition single (v : MatchValue) : ExpressionValue :=
  mkExpressionValue (MatchValueNode v) MathOpValue Nil.

Definition ExpressionValue : parser ExpressionValue :=
  (lhs <~ Value ;;
   operator <~ (MathOpPlus // MathOpMinus // MathOpMul // MathOpDiv) ;;
   rhs <~ Value ;;
   pret (mkExpressionValue (MatchValueNode lhs) operator (MatchValueNode rhs)))
  // (v <~ Value ;; pret (single v)).

Definition MatchSelectorOpValue : parser Node :=
  lhs <~ ExpressionValue ;;
  operator <~ (MatchLowerOrEqual // MatchHigherOrEqual // MatchLower
               // MatchHigher // MatchEqual // MatchNotEqual // MatchContains
               // MatchNotContains // MatchMatches // MatchNotMatches) ;;
  rhs <~ ExpressionValue ;;
  pret (MatchNode (mkMatchExpression operator lhs rhs)).

Definition MatchSelectorOp : parser Node :=
  lhs <~ Value ;;
  operator <~ (MatchIsEmpty // MatchIsNotEmpty) ;;
  pret (MatchNode (mkMatchExpression operator (single lhs) nilExpressionValue)).

(** [value in selector]: the selector goes to the left of the node, the
    value to its right. *)
Definition MatchValueOpSelector : parser Node :=
  (v <~ Value ;;
   operator <~ (MatchIn // MatchNotIn) ;;
   selector <~ Value ;;
   pret (MatchNode (mkMatchExpression operator (single selector) (single v))))
  // (Value ~> (MatchIn // MatchNotIn) ~> notp Selector
      ~> raise "Invalid selector").

Definition MatchExpression : parser Node :=
  MatchSelectorOpValue // MatchSelectorOp // MatchValueOpSelector.

(** The action of [NotExpression]: a small optimization to get rid of
    unnecessary levels of nodes. *)
Definition negate (expr : Node) : Node :=
  match expr with
  | UnaryExpression 0%Z operand => operand
  | _ => UnaryExpression UnaryOpNot expr
  end.

(** The four recursive rules.  Every call of a rule by a rule takes one
    unit of fuel. *)
Fixpoint OrExpression (fuel : nat) : parser Node :=
  match fuel with
  | O => fun _ => OutOfFuel
  | S n =>
      (lhs <~ AndExpression n ;; ws ~> lit "or" ~> ws ~>
       rhs <~ OrExpression n ;;
       pret (BinaryExpression lhs BinaryOpOr rhs))
      // AndExpression n
  end

with AndExpression (fuel : nat) : parser Node :=
  match fuel with
  | O => fun _ => OutOfFuel
  | S n =>
      (lhs <~ NotExpression n ;; ws ~> lit "and" ~> ws ~>
       rhs <~ AndExpression n ;;
       pret (BinaryExpression lhs BinaryOpAnd rhs))
      // NotExpression n
  end

with NotExpression (fuel : nat) : parser Node :=
  match fuel with
  | O => fun _ => OutOfFuel
  | S n =>
      (lit "not" ~> ws ~> expr <~ NotExpression n ;; pret (negate expr))
      // ParenthesizedExpression n
  end

with ParenthesizedExpression (fuel : nat) : parser Node :=
  match fuel with
  | O => fun _ => OutOfFuel
  | S n =>
      (lit "(" ~> ows ~> expr <~ ExpressionValue ;; ows ~> lit ")" ~>
       pret (ValueNode expr))
      // (lit "(" ~> ows ~> expr <~ OrExpression n ;; ows ~> lit ")" ~>
          pret expr)
      // MatchExpression
      // (expr <~ ExpressionValue ;; pret (ValueNode expr))
      // (lit "(" ~> ows ~> OrExpression n ~> ows ~> notp (lit ")")
          ~> raise "Unmatched parentheses")
  end.

(** [Input] has two alternatives: an expression between parentheses that
    span the whole input, and an expression as it stands. *)
Definition Input_parenthesized (fuel : nat) : parser Node :=
  ows ~> lit "(" ~> ows ~> expr <~ OrExpression fuel ;;
  ows ~> lit ")" ~> ows ~> EOF ~> pret expr.

Definition Input_plain (fuel : nat) : parser Node :=
  ows ~> expr <~ OrExpression fuel ;; ows ~> EOF ~> pret expr.

Definition Input (fuel : nat) : parser Node :=
  Input_parenthesized fuel // Input_plain fuel.

(** Fuel for an input: a rule calls a rule either further down the chain
    [Or, And, Not, Parenthesized], or after a character has been read. *)
Definition fuelFor (input : string) : nat := 4 * String.length input + 4.

(** The entry point [Parse], before its outcome is split into the tree
    and the error. *)
Definition Parse (input : string) : presult Node :=
  Input (fuelFor input) input.

End Rules.

End peg.

End grammar.

(* ================================================================= *)
(** ** Package bexpr: coercions and the evaluator *)

Module bexpr.
Import Go grammar.

(** Modelled from the spec: the option set that [getOpts] assembles from
    the [Option] arguments of a call (the file that declares both is not part
    of the sources at hand): the tag name for field lookup, the per-value
    transformation hook and the optional value that stands for an absent
    path. *)
Record options : Type := {
  withTagName : string;
  withHookFn : option (value -> value);
  withUnknown : option value
}.

Definition UndefinedType : gotype := TNamed "bexpr.UndefinedType" reflect.Struct.

(** [&undefined]. *)
Definition undefined : value :=
  VPtr UndefinedType (Some (VStruct "bexpr.UndefinedType" [])).

Definition isUndefined (f : value) : bool :=
  if negb (reflect.Kind_eqb (ValueOf_Kind f) reflect.Pointer) then false
  else
    let v := Indirect f in
    if negb (reflect.Kind_eqb (ValueOf_Kind v) reflect.Struct) then false
    else
      match TypeOf v with
      | Some t => gotype_eqb t UndefinedType
      | None => false
      end.

(** [CoerceUint64]: the text is read by [strconv.ParseUint] with base 0,
    and the number comes back as a [uint64] in an interface, next to the
    error of the conversion. *)
Definition CoerceUint64 (s : string) : result value :=
  let '(i, failure) := strconv_ParseUint s 0 in
  (VInt uint64 (Z.of_N i),
   match failure with
   | None => None
   | Some failSyntax => Some (NumError "ParseUint" s ErrSyntax)
   | Some failRange => Some (NumError "ParseUint" s ErrRange)
   end).

Section Evaluator.
Context (rt : Runtime).

(** *** Coercions *)

Definition CoerceInt64 (v : value) : result Z :=
  strconv_ParseInt (Sprintv rt v) 0.

(** In the arm [case int, int64] the variable keeps its interface type, so
    [v != 0] compares it with the [int] zero: an [int64] differs from it
    by type whatever its number. *)
Definition CoerceBool (v : value) : result bool :=
  match v with
  | VInt int n => (negb (n =? 0)%Z, None)
  | VInt int64 _ => (true, None)
  | VFloat float64 f => (negb (PrimFloat.eqb f 0), None)
  | VString s =>
      let '(b, err) := strconv_ParseBool (Sprintv rt v) in
      match err with
      | Some _ => ((0 <? String.length s)%nat, None)
      | None => (b, None)
      end
  | _ => strconv_ParseBool (Sprintv rt v)
  end.

Definition CoerceFloat64 (v : value) : result float :=
  strconv_ParseFloat rt (Sprintv rt v).

(** *** Primitive comparisons *)

Definition doEqualBool (first second : value) : bool :=
  let '(b1, _) := CoerceBool (VString (Sprintv rt first)) in
  let '(b2, _) := CoerceBool (VString (Sprintv rt second)) in
  Bool.eqb b1 b2.

Definition doEqualInt64 (first second : value) : bool :=
  let '(b1, _) := CoerceInt64 (VString (Sprintv rt first)) in
  let '(b2, _) := CoerceInt64 (VString (Sprintv rt second)) in
  (b1 =? b2)%Z.

Definition doEqualFloat64 (first second : value) : bool :=
  let '(b1, _) := CoerceFloat64 (VString (Sprintv rt first)) in
  let '(b2, _) := CoerceFloat64 (VString (Sprintv rt second)) in
  PrimFloat.eqb b1 b2.

Definition doEqualString (first second : value) : bool :=
  let b1 := Sprintv rt first in
  let b2 := Sprintv rt second in
  b1 =? b2.

Definition primitiveEqualityFn (v : value) : option (value -> value -> bool) :=
  let t := Indirect v in
  match ValueOf_Kind t with
  | reflect.Bool => Some doEqualBool
  | reflect.Uint | reflect.Uint8 | reflect.Uint16 | reflect.Uint32
  | reflect.Uint64 | reflect.Int | reflect.Int8 | reflect.Int16
  | reflect.Int32 | reflect.Int64 => Some doEqualInt64
  | reflect.Float32 | reflect.Float64 => Some doEqualFloat64
  | reflect.String => Some doEqualString
  | _ => None
  end.

Definition doLowerBool (first second : value) : bool :=
  let '(b1, _) := CoerceBool (VString (Sprintv rt first)) in
  let '(b2, _) := CoerceBool (VString (Sprintv rt second)) in
  b1 && negb b2.

Definition doLowerInt64 (first second : value) : bool :=
  let '(b1, _) := CoerceInt64 (VString (Sprintv rt first)) in
  let '(b2, _) := CoerceInt64 (VString (Sprintv rt second)) in
  (b1 <? b2)%Z.

Definition doLowerFloat64 (first second : value) : bool :=
  let '(b1, _) := CoerceFloat64 (VString (Sprintv rt first)) in
  let '(b2, _) := CoerceFloat64 (VString (Sprintv rt second)) in
  PrimFloat.ltb b1 b2.

Definition doLowerString (first second : value) : bool :=
  let b1 := Sprintv rt first in
  let b2 := Sprintv rt second in
  strings_HasPrefix b2 b1.

Definition primitiveLowerFn (v : value) : option (value -> value -> bool) :=
  let t := Indirect v in
  match ValueOf_Kind t with
  | reflect.Bool => Some doLowerBool
  | reflect.Uint | reflect.Uint8 | reflect.Uint16 | reflect.Uint32
  | reflect.Uint64 | reflect.Int | reflect.Int8 | reflect.Int16
  | reflect.Int32 | reflect.Int64 => Some doLowerInt64
  | reflect.Float32 | reflect.Float64 => Some doLowerFloat64
  | reflect.String => Some doLowerString
  | _ => None
  end.

(** Get rid of 0 to many levels of pointers to get at the real type. *)
Fixpoint derefType (rtype : gotype) : gotype :=
  match rtype with
  | TPtr e => derefType e
  | _ => rtype
  end.

(** *** The match operations *)

(** [Type.ConvertibleTo] the type of byte slices: strings and byte
    slices. *)
Definition convertibleToBytes (t : gotype) : bool :=
  match t with
  | TBasic reflect.String | TNamed _ reflect.String => true
  | TSlice (TBasic reflect.Uint8) => true
  | _ => false
  end.

Definition byteOf (v : value) : ascii :=
  match v with
  | VInt _ n => ascii_of_N (Z.to_N n)
  | _ => Ascii.zero
  end.

(** [Value.Convert] to a byte slice, of a value that is convertible. *)
Definition bytesOf (v : value) : string :=
  match v with
  | VString s | VJsonNumber s => s
  | VSlice _ items => string_of_list_ascii (map byteOf items)
  | _ => ""
  end.

Definition doMatchMatches (leftValue rightValue : value) : exec (result bool) :=
  let v := Indirect leftValue in
  match TypeOf v with
  | None => Panic (ReflectOnZeroValue "Type")
  | Some t =>
      if negb (convertibleToBytes t)
      then Done (false,
                 Some (Errorf "Value of type %s is not convertible to []byte"
                         [AType v] None))
      else
        match rightValue with
        | VString pattern =>
            match regexp_Compile rt pattern with
            | Some msg =>
                Done (false,
                      Some (Errorf "Failed to compile regular expression %q: %v"
                              [AString pattern; AString msg] None))
            | None => Done (regexp_Match rt pattern (bytesOf v), None)
            end
        | _ => Panic (InterfaceConversion rightValue "string")
        end
  end.

Definition noComparison (leftValue rightValue : value) : error :=
  Errorf "unable to find suitable primitive comparison function for matching %T and %T"
    [AType leftValue; AType rightValue] None.

Definition doMatchLower (leftValue rightValue : value) : result bool :=
  match primitiveLowerFn leftValue with
  | None => (false, Some (noComparison leftValue rightValue))
  | Some eqFn => (eqFn leftValue rightValue, None)
  end.

Definition doMatchEqual (leftValue rightValue : value) : result bool :=
  match primitiveEqualityFn leftValue with
  | None => (false, Some (noComparison leftValue rightValue))
  | Some eqFn => (eqFn leftValue rightValue, None)
  end.

Definition noComparisonIn : string :=
  "unable to find suitable primitive comparison function for " ++ dquote
  ++ "in" ++ dquote ++ " comparison".

Definition noComparisonInSlice : string :=
  noComparisonIn ++ " in interface slice: %s".

(** Equality of map keys, for keys that are booleans, numbers or strings:
    the same type and the same contents.  Keys of other types are compared
    by identity or field by field in Go; here they are never found. *)
Definition key_eqb (a b : value) : bool :=
  match a, b with
  | VBool x, VBool y => Bool.eqb x y
  | VInt t x, VInt u y =>
      reflect.Kind_eqb (IntType_kind t) (IntType_kind u) && (x =? y)%Z
  | VFloat t x, VFloat u y =>
      reflect.Kind_eqb (FloatType_kind t) (FloatType_kind u) && PrimFloat.eqb x y
  | VString x, VString y => x =? y
  | VJsonNumber x, VJsonNumber y => x =? y
  | _, _ => false
  end.

(** [Value.MapIndex(key).IsValid()]: the key must be a value and be
    assignable to the key type of the map. *)
Definition MapIndex_IsValid (keyType : gotype) (entries : list (value * value))
    (key : value) : exec bool :=
  match TypeOf key with
  | None => Panic (ReflectOnZeroValue "MapIndex")
  | Some t =>
      if gotype_eqb t keyType || gotype_eqb keyType TInterface
      then Done (existsb (fun e => key_eqb (fst e) key) entries)
      else Panic (ReflectNotAssignable "MapIndex")
  end.

(** The loop over a slice of interfaces: each element is looked at by
    itself, and a nil element has no type to ask for. *)
Fixpoint doMatchIn_interfaces (items : list value) (rightValue : value)
    : exec (result bool) :=
  match items with
  | [] => Done (false, None)
  | item :: rest =>
      match TypeOf item with
      | None => Panic (ReflectOnZeroValue "Type")
      | Some itemType =>
          let kind := Kind_of_type (derefType itemType) in
          match primitiveEqualityFn rightValue with
          | None =>
              Done (false,
                    Some (Errorf noComparisonInSlice [AKind kind] None))
          | Some eqFn =>
              if eqFn item rightValue then Done (true, None)
              else doMatchIn_interfaces rest rightValue
          end
      end
  end.

(** The container is the left value, the value looked for the right one. *)
Definition doMatchIn (leftValue rightValue : value) : exec (result bool) :=
  match leftValue with
  | VMap keyType _ entries =>
      found <- MapIndex_IsValid keyType entries rightValue ;;
      Done (found, None)
  | VSlice elem items | VArray elem items =>
      match Kind_of_type (derefType elem) with
      | reflect.Interface => doMatchIn_interfaces items rightValue
      | _ =>
          match primitiveEqualityFn rightValue with
          | None =>
              Done (false,
                    Some (errors_New noComparisonIn))
          | Some eqFn =>
              Done (existsb (fun item => eqFn item rightValue) items, None)
          end
      end
  | VString s | VJsonNumber s =>
      match rightValue with
      | VString sub => Done (strings_Contains s sub, None)
      | _ => Panic (InterfaceConversion rightValue "string")
      end
  | _ =>
      Done (false,
            Some (Errorf "Cannot perform in/contains operations on type %s"
                    [AKind (ValueOf_Kind leftValue)] None))
  end.

(** [Value.Len]: arrays, channels, maps, slices and strings have a length,
    and so has a pointer to an array where the toolchain says so (the length
    of the array type, be the pointer nil or not); every other kind
    panics. *)
Definition Value_Len (v : value) : exec nat :=
  match v with
  | VString s | VJsonNumber s => Done (String.length s)
  | VSlice _ items | VArray _ items => Done (List.length items)
  | VMap _ _ entries => Done (List.length entries)
  | VChan _ queued => Done (List.length queued)
  | VPtr (TArray n _) _ =>
      if reflect_Len_array_pointer rt then Done n
      else Panic (ReflectWrongKind "Len" reflect.Pointer)
  | _ => Panic (ReflectWrongKind "Len" (ValueOf_Kind v))
  end.

Definition doMatchIsEmpty (leftValue : value) : exec (result bool) :=
  let v := Indirect leftValue in
  n <- Value_Len v ;;
  Done ((n =? 0)%nat, None).

(** [evaluateNotPresent] is called after a [pointerstructure.ErrNotFound]:
    true if the parent of the path is a map. *)
Definition evaluateNotPresent (ptr : Pointer) (datum : value) : bool :=
  if (List.length (Parts ptr) <? 2)%nat then false
  else
    let ptr := {| Parts := removelast (Parts ptr);
                  PointerConfig := PointerConfig ptr |} in
    let '(val, _) := pointerstructure_Get rt ptr datum in
    reflect.Kind_eqb (ValueOf_Kind val) reflect.Map.

(** [getValue]: the value of a leaf.  A literal is coerced from its raw
    text, a selector is resolved against the datum. *)
Definition getValue (expressionValue : MatchValue) (datum : value)
    (opts : options) : result value :=
  match ValType expressionValue with
  | 0%Z => (undefined, None)
  | 1%Z =>
      let '(b, err) := CoerceBool (VString (Raw expressionValue)) in
      (VBool b, err)
  | 2%Z =>
      let '(i, err) := CoerceInt64 (VString (Raw expressionValue)) in
      (VInt int64 i, err)
  | 5%Z =>
      let '(f, err) := CoerceFloat64 (VString (Raw expressionValue)) in
      (VFloat float64 f, err)
  | 7%Z =>
      let ptr :=
        {| Parts := Path (Sel expressionValue);
           PointerConfig :=
             {| TagName := withTagName opts;
                ValueTransformationHook := withHookFn opts |} |} in
      let '(val, err) := pointerstructure_Get rt ptr datum in
      let found :=
        match err with
        | None => inl val
        | Some e =>
            if is_ErrNotFound e then
              match withUnknown opts with
              | Some unknown => inl unknown
              | None =>
                  if evaluateNotPresent ptr datum
                  then inr (undefined, None)
                  else inr (undefined,
                            Some (Errorf "error finding value in datum: %w" []
                                    (Some e)))
              end
            else inr (undefined,
                      Some (Errorf "error finding value in datum: %w" []
                              (Some e)))
        end in
      match found with
      | inr early => early
      | inl val =>
          match val with
          | VJsonNumber jn =>
              match strconv_ParseInt jn 10 with
              | (jni, None) => (VInt int64 jni, None)
              | (_, Some _) =>
                  match strconv_ParseFloat rt jn with
                  | (jnf, None) => (VFloat float64 jnf, None)
                  | (_, Some _) =>
                      (VNil,
                       Some (Errorf "unable to convert json number %s to int or float"
                               [AValue val] None))
                  end
              end
          | _ => (val, None)
          end
      end
  | _ => (VString (Raw expressionValue), None)
  end.

Definition unknownTypes (rvalue : value) : error :=
  Errorf "unknown types %T for math op" [AType rvalue] None.

(** The switch of [getExprValue] on the operator, once both sides have
    their values.  The arm is chosen by the type of the right value; the
    left value is then asserted to be of the type of the arm, and in the arm
    [case int, int64] both are asserted to be [int64]. *)
Definition getExprValue_op (op : MathOperator) (lvalue rvalue : value)
    : exec (result value) :=
  let int64s (f : Z -> Z -> exec Z) :=
    match lvalue with
    | VInt int64 a =>
        match rvalue with
        | VInt int64 b => n <- f a b ;; Done (VInt int64 n, None)
        | _ => Panic (InterfaceConversion rvalue "int64")
        end
    | _ => Panic (InterfaceConversion lvalue "int64")
    end in
  let float64s (f : float -> float -> float) (b : float) :=
    match lvalue with
    | VFloat float64 a => Done (VFloat float64 (f a b), None)
    | _ => Panic (InterfaceConversion lvalue "float64")
    end in
  match op with
  | 0%Z => Done (lvalue, None)
  | 1%Z =>
      match rvalue with
      | VBool b =>
          match lvalue with
          | VBool a => Done (VBool (a && b), None)
          | _ => Panic (InterfaceConversion lvalue "bool")
          end
      | VInt int _ | VInt int64 _ =>
          int64s (fun a b => Done (wrap64 (a + b)))
      | VFloat float64 b => float64s PrimFloat.add b
      | VString b =>
          match lvalue with
          | VString a => Done (VString (a ++ b), None)
          | _ => Panic (InterfaceConversion lvalue "string")
          end
      | _ => Done (VNil, Some (unknownTypes rvalue))
      end
  | 2%Z =>
      match rvalue with
      | VInt int _ | VInt int64 _ =>
          int64s (fun a b => Done (wrap64 (a - b)))
      | VFloat float64 b => float64s PrimFloat.sub b
      | _ => Done (VNil, Some (unknownTypes rvalue))
      end
  | 3%Z =>
      match rvalue with
      | VInt int _ | VInt int64 _ =>
          int64s (fun a b => Done (wrap64 (a * b)))
      | VFloat float64 b => float64s PrimFloat.mul b
      | _ => Done (VNil, Some (unknownTypes rvalue))
      end
  | 4%Z =>
      match rvalue with
      | VInt int _ | VInt int64 _ => int64s int64_div
      | VFloat float64 b => float64s PrimFloat.div b
      | _ => Done (VNil, Some (unknownTypes rvalue))
      end
  | _ => Done (VNil, None)
  end.

(** The switch of [evaluateMatchExpression] on the operator, once both
    sides have their values. *)
Definition evaluateMatchExpression_op (op : MatchOperator)
    (leftValue rightValue : value) : exec (result bool) :=
  let negated (r : exec (result bool)) :=
    '(res, err) <- r ;;
    match err with
    | None => Done (negb res, None)
    | Some _ => Done (false, err)
    end in
  match op with
  | 8%Z => Done (doMatchLower leftValue rightValue)
  | 10%Z =>
      let '(res, err) := doMatchLower leftValue rightValue in
      if match err with None => res | Some _ => false end
      then Done (negb res, None)
      else
        let '(res, err) := doMatchEqual leftValue rightValue in
        match err with
        | None => Done (negb res, None)
        | Some _ => Done (true, err)
        end
  | 9%Z =>
      let '(res, err) := doMatchEqual leftValue rightValue in
      if match err with None => res | Some _ => false end
      then Done (res, None)
      else Done (doMatchLower leftValue rightValue)
  | 11%Z =>
      let '(res, err) := doMatchLower leftValue rightValue in
      match err with
      | None => Done (negb res, None)
      | Some _ => Done (true, None)
      end
  | 0%Z => Done (doMatchEqual leftValue rightValue)
  | 1%Z => negated (Done (doMatchEqual leftValue rightValue))
  | 2%Z => doMatchIn leftValue rightValue
  | 3%Z => negated (doMatchIn leftValue rightValue)
  | 4%Z => doMatchIsEmpty leftValue
  | 5%Z => negated (doMatchIsEmpty leftValue)
  | 6%Z => doMatchMatches leftValue rightValue
  | 7%Z => negated (doMatchMatches leftValue rightValue)
  | _ =>
      Done (false, Some (Errorf "Invalid match operation: %d" [AInt op] None))
  end.

Definition invalidNode : result value :=
  (VBool false, Some (Errorf "Invalid AST node" [] None)).

(** [evaluate], [evaluateMatchExpression] and [getExprValue]. *)
Fixpoint evaluate (ast : Node) (datum : value) (opts : options) {struct ast}
    : exec (result value) :=
  match ast with
  | UnaryExpression op operand =>
      match op with
      | 0%Z =>
          '(res, err) <- evaluate operand datum opts ;;
          match res with
          | VBool b => Done (VBool (negb b), err)
          | _ => Panic (InterfaceConversion res "bool")
          end
      | _ => Done invalidNode
      end
  | BinaryExpression lhs op rhs =>
      match op with
      | 0%Z =>
          '(res, err) <- evaluate lhs datum opts ;;
          match err with
          | Some _ => Done (res, err)
          | None =>
              match res with
              | VBool b =>
                  if negb b then Done (res, err) else evaluate rhs datum opts
              | _ => Panic (InterfaceConversion res "bool")
              end
          end
      | 1%Z =>
          '(res, err) <- evaluate lhs datum opts ;;
          match err with
          | Some _ => Done (res, err)
          | None =>
              match res with
              | VBool b =>
                  if b then Done (res, err) else evaluate rhs datum opts
              | _ => Panic (InterfaceConversion res "bool")
              end
          end
      | _ => Done invalidNode
      end
  | MatchNode node =>
      '(res, err) <- evaluateMatchExpression node datum opts ;;
      Done (VBool res, err)
  | ValueNode node => getExprValue node datum opts
  | MatchValueNode node => Done (getValue node datum opts)
  | Nil => Done invalidNode
  end

with evaluateMatchExpression (expression : MatchExpression) (datum : value)
    (opts : options) {struct expression} : exec (result bool) :=
  match expression with
  | mkMatchExpression op lhs rhs =>
      '(leftValue, err) <- getExprValue lhs datum opts ;;
      match err with
      | Some _ => Done (false, err)
      | None =>
          if isUndefined leftValue
          then Done (NotPresentDisposition op, None)
          else
            '(rightValue, err) <- getExprValue rhs datum opts ;;
            match err with
            | Some _ => Done (false, err)
            | None => evaluateMatchExpression_op op leftValue rightValue
            end
      end
  end

with getExprValue (expression : ExpressionValue) (datum : value)
    (opts : options) {struct expression} : exec (result value) :=
  match expression with
  | nilExpressionValue => Done (VNil, None)
  | mkExpressionValue lhs op rhs =>
      '(lvalue, err) <- evaluate lhs datum opts ;;
      match err with
      | Some _ => Done (lvalue, err)
      | None =>
          '(rvalue, err) <-
             match rhs with
             | Nil => Done (VNil, None)
             | _ => evaluate rhs datum opts
             end ;;
          match err with
          | Some _ => Done (rvalue, err)
          | None => getExprValue_op op lvalue rvalue
          end
      end
  end.

End Evaluator.

End bexpr.

(* ================================================================= *)
(** ** A reference runtime for the worked examples

    The theorems below hold for every [Runtime].  To run the parser and
    the evaluator on concrete inputs this section supplies one: the path
    resolution of [pointerstructure] over maps, slices, arrays and structs,
    and [strconv.Unquote] for quoted text without escapes.  Regular
    expressions and floating point text are outside of it. *)

Module pointerstructure.
Import Go.

(** [Parse]: the text after the leading slash is split at the slashes,
    and [~1] and [~0] are unescaped to a slash and a tilde. *)
Fixpoint unescape (s : string) : string :=
  match s with
  | String "~" (String "1" s') => String "/" (unescape s')
  | String "~" (String "0" s') => String "~" (unescape s')
  | String c s' => String c (unescape s')
  | "" => ""
  end.

Fixpoint splitSlash (s : string) (part : string) : list string :=
  match s with
  | "" => [part]
  | String "/" s' => part :: splitSlash s' ""
  | String c s' => splitSlash s' (part ++ String c "")
  end.

Definition Parse (v : string) : result (list string) :=
  match v with
  | "" => ([], None)
  | String "/" s' => (map unescape (splitSlash s' ""), None)
  | _ =>
      ([], Some (Errorf "parse Go pointer %q: first char must be '/'"
                  [AString v] None))
  end.

(** Every pointer on the way is followed before a part is looked up. *)
Fixpoint followPointers (v : value) : value :=
  match v with
  | VPtr _ (Some w) => followPointers w
  | _ => v
  end.

Fixpoint lookupKey (part : string) (entries : list (value * value))
    : option value :=
  match entries with
  | [] => None
  | (VString k, v) :: rest =>
      if k =? part then Some v else lookupKey part rest
  | _ :: rest => lookupKey part rest
  end.

Fixpoint lookupField (part : string) (fields : list (string * value))
    : option value :=
  match fields with
  | [] => None
  | (name, v) :: rest =>
      if name =? part then Some v else lookupField part rest
  end.

(** One part of the path: a key of a map with string keys, an index of a
    slice or an array, the name of a field of a struct. *)
Definition getPart (part : string) (cur : value) : result value :=
  match followPointers cur with
  | VMap _ _ entries =>
      match lookupKey part entries with
      | Some v => (v, None)
      | None => (VNil, Some (Errorf "%w %#v" [AString part] (Some ErrNotFound)))
      end
  | VSlice _ items | VArray _ items =>
      match strconv_ParseInt part 0 with
      | (idx, None) =>
          if (idx <? 0)%Z || (Z.of_nat (List.length items) <=? idx)%Z
          then (VNil,
                Some (Errorf "index %d is %w (length = %d)"
                        [AInt idx; AInt (Z.of_nat (List.length items))]
                        (Some ErrOutOfRange)))
          else (nth (Z.to_nat idx) items VNil, None)
      | (_, Some e) => (VNil, Some e)
      end
  | VStruct _ fields =>
      match lookupField part fields with
      | Some v => (v, None)
      | None =>
          (VNil,
           Some (Errorf "%w: couldn't find field with name %q" [AString part]
                   (Some ErrNotFound)))
      end
  | other =>
      (VNil,
       Some (Errorf "at part: %w: %s" [AKind (ValueOf_Kind other)]
               (Some ErrInvalidKind)))
  end.

Fixpoint getParts (hook : option (value -> value)) (parts : list string)
    (cur : value) : result value :=
  match parts with
  | [] => (cur, None)
  | part :: rest =>
      match getPart part cur with
      | (v, None) =>
          getParts hook rest (match hook with Some f => f v | None => v end)
      | (_, Some e) => (VNil, Some (Errorf "%s at part %d: %w" [] (Some e)))
      end
  end.

Definition Get (ptr : Pointer) (v : value) : result value :=
  getParts (ValueTransformationHook (PointerConfig ptr)) (Parts ptr) v.

End pointerstructure.

Module Example.
Import Go.

(** [strconv.Unquote] of a text between back quotes, or between double
    quotes with neither a backslash nor a line feed in it; any other text
    is reported as a syntax error. *)
Definition plain (q : ascii) (c : ascii) : bool :=
  negb (Ascii.eqb c q) && negb (Ascii.eqb c (ascii_of_nat 92))
  && negb (Ascii.eqb c (ascii_of_nat 10)).

Definition Unquote (s : string) : result string :=
  let n := String.length s in
  let body := substring 1 (n - 2) s in
  let bq := String grammar.backQuote "" in
  if (2 <=? n)%nat && String.prefix bq s && (substring (n - 1) 1 s =? bq)
     && forallb (fun c => negb (Ascii.eqb c grammar.backQuote)
                          && negb (Ascii.eqb c (ascii_of_nat 13)))
          (list_ascii_of_string body)
  then (body, None)
  else if (2 <=? n)%nat && String.prefix dquote s
          && (substring (n - 1) 1 s =? dquote)
          && forallb (plain grammar.doubleQuote) (list_ascii_of_string body)
          && is_ascii body
  then (body, None)
  else ("", Some ErrSyntax).

Definition runtime : Runtime := {|
  strconv_ParseFloat := fun s => (0%float, Some (NumError "ParseFloat" s ErrSyntax));
  strconv_Unquote := Unquote;
  strconv_Quote_utf8 := fun s => s;
  strconv_QuoteRune_utf8 := fun _ => "";
  fmt_value := fun _ _ => "";
  regexp_Compile := fun _ => Some "regular expressions are not part of the example runtime";
  regexp_Match := fun _ _ => false;
  reflect_Len_array_pointer := true;
  pointerstructure_Parse := pointerstructure.Parse;
  pointerstructure_Get := pointerstructure.Get
|}.

(** No option is set. *)
Definition noOptions : bexpr.options := {|
  bexpr.withTagName := "";
  bexpr.withHookFn := None;
  bexpr.withUnknown := None
|}.

(** A [map[string]interface{}] from its entries. *)
Definition object (entries : list (string * value)) : value :=
  VMap (TBasic reflect.String) TInterface
    (map (fun e => (VString (fst e), snd e)) entries).

(** A [[]interface{}] of strings. *)
Definition strings (items : list string) : value :=
  VSlice TInterface (map VString items).

(** Parse, then evaluate. *)
Definition eval (input : string) (datum : value)
    : option (exec (result value)) :=
  match grammar.peg.Parse runtime input with
  | grammar.Matched ast _ => Some (bexpr.evaluate runtime ast datum noOptions)
  | _ => None
  end.

End Example.

(* ================================================================= *)
(** ** What the specification says, and the data of the examples

    The definitions of this module are those the properties below are
    stated with: the tables of the specification, written from its words,
    the shapes of trees and texts that the statements speak of, and the
    concrete inputs of the worked examples. *)

Module Spec.
Import Go grammar bexpr Example.

(** *** The evaluator *)

(** The absence values of the operators, as the table of the data model
    lists them. *)
Definition absenceTable : list (MatchOperator * bool) :=
  [ (MatchEqual, false); (MatchNotEqual, true);
    (MatchIn, false); (MatchNotIn, true);
    (MatchIsEmpty, true); (MatchIsNotEmpty, false);
    (MatchMatches, false); (MatchNotMatches, true);
    (MatchLower, true); (MatchLowerOrEqual, true);
    (MatchHigher, false); (MatchHigherOrEqual, false) ].

(** A selector as the parser builds it. *)
Definition selectorValue (sel : Selector) (raw : string) (conv : option value)
    : MatchValue :=
  {| Sel := sel; ValType := ValueTypeReflect; Raw := raw; Converted := conv |}.

(** An operand whose evaluation panics: a string minus a number. *)
Definition panicking : ExpressionValue :=
  mkExpressionValue
    (MatchValueNode (peg.literal ValueTypeString "a"))
    MathOpMinus
    (MatchValueNode (peg.literal ValueTypeInt "1")).

(** Kinds of values that have a length. *)
Definition hasLength (k : reflect.Kind) : bool :=
  match k with
  | reflect.String | reflect.Slice | reflect.Array | reflect.Map
  | reflect.Chan => true
  | _ => false
  end.

Definition isArrayPointer (v : value) : bool :=
  match v with
  | VPtr (TArray _ _) _ => true
  | _ => false
  end.

(** Values that [Value.Len] accepts: those of a kind with a length, and
    the pointers to arrays where the toolchain gives them one. *)
Definition hasLen (rt : Runtime) (v : value) : bool :=
  hasLength (ValueOf_Kind v)
  || (isArrayPointer v && reflect_Len_array_pointer rt).

(** The length of a string, a slice, an array, a map or a channel, and of
    the array type of a pointer to an array. *)
Definition lengthOf (v : value) : nat :=
  match v with
  | VString s | VJsonNumber s => String.length s
  | VSlice _ items | VArray _ items | VChan _ items => List.length items
  | VMap _ _ entries => List.length entries
  | VPtr (TArray n _) _ => n
  | _ => 0
  end.

(** The arithmetic of the specification: [+] is the conjunction of two
    bools, the sum of two [int64] or of two [float64], the concatenation of
    two strings; [-], [*] and [/] are the operations on two [int64] or two
    [float64].  An integer division by zero has no entry. *)
Definition onNumbers (fi : Z -> Z -> option Z) (ff : float -> float -> float)
    (lv rv : value) : option value :=
  match lv, rv with
  | VInt int64 a, VInt int64 b => option_map (VInt int64) (fi a b)
  | VFloat float64 a, VFloat float64 b => Some (VFloat float64 (ff a b))
  | _, _ => None
  end.

Definition arithmetic (op : MathOperator) (lv rv : value) : option value :=
  if (op =? MathOpPlus)%Z then
    match lv, rv with
    | VBool a, VBool b => Some (VBool (a && b))
    | VString a, VString b => Some (VString (a ++ b))
    | _, _ => onNumbers (fun a b => Some (wrap64 (a + b))) PrimFloat.add lv rv
    end
  else if (op =? MathOpMinus)%Z then
    onNumbers (fun a b => Some (wrap64 (a - b))) PrimFloat.sub lv rv
  else if (op =? MathOpMul)%Z then
    onNumbers (fun a b => Some (wrap64 (a * b))) PrimFloat.mul lv rv
  else if (op =? MathOpDiv)%Z then
    onNumbers (fun a b => if (b =? 0)%Z then None
                          else Some (wrap64 (Z.quot a b)))
      PrimFloat.div lv rv
  else None.

(** The types of right values that an operator has an arm for. *)
Definition hasArm (op : MathOperator) (rv : value) : bool :=
  match rv with
  | VInt int _ | VInt int64 _ | VFloat float64 _ => true
  | VBool _ | VString _ => (op =? MathOpPlus)%Z
  | _ => false
  end.

Definition isGoInt (rv : value) : bool :=
  match rv with
  | VInt int _ => true
  | _ => false
  end.

Definition sameType (a b : value) : bool :=
  match TypeOf a, TypeOf b with
  | Some t, Some u => gotype_eqb t u
  | _, _ => false
  end.

(** *** The parser *)

Definition isNot (e : Node) : bool :=
  match e with
  | UnaryExpression 0%Z _ => true
  | _ => false
  end.

(** Trees without a Not node right below a Not node. *)
Fixpoint noDoubleNot (e : Node) : bool :=
  match e with
  | UnaryExpression op operand =>
      negb ((op =? UnaryOpNot)%Z && isNot operand) && noDoubleNot operand
  | BinaryExpression lhs _ rhs => noDoubleNot lhs && noDoubleNot rhs
  | MatchNode m => noDoubleNot_match m
  | ValueNode v => noDoubleNot_value v
  | MatchValueNode _ | Nil => true
  end
with noDoubleNot_match (m : MatchExpression) : bool :=
  match m with
  | mkMatchExpression _ lhs rhs => noDoubleNot_value lhs && noDoubleNot_value rhs
  end
with noDoubleNot_value (v : ExpressionValue) : bool :=
  match v with
  | nilExpressionValue => true
  | mkExpressionValue lhs _ rhs => noDoubleNot lhs && noDoubleNot rhs
  end.

Definition clean (e : Node) : Prop := noDoubleNot e = true.

(** A non-empty run of white space. *)
Definition blank (w : string) : Prop :=
  w <> "" /\ forallb isSpace (list_ascii_of_string w) = true.

(** A text that does not start with white space. *)
Definition solid (s : string) : Prop :=
  match s with
  | String c _ => isSpace c = false
  | "" => True
  end.

(** The text [not not s], with white space after each [not]. *)
Definition notNot (w1 w2 s : string) : string :=
  "not" ++ w1 ++ "not" ++ w2 ++ s.

(** Every value that a rule matches with satisfies [P]. *)
Definition yields {A : Type} (P : A -> Prop) (p : parser A) : Prop :=
  forall s a rest, p s = Matched a rest -> P a.

(** [q] is [p] with more fuel: where [p] has an outcome, [q] has the
    same. *)
Definition refines {A : Type} (p q : parser A) : Prop :=
  forall s, p s = OutOfFuel \/ p s = q s.

(** A rule that never runs out of fuel, one that leaves no more input
    than it was given, and one that reads a character at least. *)
Definition total {A : Type} (p : parser A) : Prop :=
  forall s, p s <> OutOfFuel.

Definition shrinks {A : Type} (p : parser A) : Prop :=
  forall s a rest, p s = Matched a rest -> String.length rest <= String.length s.

Definition consumes {A : Type} (p : parser A) : Prop :=
  forall s a rest, p s = Matched a rest -> String.length rest < String.length s.

(** *** Inputs of the worked examples *)

Definition fooBar : Selector :=
  {| Type_ := SelectorTypeBexpr; Path := ["foo"; "bar"] |}.

(** The datum [{ foo: {} }]. *)
Definition emptyFoo : value := object [("foo", object [])].

Definition two : Node := MatchValueNode (peg.literal ValueTypeInt "2").
Definition three : Node := MatchValueNode (peg.literal ValueTypeInt "3").

(** The datum [{ ver: ["5"] }]: the field is a list, for which there is
    no primitive comparison. *)
Definition versions : value := object [("ver", strings ["5"])].

(** The tree of [foo.bar == "baz"]. *)
Definition fooBarIsBaz : MatchExpression :=
  mkMatchExpression MatchEqual
    (peg.single (selectorValue fooBar "" None))
    (peg.single (peg.literal ValueTypeString "baz")).

(** The text that the test of the dump expects. *)
Definition expectedDump : string :=
  "Equal {" ++ newline ++ "   Selector: foo.bar" ++ newline
  ++ "   Value: " ++ dquote ++ "baz" ++ dquote ++ newline ++ "}" ++ newline.

(** The text that the dump writes. *)
Definition actualDump : string :=
  "Equal {" ++ newline ++ "   Selector: &{foo.bar 7  <nil>}" ++ newline
  ++ "   Value: %!q(<nil>)" ++ newline ++ "}" ++ newline.

(** The input ["a" in tags]. *)
Definition aInTags : string := dquote ++ "a" ++ dquote ++ " in tags".

Definition tagsSelector : Selector :=
  {| Type_ := SelectorTypeBexpr; Path := ["tags"] |}.

(** The tree of [foo == 3]. *)
Definition fooIsThree : Node :=
  MatchNode
    (mkMatchExpression MatchEqual
       (peg.single
          (selectorValue {| Type_ := SelectorTypeBexpr; Path := ["foo"] |}
             "" None))
       (peg.single (peg.literal ValueTypeInt "3"))).

(** The trees of [(not -1)] as a whole input and as an operand. *)
Definition notMinusOne : Node :=
  UnaryExpression UnaryOpNot
    (ValueNode (peg.single (peg.literal ValueTypeInt "-1"))).

Definition notSelectorMinusOne : Node :=
  ValueNode
    (mkExpressionValue
       (MatchValueNode
          (selectorValue {| Type_ := SelectorTypeBexpr; Path := ["not"] |}
             "" None))
       MathOpMinus
       (MatchValueNode (peg.literal ValueTypeInt "1"))).

End Spec.

(* ================================================================= *)
(** ** Notions for the further properties *)

Module Notions.
Import Go grammar bexpr.

(** The operator that asks the opposite question. *)
Definition complement (op : MatchOperator) : MatchOperator :=
  match op with
  | 0%Z => MatchNotEqual
  | 1%Z => MatchEqual
  | 2%Z => MatchNotIn
  | 3%Z => MatchIn
  | 4%Z => MatchIsNotEmpty
  | 5%Z => MatchIsEmpty
  | 6%Z => MatchNotMatches
  | 7%Z => MatchMatches
  | 8%Z => MatchHigherOrEqual
  | 9%Z => MatchHigher
  | 10%Z => MatchLowerOrEqual
  | 11%Z => MatchLower
  | _ => op
  end.

(** The twelve operators. *)
Definition matchOperators : list MatchOperator :=
  [ MatchEqual; MatchNotEqual; MatchIn; MatchNotIn; MatchIsEmpty;
    MatchIsNotEmpty; MatchMatches; MatchNotMatches; MatchLower;
    MatchLowerOrEqual; MatchHigher; MatchHigherOrEqual ].

(** The numbers of an [int64]. *)
Definition isInt64 (n : Z) : Prop := (- 2 ^ 63 <= n < 2 ^ 63)%Z.

(** A run of white space, empty or not. *)
Definition spaces (w : string) : Prop :=
  forallb isSpace (list_ascii_of_string w) = true.

(** A text that the rule [Identifier] reads as a whole: a letter, then
    letters, digits, underscores and slashes. *)
Definition isIdentifier (s : string) : bool :=
  match s with
  | String c t => isLetter c && forallb isIdentChar (list_ascii_of_string t)
  | "" => false
  end.

(** The parts of a path, each after a dot. *)
Fixpoint dotted (parts : list string) : string :=
  match parts with
  | [] => ""
  | part :: rest => "." ++ part ++ dotted rest
  end.

(** A text that the rule [Integer] reads as a whole: an optional minus
    sign, then a zero, or a digit from 1 to 9 and digits. *)
Definition isNumeralBody (s : string) : bool :=
  match s with
  | String c t =>
      (Ascii.eqb c "0" && (t =? ""))
      || (byte_in "1" "9" (N_of_ascii c)
          && forallb isDigit (list_ascii_of_string t))
  | "" => false
  end.

Definition isNumeral (s : string) : bool :=
  match s with
  | String "-" t => isNumeralBody t
  | _ => isNumeralBody s
  end.

(** The signs of the comparisons, with their operators and what they
    compute on integers. *)
Definition comparisons : list (string * MatchOperator * (Z -> Z -> bool)) :=
  [ ("==", MatchEqual, Z.eqb);
    ("!=", MatchNotEqual, fun a b => negb (a =? b)%Z);
    ("<", MatchLower, Z.ltb);
    ("<=", MatchLowerOrEqual, Z.leb);
    (">", MatchHigher, fun a b => (b <? a)%Z);
    (">=", MatchHigherOrEqual, fun a b => (b <=? a)%Z) ].



(** A text that starts with none of the words of the literals. *)
Definition noLiteralWord (s : string) : bool :=
  negb (String.prefix "true" s) && negb (String.prefix "false" s)
  && negb (String.prefix "undefined" s).

(** The shape of the trees that the grammar builds: the operators are
    those of the syntax, both sides of a match are operands, an operand has
    a leaf on its left, and on its right a leaf under an arithmetic operator
    and nothing otherwise; the tests for emptiness have no right side. *)
Definition isLeaf (n : Node) : bool :=
  match n with
  | MatchValueNode _ => true
  | _ => false
  end.

Definition isNil (n : Node) : bool :=
  match n with
  | Nil => true
  | _ => false
  end.

Definition wellFormedValue (v : ExpressionValue) : bool :=
  match v with
  | nilExpressionValue => false
  | mkExpressionValue lhs op rhs =>
      isLeaf lhs
      && (if (op =? MathOpValue)%Z then isNil rhs
          else isLeaf rhs
               && existsb (Z.eqb op)
                    [MathOpPlus; MathOpMinus; MathOpMul; MathOpDiv])
  end.

Definition wellFormedMatch (m : MatchExpression) : bool :=
  match m with
  | mkMatchExpression op lhs rhs =>
      existsb (Z.eqb op) matchOperators
      && wellFormedValue lhs
      && (if (op =? MatchIsEmpty)%Z || (op =? MatchIsNotEmpty)%Z
          then match rhs with nilExpressionValue => true | _ => false end
          else wellFormedValue rhs)
  end.

Fixpoint wellFormed (e : Node) : bool :=
  match e with
  | UnaryExpression op operand => (op =? UnaryOpNot)%Z && wellFormed operand
  | BinaryExpression lhs op rhs =>
      ((op =? BinaryOpAnd)%Z || (op =? BinaryOpOr)%Z)
      && wellFormed lhs && wellFormed rhs
  | MatchNode m => wellFormedMatch m
  | ValueNode v => wellFormedValue v
  | MatchValueNode _ | Nil => false
  end.

End Notions.

(* ================================================================= *)
(** ** Properties of the evaluator *)

Module Properties.
Import Go grammar bexpr Example Spec.

Lemma prefix_iff (a b : string) :
  String.prefix a b = true <-> exists rest, b = a ++ rest.
Proof.
  revert b. induction a as [|c a IH]; intros b.
  - split; [intros _; exists b; reflexivity | intros _; destruct b; reflexivity].
  - destruct b as [|d b]; simpl.
    + split; [discriminate | intros [rest H]; discriminate].
    + destruct (Ascii.ascii_dec c d) as [->|Hne].
      * rewrite IH. split; intros [rest H]; exists rest.
        -- now rewrite H.
        -- now inversion H.
      * split; [discriminate | intros [rest H]; inversion H; congruence].
Qed.

Lemma strings_Contains_eq (s sub : string) :
  strings_Contains s sub
  = String.prefix sub s
    || match s with
       | "" => false
       | String _ s' => strings_Contains s' sub
       end.
Proof. destruct s; reflexivity. Qed.

Lemma strings_Contains_iff (s sub : string) :
  strings_Contains s sub = true <-> exists pre post, s = pre ++ sub ++ post.
Proof.
  induction s as [|c s IH]; rewrite strings_Contains_eq.
  - rewrite orb_false_r, prefix_iff. split.
    + intros [rest H]. exists "", rest. exact H.
    + intros [pre [post H]]. destruct pre; [|discriminate].
      exists post. exact H.
  - rewrite orb_true_iff, prefix_iff, IH. split.
    + intros [[rest H]|[pre [post H]]].
      * exists "", rest. exact H.
      * exists (String c pre), post. simpl. now rewrite H.
    + intros [pre [post H]]. destruct pre as [|d pre].
      * left. exists post. exact H.
      * right. exists pre, post. simpl in H. now inversion H.
Qed.

Lemma getExprValue_op_spec (op : MathOperator) (lv rv : value) :
  In op [MathOpPlus; MathOpMinus; MathOpMul; MathOpDiv] ->
  (forall res, arithmetic op lv rv = Some res ->
               getExprValue_op op lv rv = Done (res, None))
  /\ (hasArm op rv = false ->
      getExprValue_op op lv rv = Done (VNil, Some (unknownTypes rv)))
  /\ (hasArm op rv = true -> isGoInt rv = false -> sameType lv rv = false ->
      exists p, getExprValue_op op lv rv = Panic p).
Proof.
  intros Hop. simpl in Hop.
  destruct Hop as [<-|[<-|[<-|[<-|[]]]]];
    (split; [|split]);
    [ intros res | | | intros res | | | intros res | | | intros res | | ];
    destruct rv as [| |t ?|t ?| | | | | | | | |]; try destruct t;
    destruct lv as [| |u ?|u ?| | | | | | | | |]; try destruct u;
    cbn; intros; try discriminate; try congruence; eauto.
  unfold int64_div.
  match goal with
  | H : option_map _ (if ?c then _ else _) = Some _ |- _ =>
      destruct c; cbn in *; congruence
  end.
Qed.

Section WithRuntime.
Context (rt : Runtime).

Lemma getExprValue_single (mv : MatchValue) datum opts :
  getExprValue rt (peg.single mv) datum opts = Done (getValue rt mv datum opts).
Proof.
  unfold peg.single. simpl.
  destruct (getValue rt mv datum opts) as [v [e|]]; reflexivity.
Qed.

(** Once the left side has the value [&undefined], the operator alone
    decides, whatever stands on the right. *)
Lemma evaluateMatchExpression_undefined op lhs rhs datum opts lv :
  getExprValue rt lhs datum opts = Done (lv, None) ->
  isUndefined lv = true ->
  evaluateMatchExpression rt (mkMatchExpression op lhs rhs) datum opts
  = Done (NotPresentDisposition op, None).
Proof.
  intros Hl Hu. simpl. rewrite Hl. simpl. rewrite Hu. reflexivity.
Qed.

Lemma absenceTable_spec op absent :
  In (op, absent) absenceTable -> absent = NotPresentDisposition op.
Proof.
  intros Hin. simpl in Hin.
  repeat (destruct Hin as [Hin|Hin]; [inversion Hin; reflexivity|]).
  contradiction.
Qed.

Lemma getValue_not_present sel raw conv datum opts missing notFound parent perr :
  withUnknown opts = None ->
  (2 <= List.length (Path sel))%nat ->
  let config := {| TagName := withTagName opts;
                   ValueTransformationHook := withHookFn opts |} in
  pointerstructure_Get rt {| Parts := Path sel; PointerConfig := config |} datum
  = (missing, Some notFound) ->
  is_ErrNotFound notFound = true ->
  pointerstructure_Get rt
    {| Parts := removelast (Path sel); PointerConfig := config |} datum
  = (parent, perr) ->
  ValueOf_Kind parent = reflect.Map ->
  getValue rt (selectorValue sel raw conv) datum opts = (undefined, None).
Proof.
  intros Hu Hlen config Hget Hnf Hparent Hmap.
  unfold getValue, selectorValue. simpl.
  fold config. rewrite Hget, Hnf, Hu.
  unfold evaluateNotPresent. simpl.
  destruct (Nat.ltb_spec (List.length (Path sel)) 2) as [Hlt|_]; [lia|].
  fold config. rewrite Hparent, Hmap. reflexivity.
Qed.

(** C1. Take one of the twelve operators with the absence value that the
    table gives it.  In every evaluation of a match in which the left side
    resolves to the Undefined sentinel, the match returns that absence value
    and no error, for every right side: the right side takes no part in the
    result, not even one whose evaluation would fail.  The left side does
    resolve to the sentinel when it is a selector that misses its leaf key:
    the resolver reports the key as not found, the path has two parts or more
    and what the path without its last part resolves to is a map (and no
    unknown-value option preempts the rule). *)
Theorem absent_path_gives_absence_value op absent lhs rhs datum opts :
  In (op, absent) absenceTable ->
  (forall lv,
      getExprValue rt lhs datum opts = Done (lv, None) ->
      isUndefined lv = true ->
      evaluateMatchExpression rt (mkMatchExpression op lhs rhs) datum opts
      = Done (absent, None))
  /\ (forall sel raw conv missing notFound parent perr,
        lhs = peg.single (selectorValue sel raw conv) ->
        withUnknown opts = None ->
        (2 <= List.length (Path sel))%nat ->
        let config := {| TagName := withTagName opts;
                         ValueTransformationHook := withHookFn opts |} in
        pointerstructure_Get rt
          {| Parts := Path sel; PointerConfig := config |} datum
        = (missing, Some notFound) ->
        is_ErrNotFound notFound = true ->
        pointerstructure_Get rt
          {| Parts := removelast (Path sel); PointerConfig := config |} datum
        = (parent, perr) ->
        ValueOf_Kind parent = reflect.Map ->
        getExprValue rt lhs datum opts = Done (undefined, None)
        /\ evaluateMatchExpression rt (mkMatchExpression op lhs rhs) datum opts
           = Done (absent, None)).
Proof.
  intros Hin. rewrite (absenceTable_spec op absent Hin).
  assert (General : forall lv,
             getExprValue rt lhs datum opts = Done (lv, None) ->
             isUndefined lv = true ->
             evaluateMatchExpression rt (mkMatchExpression op lhs rhs)
               datum opts
             = Done (NotPresentDisposition op, None)).
  { intros lv Hl Hu. now apply evaluateMatchExpression_undefined with lv. }
  split; [exact General|].
  intros sel raw conv missing notFound parent perr -> Hu Hlen config
    Hget Hnf Hparent Hmap.
  assert (Hl : getExprValue rt (peg.single (selectorValue sel raw conv))
                 datum opts = Done (undefined, None)).
  { rewrite getExprValue_single.
    erewrite getValue_not_present; eauto. }
  split; [exact Hl|]. apply (General undefined Hl). reflexivity.
Qed.

(** C9. A leaf of type Undefined evaluates to [&undefined] with no error,
    whatever its other fields, the datum and the options; so a match whose
    left side is that leaf returns the absence disposition of its operator,
    with no error, for every operator, datum and right side.  The literal
    [undefined] is parsed into such a leaf. *)
Theorem undefined_literal_gives_disposition
    sel raw conv op rhs datum opts :
  let mv := {| Sel := sel; ValType := ValueTypeUndefined; Raw := raw;
               Converted := conv |} in
  getValue rt mv datum opts = (undefined, None)
  /\ isUndefined undefined = true
  /\ evaluateMatchExpression rt (mkMatchExpression op (peg.single mv) rhs)
       datum opts
     = Done (NotPresentDisposition op, None)
  /\ peg.Value rt "undefined"
     = Matched (peg.literal ValueTypeUndefined "undefined") "".
Proof.
  intros mv.
  assert (Hv : getValue rt mv datum opts = (undefined, None)) by reflexivity.
  split; [exact Hv|]. split; [reflexivity|]. split; [|reflexivity].
  apply evaluateMatchExpression_undefined with (lv := undefined);
    [|reflexivity].
  rewrite getExprValue_single, Hv. reflexivity.
Qed.

(** C6. Boolean composition short-circuits.  When the left branch of an
    [and] ends with an error, or with false, the node ends with that same
    value and error, whatever the right branch is; when it ends with true,
    the node ends as the right branch does.  For [or] the roles of true and
    false are exchanged.  The right branch is arbitrary in each case: where
    the left branch decides, a right branch whose evaluation would panic
    changes nothing. *)
Theorem boolean_composition_short_circuits X Y datum opts :
  (forall res err,
      evaluate rt X datum opts = Done (res, Some err) ->
      evaluate rt (BinaryExpression X BinaryOpAnd Y) datum opts
      = Done (res, Some err))
  /\ (evaluate rt X datum opts = Done (VBool false, None) ->
      evaluate rt (BinaryExpression X BinaryOpAnd Y) datum opts
      = Done (VBool false, None))
  /\ (evaluate rt X datum opts = Done (VBool true, None) ->
      evaluate rt (BinaryExpression X BinaryOpAnd Y) datum opts
      = evaluate rt Y datum opts)
  /\ (forall res err,
      evaluate rt X datum opts = Done (res, Some err) ->
      evaluate rt (BinaryExpression X BinaryOpOr Y) datum opts
      = Done (res, Some err))
  /\ (evaluate rt X datum opts = Done (VBool true, None) ->
      evaluate rt (BinaryExpression X BinaryOpOr Y) datum opts
      = Done (VBool true, None))
  /\ (evaluate rt X datum opts = Done (VBool false, None) ->
      evaluate rt (BinaryExpression X BinaryOpOr Y) datum opts
      = evaluate rt Y datum opts).
Proof.
  repeat apply conj; intros; simpl;
    match goal with H : evaluate _ _ _ _ = _ |- _ => rewrite H end;
    reflexivity.
Qed.

(** C7. On strings the primitive less-than is the prefix test: it holds
    exactly when the second string starts with the first.  It is the function
    chosen for a left value that is a string, so [Lower] on two strings
    answers whether the right string has the left one as a prefix; it is not
    the lexicographic order, under which "a" would come before "b". *)
Theorem string_lower_is_prefix (a b : string) :
  (doLowerString rt (VString a) (VString b) = true
   <-> exists rest, b = a ++ rest)
  /\ primitiveLowerFn rt (VString a) = Some (doLowerString rt)
  /\ evaluateMatchExpression_op rt MatchLower (VString a) (VString b)
     = Done (strings_HasPrefix b a, None)
  /\ doLowerString rt (VString "a") (VString "b") = false.
Proof.
  split; [apply prefix_iff|]. repeat split.
Qed.

Lemma doMatchIsEmpty_spec (v : value) :
  doMatchIsEmpty rt v
  = if hasLen rt (Indirect v)
    then Done ((lengthOf (Indirect v) =? 0)%nat, None)
    else Panic (ReflectWrongKind "Len" (ValueOf_Kind (Indirect v))).
Proof.
  unfold doMatchIsEmpty, hasLen, Value_Len.
  destruct (Indirect v) as [| |t ?|t ?| | | | | | |elem ?| |];
    try reflexivity; try (destruct t; reflexivity).
  destruct elem; simpl; try reflexivity;
    destruct (reflect_Len_array_pointer rt); reflexivity.
Qed.

(** C10, as amended.  [IsEmpty] and [IsNotEmpty] look at the left value
    through one pointer indirection.  When what they find there is a string,
    a slice, an array, a map or a channel (or a pointer to an array, where
    the toolchain gives such a pointer a length), they answer whether its
    length is zero (negated for [IsNotEmpty]) with no error; for every other
    left value, the Undefined sentinel apart, which is answered before, the
    evaluation panics in [Value.Len] and returns no error. *)
Theorem emptiness_is_total_on_lengths_only (v r : value) lhs datum opts :
  let w := Indirect v in
  evaluateMatchExpression_op rt MatchIsEmpty v r
  = (if hasLen rt w then Done ((lengthOf w =? 0)%nat, None)
     else Panic (ReflectWrongKind "Len" (ValueOf_Kind w)))
  /\ evaluateMatchExpression_op rt MatchIsNotEmpty v r
     = (if hasLen rt w then Done (negb (lengthOf w =? 0)%nat, None)
        else Panic (ReflectWrongKind "Len" (ValueOf_Kind w)))
  /\ (getExprValue rt lhs datum opts = Done (v, None) ->
      isUndefined v = false ->
      evaluateMatchExpression rt
        (mkMatchExpression MatchIsEmpty lhs nilExpressionValue) datum opts
      = (if hasLen rt w then Done ((lengthOf w =? 0)%nat, None)
         else Panic (ReflectWrongKind "Len" (ValueOf_Kind w)))).
Proof.
  intros w.
  assert (E : evaluateMatchExpression_op rt MatchIsEmpty v r
              = doMatchIsEmpty rt v) by reflexivity.
  assert (N : evaluateMatchExpression_op rt MatchIsNotEmpty v r
              = ('(res, err) <- doMatchIsEmpty rt v ;;
                 match err with
                 | None => Done (negb res, None)
                 | Some _ => Done (false, err)
                 end)) by reflexivity.
  rewrite E, N, doMatchIsEmpty_spec. fold w.
  split; [reflexivity|]. split.
  - destruct (hasLen rt w); reflexivity.
  - intros Hl Hu. simpl. rewrite Hl. simpl. rewrite Hu.
    apply doMatchIsEmpty_spec.
Qed.

(** C5, as amended.  The operator [=] returns what the left side
    evaluates to.  Under [+], [-], [*] and [/] the left side is evaluated,
    then the right one, and the error of either is returned as it is; with
    both values at hand the arm is chosen by the type of the right value.
    Operands of one type get the arithmetic of the table.  A right value
    whose type has no arm for the operator gives the error [unknown types
    ... for math op], whatever the left value.  A right value with an arm
    next to a left value of another type is no error: the type assertion on
    the left value panics. *)
Theorem arithmetic_dispatches_on_right_value l r op datum opts :
  getExprValue rt (mkExpressionValue l MathOpValue Nil) datum opts
  = evaluate rt l datum opts
  /\ (forall lv e,
        evaluate rt l datum opts = Done (lv, Some e) ->
        getExprValue rt (mkExpressionValue l op r) datum opts
        = Done (lv, Some e))
  /\ (forall lv rv e,
        r <> Nil ->
        evaluate rt l datum opts = Done (lv, None) ->
        evaluate rt r datum opts = Done (rv, Some e) ->
        getExprValue rt (mkExpressionValue l op r) datum opts
        = Done (rv, Some e))
  /\ (forall lv rv,
        In op [MathOpPlus; MathOpMinus; MathOpMul; MathOpDiv] ->
        r <> Nil ->
        evaluate rt l datum opts = Done (lv, None) ->
        evaluate rt r datum opts = Done (rv, None) ->
        (forall res, arithmetic op lv rv = Some res ->
                     getExprValue rt (mkExpressionValue l op r) datum opts
                     = Done (res, None))
        /\ (hasArm op rv = false ->
            getExprValue rt (mkExpressionValue l op r) datum opts
            = Done (VNil, Some (unknownTypes rv)))
        /\ (hasArm op rv = true -> isGoInt rv = false ->
            sameType lv rv = false ->
            exists p, getExprValue rt (mkExpressionValue l op r) datum opts
                      = Panic p)).
Proof.
  assert (Hr : forall lv rv err,
             r <> Nil ->
             evaluate rt l datum opts = Done (lv, None) ->
             evaluate rt r datum opts = Done (rv, err) ->
             getExprValue rt (mkExpressionValue l op r) datum opts
             = match err with
               | Some _ => Done (rv, err)
               | None => getExprValue_op op lv rv
               end).
  { intros lv rv err Hn Hl Hv. simpl. rewrite Hl. simpl.
    destruct r; try contradiction; rewrite Hv; reflexivity. }
  split; [|split; [|split]].
  - simpl. destruct (evaluate rt l datum opts) as [[lv [e|]]|p]; reflexivity.
  - intros lv e Hl. simpl. rewrite Hl. reflexivity.
  - intros lv rv e Hn Hl Hv. rewrite (Hr lv rv (Some e)); auto.
  - intros lv rv Hop Hn Hl Hv. rewrite (Hr lv rv None); auto.
    apply getExprValue_op_spec; assumption.
Qed.

(** For a left value that has no primitive comparison function,
    [HigherOrEqual] ends with true and no error, where [Lower] hands the
    error of the comparison on. *)
Lemma HigherOrEqual_without_comparison (l r : value) :
  primitiveLowerFn rt l = None ->
  evaluateMatchExpression_op rt MatchHigherOrEqual l r = Done (true, None)
  /\ evaluateMatchExpression_op rt MatchLower l r
     = Done (false, Some (noComparison l r)).
Proof.
  intros H. unfold evaluateMatchExpression_op, MatchHigherOrEqual, MatchLower,
    doMatchLower. rewrite H. split; reflexivity.
Qed.

End WithRuntime.

(* ----------------------------------------------------------------- *)
(** *** Worked examples *)

Lemma absent_path_witness :
  evaluateMatchExpression runtime
    (mkMatchExpression MatchEqual (peg.single (selectorValue fooBar "" None))
       panicking)
    emptyFoo noOptions
  = Done (false, None).
Proof.
  refine (proj2 (proj2 (absent_path_gives_absence_value runtime MatchEqual
                          false _ panicking emptyFoo noOptions _)
                   fooBar "" None _ _ _ _ eq_refl _ _ _ _ _ _));
    [ simpl; left; reflexivity | reflexivity | simpl; lia | reflexivity
    | reflexivity | reflexivity | reflexivity ].
Defined.

Lemma short_circuit_witness :
  evaluate runtime
    (BinaryExpression
       (MatchNode
          (mkMatchExpression MatchEqual
             (peg.single (selectorValue fooBar "" None)) panicking))
       BinaryOpAnd (ValueNode panicking))
    emptyFoo noOptions
  = Done (VBool false, None).
Proof.
  apply (proj1 (proj2 (boolean_composition_short_circuits runtime _ _ _ _))).
  vm_compute. reflexivity.
Defined.

Lemma arithmetic_witness :
  getExprValue runtime (mkExpressionValue two MathOpPlus three) VNil noOptions
  = Done (VInt int64 5, None).
Proof.
  refine (proj1 (proj2 (proj2 (proj2
            (arithmetic_dispatches_on_right_value runtime two three
               MathOpPlus VNil noOptions))) (VInt int64 2) (VInt int64 3)
            _ _ _ _) _ _).
  - simpl. left. reflexivity.
  - discriminate.
  - vm_compute. reflexivity.
  - vm_compute. reflexivity.
  - vm_compute. reflexivity.
Defined.

(** C5, the claim as it stands: a string minus a number is one of the
    combinations without support, and its evaluation is no error but a
    panic. *)
Lemma string_minus_number_panics :
  peg.Parse runtime (dquote ++ "a" ++ dquote ++ " - 1")
  = Matched (ValueNode panicking) ""
  /\ getExprValue runtime panicking VNil noOptions
     = Panic (InterfaceConversion (VString "a") "int64")
  /\ (forall rv, getExprValue runtime panicking VNil noOptions
                 <> Done (VNil, Some (unknownTypes rv))).
Proof.
  split; [vm_compute; reflexivity|]. split; [vm_compute; reflexivity|].
  intros rv. vm_compute. discriminate.
Qed.

(** C10, the claim as it stands: a pointer is of no kind that has a
    length, and yet a pointer to a string is tested for emptiness without a
    panic. *)
Lemma pointer_to_string_has_a_length :
  hasLength (ValueOf_Kind (VPtr (TBasic reflect.String) (Some (VString ""))))
  = false
  /\ doMatchIsEmpty runtime (VPtr (TBasic reflect.String) (Some (VString "")))
     = Done (true, None)
  /\ evaluateMatchExpression_op runtime MatchIsNotEmpty
       (VPtr (TBasic reflect.String) (Some (VString "go"))) VNil
     = Done (true, None).
Proof. repeat split. Qed.

Lemma emptiness_witness :
  evaluateMatchExpression runtime
    (mkMatchExpression MatchIsEmpty
       (peg.single (selectorValue fooBar "" None)) nilExpressionValue)
    (object [("foo", object [("bar", VInt int 7)])]) noOptions
  = Panic (ReflectWrongKind "Len" reflect.Int).
Proof.
  refine (proj2 (proj2 (emptiness_is_total_on_lengths_only runtime
                          (VInt int 7) VNil _ _ _)) _ _);
    vm_compute; reflexivity.
Defined.

(** C2. On the datum [{ ver: ["5"] }] the input [ver >= 3] evaluates to
    true with no error: the error of the comparison, which [ver < 3] and
    [ver > 3] return, is dropped by [HigherOrEqual]. *)
Theorem HigherOrEqual_drops_comparison_error :
  eval "ver >= 3" versions = Some (Done (VBool true, None))
  /\ eval "ver < 3" versions
     = Some (Done (VBool false,
                   Some (noComparison (strings ["5"]) (VInt int64 3))))
  /\ eval "ver > 3" versions
     = Some (Done (VBool true,
                   Some (noComparison (strings ["5"]) (VInt int64 3)))).
Proof. repeat split; vm_compute; reflexivity. Qed.

(** C4. The tree that the parser builds for [foo.bar == "baz"], dumped
    with an indent of three spaces at level 0: the selector line shows the
    whole leaf of the left side and the value line shows the empty right
    operand of the right side, not the text that is expected. *)
Theorem dump_of_parsed_match (rt : Runtime) :
  peg.Parse runtime ("foo.bar == " ++ dquote ++ "baz" ++ dquote)
  = Matched (MatchNode fooBarIsBaz) ""
  /\ MatchExpression_ExpressionDump rt fooBarIsBaz "   " 0
     = Done (Some actualDump)
  /\ actualDump <> expectedDump.
Proof.
  split; [vm_compute; reflexivity|].
  split; [reflexivity|]. vm_compute. discriminate.
Qed.

(** C3, the claim as it stands: against [{ tags: "banana" }] the answer
    is true, not false. *)
Lemma a_in_banana_is_not_false :
  eval aInTags (object [("tags", VString "banana")])
  = Some (Done (VBool true, None))
  /\ eval aInTags (object [("tags", VString "banana")])
     <> Some (Done (VBool false, None)).
Proof. split; vm_compute; [reflexivity | discriminate]. Qed.

(** C3, as amended.  The input ["a" in tags] is parsed into an [In] node
    with the selector on its left and the literal on its right.  Against a
    list that holds "a" it evaluates to true; against the string "banana"
    it evaluates to true as well, for on a string the test is the containment
    of the literal as a substring of the resolved string. *)
Theorem literal_in_selector :
  peg.Parse runtime aInTags
  = Matched
      (MatchNode
         (mkMatchExpression MatchIn
            (peg.single (selectorValue tagsSelector "" None))
            (peg.single (peg.literal ValueTypeString "a")))) ""
  /\ eval aInTags (object [("tags", strings ["x"; "a"; "y"])])
     = Some (Done (VBool true, None))
  /\ eval aInTags
       (object [("tags", VSlice (TBasic reflect.String)
                           [VString "x"; VString "a"; VString "y"])])
     = Some (Done (VBool true, None))
  /\ eval aInTags (object [("tags", VString "banana")])
     = Some (Done (VBool true, None))
  /\ (forall rt s sub,
        doMatchIn rt (VString s) (VString sub)
        = Done (strings_Contains s sub, None)
        /\ (strings_Contains s sub = true
            <-> exists pre post, s = pre ++ sub ++ post)).
Proof.
  do 4 (split; [vm_compute; reflexivity|]).
  intros rt s sub. split; [reflexivity | apply strings_Contains_iff].
Qed.

End Properties.

(* ================================================================= *)
(** ** Decimal numerals

    The text that [fmt] prints for an integer, read back by
    [strconv.ParseUint] and [strconv.ParseInt]. *)

Module Numerals.
Import Go grammar bexpr.

(** The digits that follow can only make the number grow. *)
Lemma of_uint_acc_le d acc : (acc <= Pos.of_uint_acc d acc)%positive.
Proof.
  revert acc. induction d; intros acc; cbn [Pos.of_uint_acc]; [lia|..];
    (etransitivity; [|apply IHd]; lia).
Qed.

(** A closed test on characters, replaced by its value. *)
Ltac eval_in_goal t :=
  let v := eval vm_compute in t in change t with v.

(** One round of the digit loop on a decimal digit. *)
Ltac digit_step :=
  cbn [NilEmpty.string_of_uint ParseUint_digits];
  repeat match goal with
  | |- context [Ascii.eqb ?c "_"] => eval_in_goal (Ascii.eqb c "_")
  | |- context [byte_in "0" "9" (N_of_ascii ?c)] =>
      eval_in_goal (byte_in "0" "9" (N_of_ascii c))
  | |- context [(N_of_ascii ?c - N_of_ascii "0")%N] =>
      eval_in_goal (N_of_ascii c - N_of_ascii "0")%N
  end;
  cbn [andb];
  repeat match goal with
  | |- context [(10 <=? ?k)%N] => eval_in_goal (10 <=? k)%N
  end;
  cbv iota.

(** The digit loop of [ParseUint] in base 10 on the digits of a decimal
    numeral: it ends with the number of the numeral, as long as that number
    fits 64 bits. *)
Lemma digits_acc base0 d acc u :
  (N.pos (Pos.of_uint_acc d acc) <= maxUint64)%N ->
  ParseUint_digits base0 10 (NilEmpty.string_of_uint d) (N.pos acc) u
  = (N.pos (Pos.of_uint_acc d acc), None, u).
Proof.
  revert acc. induction d; intros acc H; [reflexivity|..].
  all: digit_step.
  all: cbn [Pos.of_uint_acc] in H |- *.
  all: match type of H with (N.pos (Pos.of_uint_acc _ ?a) <= _)%N =>
         pose proof (of_uint_acc_le d a) as L; specialize (IHd a H) end.
  all: unfold maxUint64 in *.
  all: change (2 ^ 64 - 1)%N with 18446744073709551615%N in *.
  all: change (18446744073709551615 / 10 + 1)%N with 1844674407370955162%N.
  all: destruct (N.leb_spec 1844674407370955162 (N.pos acc)); [lia|].
  all: match goal with |- context [(?a <? ?b)%N] => destruct (N.ltb_spec a b); [lia|] end.
  all: match goal with |- ParseUint_digits _ _ _ ?n _ = (N.pos (Pos.of_uint_acc _ ?a), _, _) =>
         replace n with (N.pos a) by lia end.
  all: exact IHd.
Qed.

(** The numeral of a number above zero starts with a digit from 1
    to 9. *)
Lemma to_uint_head p :
  match Pos.to_uint p with
  | Decimal.Nil | Decimal.D0 _ => False
  | _ => True
  end.
Proof.
  pose proof (DecimalPos.Unsigned.to_of (Pos.to_uint p)) as E.
  rewrite DecimalPos.Unsigned.of_to in E. simpl in E.
  pose proof (Unsigned.to_uint_nonnil p) as Hn.
  pose proof (Unsigned.to_uint_nonzero p) as Hz.
  destruct (Pos.to_uint p) as [|d| | | | | | | | |]; auto.
  unfold Decimal.unorm in E. simpl in E.
  pose proof (DecimalFacts.nzhead_nonzero d) as Hd.
  destruct (Decimal.nzhead d) eqn:Ed; congruence.
Qed.

(** Base 0 takes a numeral that does not start with a zero for a decimal
    one. *)
Lemma ParseUint_decimal p base :
  base = 0%N \/ base = 10%N -> (N.pos p <= maxUint64)%N ->
  strconv_ParseUint (NilEmpty.string_of_uint (Pos.to_uint p)) base
  = (N.pos p, None).
Proof.
  intros Hb Hp. pose proof (to_uint_head p) as Hh.
  pose proof (DecimalPos.Unsigned.of_to p) as E.
  destruct (Pos.to_uint p) as [|d|d|d|d|d|d|d|d|d|d]; try contradiction;
    cbn [Pos.of_uint] in E; injection E as E; rewrite <- E in Hp |- *.
  all: cbn [NilEmpty.string_of_uint strconv_ParseUint].
  all: destruct Hb as [-> | ->].
  all: repeat match goal with
       | |- context [Ascii.eqb ?c "0"] => eval_in_goal (Ascii.eqb c "0")
       | |- context [(?a =? ?b)%N] => eval_in_goal (a =? b)%N
       end; cbn [negb]; cbv iota beta.
  all: digit_step.
  all: repeat match goal with
       | |- context [(maxUint64 / 10 + 1 <=? 0)%N] =>
           eval_in_goal (maxUint64 / 10 + 1 <=? 0)%N
       | |- context [(maxUint64 <? 0 * 10 + ?k)%N] =>
           eval_in_goal (maxUint64 <? 0 * 10 + k)%N
       | |- context [(0 * 10 + ?k)%N] => eval_in_goal (0 * 10 + k)%N
       end; cbv iota.
  all: rewrite digits_acc by exact Hp; reflexivity.
Qed.

Lemma ParseUint_0 base :
  base = 0%N \/ base = 10%N -> strconv_ParseUint "0" base = (0%N, None).
Proof. intros [-> | ->]; reflexivity. Qed.

(** Decimal text of a number from 0 on. *)
Lemma ParseUint_FormatInt n base :
  base = 0%N \/ base = 10%N -> (0 <= n < 2 ^ 64)%Z ->
  strconv_ParseUint (FormatInt n) base = (Z.to_N n, None).
Proof.
  intros Hb Hn. unfold FormatInt. destruct n as [|p|p]; [|  |lia].
  - now apply ParseUint_0.
  - cbn [Z.to_int NilZero.string_of_int NilZero.string_of_uint Z.to_N].
    pose proof (to_uint_head p) as Hh.
    assert (E : NilZero.string_of_uint (Pos.to_uint p)
                = NilEmpty.string_of_uint (Pos.to_uint p))
      by (destruct (Pos.to_uint p); [contradiction|reflexivity..]).
    rewrite E. apply ParseUint_decimal; [exact Hb|].
    unfold maxUint64. change (2 ^ 64 - 1)%N with 18446744073709551615%N.
    change (2 ^ 64)%Z with 18446744073709551616%Z in Hn. lia.
Qed.

(** The cases of the first digit of the numeral of [p]. *)
Ltac first_digit p :=
  let Hh := fresh "Hh" in
  pose proof (to_uint_head p) as Hh;
  destruct (Pos.to_uint p); try contradiction; clear Hh;
  cbn [NilZero.string_of_uint NilEmpty.string_of_uint] in *.

(** [ParseInt] on the decimal text of a number above zero that fits 64
    bits without a sign: the number, or the largest [int64] and a range
    error from two to the power 63 on. *)
Lemma ParseInt_pos p base :
  base = 0%N \/ base = 10%N -> (Z.pos p < 2 ^ 64)%Z ->
  strconv_ParseInt (FormatInt (Z.pos p)) base
  = if (2 ^ 63 <=? Z.pos p)%Z
    then ((2 ^ 63 - 1)%Z,
          Some (NumError "ParseInt" (FormatInt (Z.pos p)) ErrRange))
    else (Z.pos p, None).
Proof.
  intros Hb Hn.
  pose proof (ParseUint_FormatInt (Z.pos p) base Hb ltac:(lia)) as E.
  unfold FormatInt in *. cbn [Z.to_int NilZero.string_of_int Z.to_N] in *.
  unfold strconv_ParseInt.
  first_digit p.
  all: repeat match goal with
       | |- context [Ascii.eqb ?a ?b] => eval_in_goal (Ascii.eqb a b)
       end; cbn [orb andb negb]; cbv iota.
  all: rewrite E; cbv iota.
  all: change (2 ^ 63)%N with 9223372036854775808%N.
  all: change (2 ^ 63)%Z with 9223372036854775808%Z.
  all: destruct (N.leb_spec 9223372036854775808 (N.pos p));
       destruct (Z.leb_spec 9223372036854775808 (Z.pos p)); try lia;
       reflexivity.
Qed.

Lemma ParseInt_neg p base :
  base = 0%N \/ base = 10%N -> (Z.pos p < 2 ^ 64)%Z ->
  strconv_ParseInt (FormatInt (Z.neg p)) base
  = if (2 ^ 63 <? Z.pos p)%Z
    then ((- 2 ^ 63)%Z,
          Some (NumError "ParseInt" (FormatInt (Z.neg p)) ErrRange))
    else (Z.neg p, None).
Proof.
  intros Hb Hn.
  pose proof (ParseUint_FormatInt (Z.pos p) base Hb ltac:(lia)) as E.
  unfold FormatInt in *. cbn [Z.to_int NilZero.string_of_int Z.to_N] in *.
  unfold strconv_ParseInt.
  repeat match goal with
  | |- context [Ascii.eqb ?a ?b] => eval_in_goal (Ascii.eqb a b)
  end; cbn [orb andb negb]; cbv iota.
  rewrite E; cbv iota.
  change (2 ^ 63)%N with 9223372036854775808%N.
  change (2 ^ 63)%Z with 9223372036854775808%Z.
  destruct (N.ltb_spec 9223372036854775808 (N.pos p));
    destruct (Z.ltb_spec 9223372036854775808 (Z.pos p)); try lia;
    reflexivity.
Qed.

(** Within the [int64], [ParseInt] reads back what [FormatInt] writes. *)
Lemma ParseInt_FormatInt n base :
  base = 0%N \/ base = 10%N -> (- 2 ^ 63 <= n < 2 ^ 63)%Z ->
  strconv_ParseInt (FormatInt n) base = (n, None).
Proof.
  intros Hb Hn.
  change (2 ^ 63)%Z with 9223372036854775808%Z in Hn.
  destruct n as [|p|p].
  - destruct Hb as [-> | ->]; reflexivity.
  - rewrite ParseInt_pos by (auto; change (2 ^ 64)%Z with 18446744073709551616%Z; lia).
    change (2 ^ 63)%Z with 9223372036854775808%Z.
    destruct (Z.leb_spec 9223372036854775808 (Z.pos p)); [lia|reflexivity].
  - rewrite ParseInt_neg by (auto; change (2 ^ 64)%Z with 18446744073709551616%Z; lia).
    change (2 ^ 63)%Z with 9223372036854775808%Z.
    destruct (Z.ltb_spec 9223372036854775808 (Z.pos p)); [lia|reflexivity].
Qed.

(** The numeral is made of digits, and is the whole of itself. *)
Lemma span_digits d :
  span isDigit (NilEmpty.string_of_uint d) = (NilEmpty.string_of_uint d, "").
Proof.
  induction d; cbn [NilEmpty.string_of_uint span]; [reflexivity|..];
    match goal with |- context [isDigit ?c] =>
      let v := eval vm_compute in (isDigit c) in change (isDigit c) with v end;
    cbv iota; rewrite IHd; reflexivity.
Qed.

Lemma substring_all (t : string) : substring 0 (String.length t) t = t.
Proof. induction t as [|c t IH]; [reflexivity|]. cbn. now rewrite IH. Qed.

End Numerals.


(* ================================================================= *)
(** ** Properties of the parser *)

Module ParserProperties.
Import Go grammar Example Spec.

(** *** Trees without a Not right below a Not *)

Lemma isNot_spec (e : Node) :
  isNot e = true -> exists operand, e = UnaryExpression UnaryOpNot operand.
Proof.
  destruct e as [|op operand| | | |]; try discriminate.
  destruct op; try discriminate. intros _. now exists operand.
Qed.

Lemma negate_not (e : Node) :
  isNot e = false -> peg.negate e = UnaryExpression UnaryOpNot e.
Proof.
  destruct e as [|op operand| | | |]; try reflexivity.
  destruct op; try reflexivity. discriminate.
Qed.

Lemma negate_keeps_noDoubleNot (e : Node) :
  noDoubleNot e = true -> noDoubleNot (peg.negate e) = true.
Proof.
  intros H. destruct (isNot e) eqn:E.
  - destruct (isNot_spec e E) as [operand ->]. simpl in *.
    apply andb_true_iff in H. apply H.
  - rewrite (negate_not e E). simpl. now rewrite E, H.
Qed.

(** The action undoes itself on a tree that holds no Not below a Not. *)
Lemma negate_negate (e : Node) :
  noDoubleNot e = true -> peg.negate (peg.negate e) = e.
Proof.
  intros H. destruct (isNot e) eqn:E.
  - destruct (isNot_spec e E) as [operand ->]. simpl in *.
    apply andb_true_iff in H. destruct H as [H _].
    apply negb_true_iff in H. now apply negate_not.
  - rewrite (negate_not e E). reflexivity.
Qed.

(** *** What the values of a rule satisfy *)

Lemma yields_pret {A} (P : A -> Prop) (a : A) : P a -> yields P (pret a).
Proof. intros H s b rest E. inversion E. now subst. Qed.

Lemma yields_raise {A} (P : A -> Prop) msg : yields P (raise msg).
Proof. intros s a rest E. discriminate. Qed.

Lemma yields_pbind {A B} (P : A -> Prop) (Q : B -> Prop) p (k : A -> parser B) :
  yields P p -> (forall a, P a -> yields Q (k a)) -> yields Q (pbind p k).
Proof.
  intros Hp Hk s b rest E. unfold pbind in E.
  destruct (p s) as [a r| | |] eqn:Ep; try discriminate.
  exact (Hk a (Hp _ _ _ Ep) _ _ _ E).
Qed.

Lemma yields_alt {A} (P : A -> Prop) (p q : parser A) :
  yields P p -> yields P q -> yields P (alt p q).
Proof.
  intros Hp Hq s a rest E. unfold alt in E.
  destruct (p s) as [b r| | |] eqn:Ep; try discriminate.
  - inversion E; subst. exact (Hp _ _ _ Ep).
  - exact (Hq _ _ _ E).
Qed.

Lemma yields_any {A} (p : parser A) : yields (fun _ => True) p.
Proof. intros s a rest _. exact I. Qed.

Lemma yields_fuel {A} (P : A -> Prop) : yields P (fun _ => OutOfFuel).
Proof. intros s a rest E. discriminate. Qed.

Section WithRuntime.
Context (rt : Runtime).

Lemma OrExpression_S n :
  peg.OrExpression rt (S n)
  = alt (pbind (peg.AndExpression rt n) (fun lhs =>
           pbind peg.ws (fun _ => pbind (lit "or") (fun _ => pbind peg.ws (fun _ =>
             pbind (peg.OrExpression rt n) (fun rhs =>
               pret (BinaryExpression lhs BinaryOpOr rhs)))))))
        (peg.AndExpression rt n).
Proof. reflexivity. Qed.

Lemma AndExpression_S n :
  peg.AndExpression rt (S n)
  = alt (pbind (peg.NotExpression rt n) (fun lhs =>
           pbind peg.ws (fun _ => pbind (lit "and") (fun _ => pbind peg.ws (fun _ =>
             pbind (peg.AndExpression rt n) (fun rhs =>
               pret (BinaryExpression lhs BinaryOpAnd rhs)))))))
        (peg.NotExpression rt n).
Proof. reflexivity. Qed.

Lemma NotExpression_S n :
  peg.NotExpression rt (S n)
  = alt (pbind (lit "not") (fun _ => pbind peg.ws (fun _ =>
           pbind (peg.NotExpression rt n) (fun expr => pret (peg.negate expr)))))
        (peg.ParenthesizedExpression rt n).
Proof. reflexivity. Qed.

Lemma ParenthesizedExpression_S n :
  peg.ParenthesizedExpression rt (S n)
  = alt (pbind (lit "(") (fun _ => pbind peg.ows (fun _ =>
           pbind (peg.ExpressionValue rt) (fun expr =>
             pbind peg.ows (fun _ => pbind (lit ")") (fun _ =>
               pret (ValueNode expr)))))))
     (alt (pbind (lit "(") (fun _ => pbind peg.ows (fun _ =>
           pbind (peg.OrExpression rt n) (fun expr =>
             pbind peg.ows (fun _ => pbind (lit ")") (fun _ => pret expr))))))
     (alt (peg.MatchExpression rt)
     (alt (pbind (peg.ExpressionValue rt) (fun expr => pret (ValueNode expr)))
          (pbind (lit "(") (fun _ => pbind peg.ows (fun _ =>
             pbind (peg.OrExpression rt n) (fun _ =>
               pbind peg.ows (fun _ => pbind (notp (lit ")")) (fun _ =>
                 raise "Unmatched parentheses"))))))))).
Proof. reflexivity. Qed.

Ltac yield_step :=
  first
    [ apply yields_raise
    | apply yields_alt
    | apply yields_pret
    | eapply yields_pbind; [|intros ? ?] ].

Lemma ExpressionValue_clean :
  yields (fun v => noDoubleNot_value v = true) (peg.ExpressionValue rt).
Proof.
  unfold peg.ExpressionValue.
  apply yields_alt.
  - eapply yields_pbind; [apply yields_any|intros lhs _].
    eapply yields_pbind; [apply yields_any|intros op _].
    eapply yields_pbind; [apply yields_any|intros rhs _].
    apply yields_pret. reflexivity.
  - eapply yields_pbind; [apply yields_any|intros v _].
    apply yields_pret. reflexivity.
Qed.

Lemma MatchExpression_clean : yields clean (peg.MatchExpression rt).
Proof.
  unfold peg.MatchExpression, peg.MatchSelectorOpValue, peg.MatchSelectorOp,
    peg.MatchValueOpSelector, clean.
  apply yields_alt; [|apply yields_alt; [|apply yields_alt]].
  - eapply yields_pbind; [apply ExpressionValue_clean|intros lhs Hl].
    eapply yields_pbind; [apply yields_any|intros op _].
    eapply yields_pbind; [apply ExpressionValue_clean|intros rhs Hr].
    apply yields_pret. simpl. now rewrite Hl, Hr.
  - eapply yields_pbind; [apply yields_any|intros lhs _].
    eapply yields_pbind; [apply yields_any|intros op _].
    apply yields_pret. reflexivity.
  - eapply yields_pbind; [apply yields_any|intros v _].
    eapply yields_pbind; [apply yields_any|intros op _].
    eapply yields_pbind; [apply yields_any|intros sel _].
    apply yields_pret. reflexivity.
  - eapply yields_pbind; [apply yields_any|intros v _].
    eapply yields_pbind; [apply yields_any|intros op _].
    eapply yields_pbind; [apply yields_any|intros u _].
    apply yields_raise.
Qed.

(** No rule builds a Not right below a Not. *)
Lemma rules_clean n :
  yields clean (peg.OrExpression rt n)
  /\ yields clean (peg.AndExpression rt n)
  /\ yields clean (peg.NotExpression rt n)
  /\ yields clean (peg.ParenthesizedExpression rt n).
Proof.
  induction n as [|n (IHo & IHa & IHn & IHp)].
  - repeat split; apply yields_fuel.
  - rewrite OrExpression_S, AndExpression_S, NotExpression_S,
      ParenthesizedExpression_S.
    repeat split.
    + apply yields_alt; [|exact IHa].
      eapply yields_pbind; [exact IHa|intros lhs Hl].
      do 3 (eapply yields_pbind; [apply yields_any|intros ? _]).
      eapply yields_pbind; [exact IHo|intros rhs Hr].
      apply yields_pret. unfold clean in *. simpl. now rewrite Hl, Hr.
    + apply yields_alt; [|exact IHn].
      eapply yields_pbind; [exact IHn|intros lhs Hl].
      do 3 (eapply yields_pbind; [apply yields_any|intros ? _]).
      eapply yields_pbind; [exact IHa|intros rhs Hr].
      apply yields_pret. unfold clean in *. simpl. now rewrite Hl, Hr.
    + apply yields_alt; [|exact IHp].
      do 2 (eapply yields_pbind; [apply yields_any|intros ? _]).
      eapply yields_pbind; [exact IHn|intros expr He].
      apply yields_pret. now apply negate_keeps_noDoubleNot.
    + apply yields_alt; [|apply yields_alt; [|apply yields_alt;
        [|apply yields_alt]]].
      * do 2 (eapply yields_pbind; [apply yields_any|intros ? _]).
        eapply yields_pbind; [apply ExpressionValue_clean|intros v Hv].
        do 2 (eapply yields_pbind; [apply yields_any|intros ? _]).
        apply yields_pret. exact Hv.
      * do 2 (eapply yields_pbind; [apply yields_any|intros ? _]).
        eapply yields_pbind; [exact IHo|intros e He].
        do 2 (eapply yields_pbind; [apply yields_any|intros ? _]).
        apply yields_pret. exact He.
      * apply MatchExpression_clean.
      * eapply yields_pbind; [apply ExpressionValue_clean|intros v Hv].
        apply yields_pret. exact Hv.
      * do 5 (eapply yields_pbind; [apply yields_any|intros ? _]).
        apply yields_raise.
Qed.

Lemma Input_clean n : yields clean (peg.Input rt n).
Proof.
  destruct (rules_clean n) as (Ho & _).
  unfold peg.Input, peg.Input_parenthesized, peg.Input_plain.
  apply yields_alt.
  - do 3 (eapply yields_pbind; [apply yields_any|intros ? _]).
    eapply yields_pbind; [exact Ho|intros e He].
    do 4 (eapply yields_pbind; [apply yields_any|intros ? _]).
    apply yields_pret. exact He.
  - eapply yields_pbind; [apply yields_any|intros ? _].
    eapply yields_pbind; [exact Ho|intros e He].
    do 2 (eapply yields_pbind; [apply yields_any|intros ? _]).
    apply yields_pret. exact He.
Qed.

(** No tree that [Parse] returns holds a Not right below a Not. *)
Lemma Parse_clean (input : string) e rest :
  peg.Parse rt input = Matched e rest -> noDoubleNot e = true.
Proof. apply Input_clean. Qed.


(** *** More fuel changes no outcome *)

Lemma refines_refl {A} (p : parser A) : refines p p.
Proof. intros s. now right. Qed.

Lemma refines_trans {A} (p q r : parser A) :
  refines p q -> refines q r -> refines p r.
Proof.
  intros Hpq Hqr s. destruct (Hpq s) as [E|E]; [now left|].
  rewrite E. apply Hqr.
Qed.

Lemma refines_pbind {A B} (p p' : parser A) (k k' : A -> parser B) :
  refines p p' -> (forall a, refines (k a) (k' a)) ->
  refines (pbind p k) (pbind p' k').
Proof.
  intros Hp Hk s. unfold pbind. destruct (Hp s) as [E|E]; rewrite E.
  - now left.
  - destruct (p' s); [apply Hk | now right ..].
Qed.

Lemma refines_alt {A} (p p' q q' : parser A) :
  refines p p' -> refines q q' -> refines (alt p q) (alt p' q').
Proof.
  intros Hp Hq s. unfold alt. destruct (Hp s) as [E|E]; rewrite E.
  - now left.
  - destruct (p' s); [now right | apply Hq | now right ..].
Qed.

Lemma refines_fuel {A} (p : parser A) : refines (fun _ => OutOfFuel) p.
Proof. intros s. now left. Qed.

Ltac refine_step :=
  first
    [ assumption
    | apply refines_refl
    | apply refines_alt
    | apply refines_pbind; [|intros ?] ].

Lemma rules_step n :
  refines (peg.OrExpression rt n) (peg.OrExpression rt (S n))
  /\ refines (peg.AndExpression rt n) (peg.AndExpression rt (S n))
  /\ refines (peg.NotExpression rt n) (peg.NotExpression rt (S n))
  /\ refines (peg.ParenthesizedExpression rt n)
       (peg.ParenthesizedExpression rt (S n)).
Proof.
  induction n as [|n (IHo & IHa & IHn & IHp)].
  - repeat split; apply refines_fuel.
  - rewrite (OrExpression_S (S n)), (AndExpression_S (S n)),
      (NotExpression_S (S n)), (ParenthesizedExpression_S (S n)).
    rewrite (OrExpression_S n), (AndExpression_S n), (NotExpression_S n),
      (ParenthesizedExpression_S n).
    repeat split; repeat refine_step.
Qed.

Lemma rules_mono n m :
  n <= m ->
  refines (peg.OrExpression rt n) (peg.OrExpression rt m)
  /\ refines (peg.AndExpression rt n) (peg.AndExpression rt m)
  /\ refines (peg.NotExpression rt n) (peg.NotExpression rt m)
  /\ refines (peg.ParenthesizedExpression rt n)
       (peg.ParenthesizedExpression rt m).
Proof.
  induction 1 as [|m _ (IHo & IHa & IHn & IHp)].
  - repeat split; apply refines_refl.
  - destruct (rules_step m) as (So & Sa & Sn & Sp).
    repeat split; eapply refines_trans; eassumption.
Qed.

Lemma more_fuel {A} (p q : parser A) s a rest :
  refines p q -> p s = Matched a rest -> q s = Matched a rest.
Proof. intros H E. destruct (H s) as [O|<-]; congruence. Qed.


(** *** White space *)

Lemma span_spaces (w s : string) :
  forallb isSpace (list_ascii_of_string w) = true -> solid s ->
  span isSpace (w ++ s) = (w, s).
Proof.
  intros Hw Hs. induction w as [|c w IH]; simpl in *.
  - destruct s as [|d s]; [reflexivity|]. simpl in *. now rewrite Hs.
  - apply andb_true_iff in Hw. destruct Hw as [Hc Hw].
    now rewrite Hc, (IH Hw).
Qed.

Lemma span_split (f : ascii -> bool) (s a b : string) :
  span f s = (a, b) ->
  s = a ++ b /\ forallb f (list_ascii_of_string a) = true
  /\ match b with String c _ => f c = false | "" => True end.
Proof.
  revert a b. induction s as [|c s IH]; simpl; intros a b E.
  - inversion E. now subst.
  - destruct (f c) eqn:Ec.
    + destruct (span f s) as [a' b'] eqn:Es. inversion E; subst.
      destruct (IH a' b eq_refl) as (-> & Ha & Hb).
      repeat split; simpl; auto. now rewrite Ec, Ha.
    + inversion E; subst. repeat split; auto.
Qed.

Lemma ws_blank (w s : string) :
  blank w -> solid s -> peg.ws (w ++ s) = Matched tt s.
Proof.
  intros [Hne Hw] Hs. destruct w as [|c w]; [contradiction|].
  simpl in Hw. apply andb_true_iff in Hw. destruct Hw as [Hc Hw].
  unfold peg.ws, classPlus, pbind, class, classStar, pret. simpl.
  now rewrite Hc, (span_spaces w s Hw Hs).
Qed.

Lemma ows_solid (s : string) : solid s -> peg.ows s = Matched tt s.
Proof.
  intros Hs. unfold peg.ows, classStar, pbind, pret.
  pose proof (span_spaces "" s eq_refl Hs) as E. simpl in E. now rewrite E.
Qed.

Lemma lit_app (t s : string) : lit t (t ++ s) = Matched tt s.
Proof.
  unfold lit. induction t as [|c t IH]; simpl; [reflexivity|].
  rewrite Ascii.eqb_refl. exact IH.
Qed.

Lemma isSpace_cases (c : ascii) :
  isSpace c = true ->
  c = " "%char \/ c = ascii_of_nat 9 \/ c = ascii_of_nat 13
  \/ c = ascii_of_nat 10.
Proof.
  destruct c as [[] [] [] [] [] [] [] []]; intros H;
    try discriminate H; auto.
Qed.

(** No rule matches a text that starts with white space. *)
Lemma Parenthesized_solid n (c : ascii) (s : string) :
  isSpace c = true ->
  peg.ParenthesizedExpression rt n (String c s) = NoMatch
  \/ peg.ParenthesizedExpression rt n (String c s) = OutOfFuel.
Proof.
  intros H. destruct n as [|n]; [now right|]. left.
  destruct (isSpace_cases c H) as [->|[->|[->| ->]]]; reflexivity.
Qed.

Lemma NotExpression_solid n s e rest :
  peg.NotExpression rt n s = Matched e rest -> solid s.
Proof.
  destruct s as [|c s]; [reflexivity|]. simpl.
  destruct (isSpace c) eqn:Hc; [|reflexivity]. intros E. exfalso.
  destruct n as [|n]; [discriminate|].
  rewrite NotExpression_S in E. unfold alt, pbind in E.
  replace (lit "not" (String c s)) with (@NoMatch unit) in E.
  - destruct (Parenthesized_solid n c s Hc) as [R|R]; rewrite R in E;
      discriminate.
  - destruct (isSpace_cases c Hc) as [->|[->|[->| ->]]]; reflexivity.
Qed.


(** *** Two Nots in front of a text *)

Lemma solid_not (t : string) : solid ("not" ++ t).
Proof. reflexivity. Qed.

Lemma NotExpression_notNot n w1 w2 s e rest :
  blank w1 -> blank w2 ->
  peg.NotExpression rt n s = Matched e rest ->
  peg.NotExpression rt (S (S n)) (notNot w1 w2 s) = Matched e rest.
Proof.
  intros H1 H2 E. unfold notNot.
  assert (Hs : solid s) by exact (NotExpression_solid _ _ _ _ E).
  assert (Hc : noDoubleNot e = true).
  { destruct (rules_clean n) as (_ & _ & Hn & _). exact (Hn _ _ _ E). }
  assert (Inner : peg.NotExpression rt (S n) ("not" ++ w2 ++ s)
                  = Matched (peg.negate e) rest).
  { rewrite NotExpression_S. unfold alt, pbind.
    rewrite lit_app, (ws_blank w2 s H2 Hs), E. reflexivity. }
  rewrite NotExpression_S. unfold alt, pbind.
  rewrite lit_app, (ws_blank w1 _ H1 (solid_not _)), Inner.
  unfold pret. now rewrite negate_negate.
Qed.

Lemma NotExpression_notNot_fuel n m w1 w2 s e rest :
  blank w1 -> blank w2 -> 2 + n <= m ->
  peg.NotExpression rt n s = Matched e rest ->
  peg.NotExpression rt m (notNot w1 w2 s) = Matched e rest.
Proof.
  intros H1 H2 Hm E.
  destruct (rules_mono (S (S n)) m Hm) as (_ & _ & Hn & _).
  eapply more_fuel; [exact Hn|]. now apply NotExpression_notNot.
Qed.

(** A rule of the form [p k / p]: if [p] reads two texts to the same
    outcome and more fuel is all that tells the continuations apart, the
    rule reads the two texts to the same outcome. *)
Lemma chain {A} (p p' : parser A) (k k' : A -> parser A) s s' e rest :
  (forall a ra, p s = Matched a ra -> p' s' = Matched a ra) ->
  (forall a, refines (k a) (k' a)) ->
  alt (pbind p k) p s = Matched e rest ->
  alt (pbind p' k') p' s' = Matched e rest.
Proof.
  intros Hp Hk. unfold alt, pbind.
  destruct (p s) as [a ra| | |] eqn:E; try discriminate.
  rewrite (Hp a ra eq_refl).
  destruct (Hk a ra) as [O|<-]; [rewrite O; discriminate|].
  intros H; exact H.
Qed.

Lemma AndExpression_notNot n m w1 w2 s e rest :
  blank w1 -> blank w2 -> 2 + n <= m ->
  peg.AndExpression rt n s = Matched e rest ->
  peg.AndExpression rt m (notNot w1 w2 s) = Matched e rest.
Proof.
  intros H1 H2 Hm E.
  destruct n as [|n]; [discriminate|].
  destruct m as [|m]; [lia|].
  rewrite AndExpression_S in *.
  destruct (rules_mono n m ltac:(lia)) as (_ & Ha & _ & _).
  revert E. apply chain.
  - intros a ra Ea. apply (NotExpression_notNot_fuel n m); auto. lia.
  - intros a. repeat refine_step.
Qed.

Lemma OrExpression_notNot n m w1 w2 s e rest :
  blank w1 -> blank w2 -> 2 + n <= m ->
  peg.OrExpression rt n s = Matched e rest ->
  peg.OrExpression rt m (notNot w1 w2 s) = Matched e rest.
Proof.
  intros H1 H2 Hm E.
  destruct n as [|n]; [discriminate|].
  destruct m as [|m]; [lia|].
  rewrite OrExpression_S in *.
  destruct (rules_mono n m ltac:(lia)) as (Ho & _ & _ & _).
  revert E. apply chain.
  - intros a ra Ea. apply (AndExpression_notNot n m); auto. lia.
  - intros a. repeat refine_step.
Qed.


Lemma append_assoc (a b c : string) : (a ++ b) ++ c = a ++ b ++ c.
Proof. induction a as [|x a IH]; simpl; [reflexivity | now rewrite IH]. Qed.

Lemma length_append (a b : string) :
  String.length (a ++ b) = String.length a + String.length b.
Proof. induction a as [|x a IH]; simpl; [reflexivity | now rewrite IH]. Qed.

Lemma blank_append (w v : string) :
  blank w -> forallb isSpace (list_ascii_of_string v) = true -> blank (w ++ v).
Proof.
  intros [Hne Hw] Hv. split.
  - destruct w; [contradiction | discriminate].
  - clear Hne. induction w as [|c w IH]; simpl in *; [exact Hv|].
    apply andb_true_iff in Hw. destruct Hw as [Hc Hw].
    now rewrite Hc, (IH Hw).
Qed.

Lemma fuelFor_notNot (w1 w2 X : string) :
  2 + peg.fuelFor X <= peg.fuelFor (notNot w1 w2 X).
Proof.
  unfold peg.fuelFor, notNot. repeat rewrite length_append. simpl. lia.
Qed.

Lemma Input_parenthesized_not n (t : string) :
  peg.Input_parenthesized rt n ("not" ++ t) = NoMatch.
Proof.
  unfold peg.Input_parenthesized, pbind.
  rewrite (ows_solid _ (solid_not t)). reflexivity.
Qed.

(** What [Input] does after the expression does not depend on the fuel. *)
Lemma Input_plain_solid n (s : string) :
  solid s ->
  peg.Input_plain rt n s
  = pbind (peg.OrExpression rt n)
      (fun expr => pbind peg.ows (fun _ => pbind peg.EOF (fun _ => pret expr))) s.
Proof.
  intros Hs. unfold peg.Input_plain. unfold pbind at 1.
  now rewrite (ows_solid s Hs).
Qed.

Lemma Input_plain_split n (X : string) :
  exists w0 X',
    X = w0 ++ X' /\ forallb isSpace (list_ascii_of_string w0) = true
    /\ solid X'
    /\ peg.Input_plain rt n X = peg.Input_plain rt n X'.
Proof.
  destruct (span isSpace X) as [w0 X'] eqn:Es.
  destruct (span_split _ _ _ _ Es) as (E & Hw0 & Hs).
  assert (Hs' : solid X') by (destruct X'; [exact I | exact Hs]).
  exists w0, X'.
  split; [exact E|]. split; [exact Hw0|]. split; [exact Hs'|].
  rewrite (Input_plain_solid n X' Hs').
  unfold peg.Input_plain. unfold pbind at 1.
  unfold peg.ows, classStar. unfold pbind at 1. rewrite Es. reflexivity.
Qed.

(** An input that [Input] reads through its plain alternative keeps its
    tree when two Nots are put in front of it. *)
Lemma Parse_notNot w1 w2 X e rest :
  blank w1 -> blank w2 ->
  peg.Input_parenthesized rt (peg.fuelFor X) X = NoMatch ->
  peg.Parse rt X = Matched e rest ->
  peg.Parse rt (notNot w1 w2 X) = Matched e rest.
Proof.
  intros H1 H2 Hpar. unfold peg.Parse, peg.Input, alt. rewrite Hpar.
  assert (Hf : 2 + peg.fuelFor X <= peg.fuelFor (notNot w1 w2 X))
    by apply fuelFor_notNot.
  revert Hf. generalize (peg.fuelFor (notNot w1 w2 X)) as m.
  generalize (peg.fuelFor X) as n. intros n m Hf.
  destruct (Input_plain_split n X) as (w0 & X' & -> & Hw0 & Hs & ->).
  replace (notNot w1 w2 (w0 ++ X')) with (notNot w1 (w2 ++ w0) X')
    by (unfold notNot; now rewrite (append_assoc w2 w0 X')).
  unfold notNot at 1. rewrite Input_parenthesized_not. fold (notNot w1 (w2 ++ w0) X').
  rewrite (Input_plain_solid n X' Hs).
  rewrite (Input_plain_solid m (notNot w1 (w2 ++ w0) X') (solid_not _)).
  unfold pbind at 1 4.
  destruct (peg.OrExpression rt n X') as [e1 r1| | |] eqn:Eo; try discriminate.
  rewrite (OrExpression_notNot n m w1 (w2 ++ w0) X' e1 r1 H1
             (blank_append _ _ H2 Hw0) Hf Eo).
  intros E; exact E.
Qed.

(** *** Every rule has an outcome

    The rules of the grammar without recursion need no fuel but that of
    the repetitions, which read a character in each round: they are total.
    The four recursive rules have an outcome as soon as their fuel is four
    times the length of the input, and some more: a rule calls a rule either
    further down the chain, or on an input that has become shorter. *)

Lemma total_pret {A} (a : A) : total (pret a).
Proof. intros s. discriminate. Qed.

Lemma total_raise {A} msg : total (@raise A msg).
Proof. intros s. discriminate. Qed.

Lemma total_pbind {A B} (p : parser A) (k : A -> parser B) :
  total p -> (forall a, total (k a)) -> total (pbind p k).
Proof.
  intros Hp Hk s. unfold pbind. specialize (Hp s).
  destruct (p s); first [apply Hk | congruence].
Qed.

Lemma total_alt {A} (p q : parser A) : total p -> total q -> total (alt p q).
Proof.
  intros Hp Hq s. unfold alt. specialize (Hp s).
  destruct (p s); first [apply Hq | congruence].
Qed.

Lemma total_andp {A} (p : parser A) : total p -> total (andp p).
Proof.
  intros Hp s. unfold andp. specialize (Hp s). destruct (p s); congruence.
Qed.

Lemma total_notp {A} (p : parser A) : total p -> total (notp p).
Proof.
  intros Hp s. unfold notp. specialize (Hp s). destruct (p s); congruence.
Qed.

Lemma total_text {A} (p : parser A) : total p -> total (text p).
Proof.
  intros Hp s. unfold text. specialize (Hp s). destruct (p s); congruence.
Qed.

Lemma total_lit t : total (lit t).
Proof. intros s. unfold lit. destruct (dropPrefix t s); discriminate. Qed.

Lemma total_class f : total (class f).
Proof.
  intros s. unfold class. destruct s as [|c s]; [discriminate|].
  destruct (f c); discriminate.
Qed.

Lemma total_classStar f : total (classStar f).
Proof. intros s. unfold classStar. destruct (span f s). discriminate. Qed.

Lemma total_EOF : total peg.EOF.
Proof. intros s. destruct s; discriminate. Qed.

Lemma shrinks_pret {A} (a : A) : shrinks (pret a).
Proof. intros s b rest E. inversion E. lia. Qed.

Lemma shrinks_raise {A} msg : shrinks (@raise A msg).
Proof. intros s b rest E. discriminate. Qed.

Lemma shrinks_fuel {A} : shrinks (fun _ : string => @OutOfFuel A).
Proof. intros s b rest E. discriminate. Qed.

Lemma shrinks_pbind {A B} (p : parser A) (k : A -> parser B) :
  shrinks p -> (forall a, shrinks (k a)) -> shrinks (pbind p k).
Proof.
  intros Hp Hk s b rest. unfold pbind. destruct (p s) as [a r| | |] eqn:E;
    try discriminate.
  intros E'. apply Hp in E. apply Hk in E'. lia.
Qed.

Lemma shrinks_alt {A} (p q : parser A) :
  shrinks p -> shrinks q -> shrinks (alt p q).
Proof.
  intros Hp Hq s b rest. unfold alt. destruct (p s) as [a r| | |] eqn:E;
    try discriminate.
  - intros E'. inversion E'; subst. now apply Hp in E.
  - apply Hq.
Qed.

Lemma shrinks_andp {A} (p : parser A) : shrinks (andp p).
Proof.
  intros s b rest. unfold andp. destruct (p s); try discriminate.
  intros E. inversion E. lia.
Qed.

Lemma shrinks_notp {A} (p : parser A) : shrinks (notp p).
Proof.
  intros s b rest. unfold notp. destruct (p s); try discriminate.
  intros E. inversion E. lia.
Qed.

Lemma shrinks_text {A} (p : parser A) : shrinks p -> shrinks (text p).
Proof.
  intros Hp s b rest. unfold text. destruct (p s) as [a r| | |] eqn:E;
    try discriminate.
  intros E'. inversion E'; subst. now apply Hp in E.
Qed.

Lemma dropPrefix_length t s rest :
  dropPrefix t s = Some rest ->
  String.length rest + String.length t = String.length s.
Proof.
  revert s. induction t as [|c t IH]; intros s; simpl.
  - intros E. inversion E. lia.
  - destruct s as [|d s]; [discriminate|].
    destruct (Ascii.eqb c d); [|discriminate].
    intros E. apply IH in E. simpl. lia.
Qed.

Lemma shrinks_lit t : shrinks (lit t).
Proof.
  intros s b rest. unfold lit. destruct (dropPrefix t s) eqn:E;
    [|discriminate].
  intros E'. inversion E'; subst. apply dropPrefix_length in E. lia.
Qed.

Lemma consumes_lit c t : consumes (lit (String c t)).
Proof.
  intros s b rest. unfold lit. destruct (dropPrefix (String c t) s) eqn:E;
    [|discriminate].
  intros E'. inversion E'; subst. apply dropPrefix_length in E.
  simpl in E. lia.
Qed.

Lemma consumes_class f : consumes (class f).
Proof.
  intros s b rest. unfold class. destruct s as [|c s]; [discriminate|].
  destruct (f c); [|discriminate].
  intros E. inversion E. simpl. lia.
Qed.

Lemma span_length f s a b :
  span f s = (a, b) -> String.length b <= String.length s.
Proof.
  intros E. apply span_split in E. destruct E as [-> _].
  rewrite length_append. lia.
Qed.

Lemma shrinks_classStar f : shrinks (classStar f).
Proof.
  intros s b rest. unfold classStar. destruct (span f s) as [a r] eqn:E.
  intros E'. inversion E'; subst. now apply span_length in E.
Qed.

Lemma shrinks_EOF : shrinks peg.EOF.
Proof.
  intros s b rest. destruct s; [|discriminate].
  intros E. inversion E. lia.
Qed.

Lemma consumes_shrinks {A} (p : parser A) : consumes p -> shrinks p.
Proof. intros H s a rest E. apply H in E. lia. Qed.

Lemma consumes_pbind {A B} (p : parser A) (k : A -> parser B) :
  consumes p -> (forall a, shrinks (k a)) -> consumes (pbind p k).
Proof.
  intros Hp Hk s b rest. unfold pbind. destruct (p s) as [a r| | |] eqn:E;
    try discriminate.
  intros E'. apply Hp in E. apply Hk in E'. lia.
Qed.

Lemma consumes_alt {A} (p q : parser A) :
  consumes p -> consumes q -> consumes (alt p q).
Proof.
  intros Hp Hq s b rest. unfold alt. destruct (p s) as [a r| | |] eqn:E;
    try discriminate.
  - intros E'. inversion E'; subst. now apply Hp in E.
  - apply Hq.
Qed.

Lemma consumes_text {A} (p : parser A) : consumes p -> consumes (text p).
Proof.
  intros Hp s b rest. unfold text. destruct (p s) as [a r| | |] eqn:E;
    try discriminate.
  intros E'. inversion E'; subst. now apply Hp in E.
Qed.

Lemma shrinks_star {A} (p : parser A) n : shrinks p -> shrinks (star n p).
Proof.
  intros Hp. induction n as [|n IH]; intros s l rest; simpl;
    [discriminate|].
  destruct (p s) as [a r| | |] eqn:E; try discriminate.
  - destruct (star n p r) as [l' r'| | |] eqn:E'; try discriminate.
    intros E''. inversion E''; subst. apply Hp in E. apply IH in E'. lia.
  - intros E'. inversion E'. lia.
Qed.

Lemma shrinks_many {A} (p : parser A) : shrinks p -> shrinks (many p).
Proof. intros Hp s. unfold many. now apply shrinks_star. Qed.

Lemma star_runs {A} (p : parser A) n s :
  total p -> consumes p -> String.length s < n -> star n p s <> OutOfFuel.
Proof.
  intros Ht Hc. revert s. induction n as [|n IH]; intros s Hn; [lia|].
  simpl. specialize (Ht s). destruct (p s) as [a r| | |] eqn:E;
    try congruence.
  apply Hc in E. specialize (IH r ltac:(lia)).
  destruct (star n p r); congruence.
Qed.

Lemma total_many {A} (p : parser A) : total p -> consumes p -> total (many p).
Proof. intros Ht Hc s. unfold many. apply star_runs; auto. Qed.

Create HintDb rules.

#[local] Hint Resolve total_pret total_raise total_pbind total_alt
  total_andp total_notp total_text total_lit total_class total_classStar
  total_EOF total_many : rules.
#[local] Hint Resolve shrinks_pret shrinks_raise shrinks_pbind shrinks_alt
  shrinks_andp shrinks_notp shrinks_text shrinks_lit shrinks_classStar
  shrinks_EOF shrinks_many shrinks_fuel : rules.
#[local] Hint Resolve consumes_lit consumes_class consumes_pbind consumes_alt
  consumes_text : rules.
#[local] Hint Resolve consumes_shrinks | 10 : rules.

Ltac rule := intros; unfold classPlus; auto 40 with rules.

Lemma total_ws : total peg.ws.
Proof. unfold peg.ws. rule. Qed.

Lemma consumes_ws : consumes peg.ws.
Proof. unfold peg.ws. rule. Qed.

Lemma total_ows : total peg.ows.
Proof. unfold peg.ows. rule. Qed.

Lemma shrinks_ows : shrinks peg.ows.
Proof. unfold peg.ows. rule. Qed.

#[local] Hint Resolve total_ws consumes_ws total_ows shrinks_ows : rules.

Lemma total_AfterNumbers : total peg.AfterNumbers.
Proof. unfold peg.AfterNumbers. rule. Qed.

Lemma shrinks_AfterNumbers : shrinks peg.AfterNumbers.
Proof. unfold peg.AfterNumbers. rule. Qed.

#[local] Hint Resolve total_AfterNumbers shrinks_AfterNumbers : rules.

Lemma total_Float : total peg.Float.
Proof. unfold peg.Float, peg.optional, peg.integerPart. rule. Qed.

Lemma shrinks_Float : shrinks peg.Float.
Proof. unfold peg.Float, peg.optional, peg.integerPart. rule. Qed.

Lemma total_Integer : total peg.Integer.
Proof. unfold peg.Integer, peg.optional, peg.integerPart. rule. Qed.

Lemma shrinks_Integer : shrinks peg.Integer.
Proof. unfold peg.Integer, peg.optional, peg.integerPart. rule. Qed.

Lemma total_Identifier : total peg.Identifier.
Proof. unfold peg.Identifier. rule. Qed.

Lemma consumes_Identifier : consumes peg.Identifier.
Proof. unfold peg.Identifier. rule. Qed.

Lemma total_JsonPointerSegment : total peg.JsonPointerSegment.
Proof. unfold peg.JsonPointerSegment. rule. Qed.

Lemma consumes_JsonPointerSegment : consumes peg.JsonPointerSegment.
Proof. unfold peg.JsonPointerSegment. rule. Qed.

Lemma total_Undefined : total peg.Undefined.
Proof. unfold peg.Undefined. rule. Qed.

Lemma shrinks_Undefined : shrinks peg.Undefined.
Proof. unfold peg.Undefined. rule. Qed.

Lemma total_TrueOrFalse : total peg.TrueOrFalse.
Proof. unfold peg.TrueOrFalse. rule. Qed.

Lemma shrinks_TrueOrFalse : shrinks peg.TrueOrFalse.
Proof. unfold peg.TrueOrFalse. rule. Qed.

#[local] Hint Resolve total_Float shrinks_Float total_Integer shrinks_Integer
  total_Identifier consumes_Identifier total_JsonPointerSegment
  consumes_JsonPointerSegment total_Undefined shrinks_Undefined
  total_TrueOrFalse shrinks_TrueOrFalse : rules.

Lemma total_StringLiteral : total (peg.StringLiteral rt).
Proof.
  unfold peg.StringLiteral, peg.quoted, peg.unclosed.
  apply total_alt; [apply total_pbind; [rule|] | rule].
  intros t. destruct (strconv_Unquote rt t) as [s [e|]]; rule.
Qed.

Lemma shrinks_StringLiteral : shrinks (peg.StringLiteral rt).
Proof.
  unfold peg.StringLiteral, peg.quoted, peg.unclosed.
  apply shrinks_alt; [apply shrinks_pbind; [rule|] | rule].
  intros t. destruct (strconv_Unquote rt t) as [s [e|]]; rule.
Qed.

#[local] Hint Resolve total_StringLiteral shrinks_StringLiteral : rules.

Lemma total_SelectorOrIndex : total (peg.SelectorOrIndex rt).
Proof. unfold peg.SelectorOrIndex, peg.IndexExpression. rule. Qed.

Lemma consumes_SelectorOrIndex : consumes (peg.SelectorOrIndex rt).
Proof. unfold peg.SelectorOrIndex, peg.IndexExpression. rule. Qed.

#[local] Hint Resolve total_SelectorOrIndex consumes_SelectorOrIndex : rules.

Lemma total_Selector : total (peg.Selector rt).
Proof.
  unfold peg.Selector.
  apply total_alt; [rule|].
  do 3 (apply total_pbind; [rule|intros ?]).
  destruct (pointerstructure_Parse rt _) as [parts [e|]]; rule.
Qed.

Lemma shrinks_Selector : shrinks (peg.Selector rt).
Proof.
  unfold peg.Selector.
  apply shrinks_alt; [rule|].
  do 3 (apply shrinks_pbind; [rule|intros ?]).
  destruct (pointerstructure_Parse rt _) as [parts [e|]]; rule.
Qed.

#[local] Hint Resolve total_Selector shrinks_Selector : rules.

Lemma total_Value : total (peg.Value rt).
Proof. unfold peg.Value. rule. Qed.

Lemma shrinks_Value : shrinks (peg.Value rt).
Proof. unfold peg.Value. rule. Qed.

#[local] Hint Resolve total_Value shrinks_Value : rules.

Ltac operators :=
  unfold peg.MathOpPlus, peg.MathOpMinus, peg.MathOpMul, peg.MathOpDiv,
    peg.MatchLowerOrEqual, peg.MatchLower, peg.MatchHigherOrEqual,
    peg.MatchHigher, peg.MatchEqual, peg.MatchNotEqual, peg.MatchIsEmpty,
    peg.MatchIsNotEmpty, peg.MatchContains, peg.MatchNotContains,
    peg.MatchIn, peg.MatchNotIn, peg.MatchMatches, peg.MatchNotMatches.

Lemma total_ExpressionValue : total (peg.ExpressionValue rt).
Proof. unfold peg.ExpressionValue. operators. rule. Qed.

Lemma shrinks_ExpressionValue : shrinks (peg.ExpressionValue rt).
Proof. unfold peg.ExpressionValue. operators. rule. Qed.

#[local] Hint Resolve total_ExpressionValue shrinks_ExpressionValue : rules.

Lemma total_MatchExpression : total (peg.MatchExpression rt).
Proof.
  unfold peg.MatchExpression, peg.MatchSelectorOpValue, peg.MatchSelectorOp,
    peg.MatchValueOpSelector. operators. rule.
Qed.

Lemma shrinks_MatchExpression : shrinks (peg.MatchExpression rt).
Proof.
  unfold peg.MatchExpression, peg.MatchSelectorOpValue, peg.MatchSelectorOp,
    peg.MatchValueOpSelector. operators. rule.
Qed.

#[local] Hint Resolve total_MatchExpression shrinks_MatchExpression : rules.

Lemma rules_shrink n :
  shrinks (peg.OrExpression rt n) /\ shrinks (peg.AndExpression rt n)
  /\ shrinks (peg.NotExpression rt n)
  /\ shrinks (peg.ParenthesizedExpression rt n).
Proof.
  induction n as [|n (IHo & IHa & IHn & IHp)].
  - repeat split; apply shrinks_fuel.
  - rewrite OrExpression_S, AndExpression_S, NotExpression_S,
      ParenthesizedExpression_S.
    repeat split; rule.
Qed.

(** Where the first rule of a sequence has an outcome, the sequence has
    one if what follows has one on the input that is left. *)
Lemma pbind_runs {A B} (p : parser A) (k : A -> parser B) s :
  p s <> OutOfFuel ->
  (forall a rest, p s = Matched a rest -> k a rest <> OutOfFuel) ->
  pbind p k s <> OutOfFuel.
Proof.
  intros Hp Hk. unfold pbind. destruct (p s); first [now apply Hk | congruence].
Qed.

Lemma alt_runs {A} (p q : parser A) s :
  p s <> OutOfFuel -> q s <> OutOfFuel -> alt p q s <> OutOfFuel.
Proof. intros Hp Hq. unfold alt. destruct (p s); congruence. Qed.

Ltac total_rule :=
  match goal with
  | |- ?p ?s <> OutOfFuel =>
      let H := fresh in assert (H : total p) by rule; apply H
  end.

(** One step of a sequence: the first rule is total, and what is known
    of the input it leaves is kept. *)
Ltac shorter E :=
  first
    [ apply consumes_ws in E
    | apply consumes_lit in E
    | apply shrinks_ows in E
    | apply (proj1 (rules_shrink _)) in E
    | apply (proj1 (proj2 (rules_shrink _))) in E
    | apply (proj1 (proj2 (proj2 (rules_shrink _)))) in E
    | apply (proj2 (proj2 (proj2 (rules_shrink _)))) in E ].

Ltac run_step :=
  apply pbind_runs;
  [ try total_rule
  | let a := fresh "a" in let rest := fresh "rest" in let E := fresh "E" in
    intros a rest E; shorter E ].

Lemma rules_run n : forall s,
  (4 * String.length s + 4 <= n -> peg.OrExpression rt n s <> OutOfFuel)
  /\ (4 * String.length s + 3 <= n -> peg.AndExpression rt n s <> OutOfFuel)
  /\ (4 * String.length s + 2 <= n -> peg.NotExpression rt n s <> OutOfFuel)
  /\ (4 * String.length s + 1 <= n
      -> peg.ParenthesizedExpression rt n s <> OutOfFuel).
Proof.
  induction n as [|n IH]; intros s; [repeat split; lia|].
  rewrite OrExpression_S, AndExpression_S, NotExpression_S,
    ParenthesizedExpression_S.
  split; [|split; [|split]]; intros Hn.
  - assert (Ha : peg.AndExpression rt n s <> OutOfFuel)
      by (apply IH; lia).
    apply alt_runs; [|exact Ha].
    run_step; [exact Ha|]. do 3 run_step.
    run_step; [apply IH; lia | total_rule].
  - assert (Ha : peg.NotExpression rt n s <> OutOfFuel)
      by (apply IH; lia).
    apply alt_runs; [|exact Ha].
    run_step; [exact Ha|]. do 3 run_step.
    run_step; [apply IH; lia | total_rule].
  - apply alt_runs; [|apply IH; lia].
    do 2 run_step. run_step; [apply IH; lia | total_rule].
  - apply alt_runs; [total_rule|].
    apply alt_runs;
      [|apply alt_runs; [total_rule | apply alt_runs; [total_rule|]]].
    + do 2 run_step. run_step; [apply IH; lia | total_rule].
    + do 2 run_step. run_step; [apply IH; lia | total_rule].
Qed.

Lemma Input_runs n s :
  4 * String.length s + 4 <= n -> peg.Input rt n s <> OutOfFuel.
Proof.
  intros Hn. unfold peg.Input, peg.Input_parenthesized, peg.Input_plain.
  apply alt_runs.
  - do 3 run_step. run_step; [apply rules_run; lia | total_rule].
  - run_step. run_step; [apply rules_run; lia | total_rule].
Qed.

(** [Parse] has an outcome on every input: the fuel it is given is
    enough. *)
Lemma Parse_runs (input : string) : peg.Parse rt input <> OutOfFuel.
Proof. unfold peg.Parse. apply Input_runs. unfold peg.fuelFor. lia. Qed.

Import Notions.
(** *** The whole input, and the white space in front of it *)

Lemma Input_parenthesized_rest n s e rest :
  peg.Input_parenthesized rt n s = Matched e rest -> rest = "".
Proof.
  unfold peg.Input_parenthesized, pbind.
  repeat match goal with
  | |- context [match ?p ?x with _ => _ end] =>
      lazymatch p with
      | peg.EOF => fail
      | _ => destruct (p x) as [? ?| | |]; try discriminate
      end
  end.
  unfold peg.EOF, pret.
  match goal with |- context [match ?x with "" => _ | _ => _ end] =>
    destruct x; try discriminate end.
  intros E. now inversion E.
Qed.

Lemma Input_plain_rest n s e rest :
  peg.Input_plain rt n s = Matched e rest -> rest = "".
Proof.
  unfold peg.Input_plain, pbind.
  repeat match goal with
  | |- context [match ?p ?x with _ => _ end] =>
      lazymatch p with
      | peg.EOF => fail
      | _ => destruct (p x) as [? ?| | |]; try discriminate
      end
  end.
  unfold peg.EOF, pret.
  match goal with |- context [match ?x with "" => _ | _ => _ end] =>
    destruct x; try discriminate end.
  intros E. now inversion E.
Qed.

(** X16. [Parse] accepts whole inputs only: where it returns a tree,
    nothing of the input is left. *)
Theorem Parse_reads_the_whole_input (input : string) e rest :
  peg.Parse rt input = Matched e rest -> rest = "".
Proof.
  unfold peg.Parse, peg.Input, alt.
  destruct (peg.Input_parenthesized rt (peg.fuelFor input) input)
    as [e' r'| | |] eqn:E; try discriminate.
  - intros E'. inversion E'; subst. eapply Input_parenthesized_rest; eauto.
  - apply Input_plain_rest.
Qed.

(** With the fuel of [Parse] or more, [Input] has the outcome of
    [Parse]. *)
Lemma Input_enough n s :
  peg.fuelFor s <= n -> peg.Input rt n s = peg.Parse rt s.
Proof.
  intros Hn. unfold peg.Parse.
  destruct (rules_mono (peg.fuelFor s) n Hn) as (Ho & _).
  assert (R : refines (peg.Input rt (peg.fuelFor s)) (peg.Input rt n)).
  { unfold peg.Input, peg.Input_parenthesized, peg.Input_plain.
    repeat refine_step. }
  destruct (R s) as [O|E]; [|now rewrite E].
  now destruct (Parse_runs s).
Qed.

Lemma span_spaces_more (w s : string) :
  spaces w ->
  span isSpace (w ++ s)
  = (w ++ fst (span isSpace s), snd (span isSpace s)).
Proof.
  unfold spaces. intros Hw. induction w as [|c w IH]; simpl in *.
  - now destruct (span isSpace s).
  - apply andb_true_iff in Hw. destruct Hw as [Hc Hw].
    now rewrite Hc, (IH Hw).
Qed.

Lemma ows_spaces (w s : string) : spaces w -> peg.ows (w ++ s) = peg.ows s.
Proof.
  intros Hw. unfold peg.ows, classStar, pbind.
  rewrite (span_spaces_more w s Hw).
  now destruct (span isSpace s).
Qed.

Lemma pbind_ows_spaces {A} (k : unit -> parser A) (w s : string) :
  spaces w -> pbind peg.ows k (w ++ s) = pbind peg.ows k s.
Proof. intros Hw. unfold pbind. now rewrite (ows_spaces w s Hw). Qed.

(** X17. White space in front of an input is of no account: the input
    has the outcome it has without it, be that a tree or a failure. *)
Theorem Parse_skips_leading_spaces (w input : string) :
  spaces w -> peg.Parse rt (w ++ input) = peg.Parse rt input.
Proof.
  intros Hw.
  rewrite <- (Input_enough (peg.fuelFor (w ++ input)) input)
    by (unfold peg.fuelFor; rewrite length_append; lia).
  unfold peg.Parse, peg.Input, peg.Input_parenthesized, peg.Input_plain, alt.
  now rewrite !(pbind_ows_spaces _ w input Hw).
Qed.

(** *** The shape of the trees *)

Ltac yield_operator :=
  operators;
  repeat first
    [ apply yields_alt
    | eapply yields_pbind; [apply yields_any | intros ? _]
    | apply yields_pret; repeat split ].

Lemma arithmetic_operator_yields :
  yields (fun op =>
            existsb (Z.eqb op) [MathOpPlus; MathOpMinus; MathOpMul; MathOpDiv]
            = true
            /\ (op =? MathOpValue)%Z = false)
    (peg.MathOpPlus // peg.MathOpMinus // peg.MathOpMul // peg.MathOpDiv)%peg.
Proof. yield_operator. Qed.

Lemma binary_operator_yields :
  yields (fun op =>
            existsb (Z.eqb op) matchOperators = true
            /\ (op =? MatchIsEmpty)%Z || (op =? MatchIsNotEmpty)%Z = false)
    (peg.MatchLowerOrEqual // peg.MatchHigherOrEqual // peg.MatchLower
     // peg.MatchHigher // peg.MatchEqual // peg.MatchNotEqual
     // peg.MatchContains // peg.MatchNotContains // peg.MatchMatches
     // peg.MatchNotMatches)%peg.
Proof. yield_operator. Qed.

Lemma emptiness_operator_yields :
  yields (fun op =>
            existsb (Z.eqb op) matchOperators = true
            /\ (op =? MatchIsEmpty)%Z || (op =? MatchIsNotEmpty)%Z = true)
    (peg.MatchIsEmpty // peg.MatchIsNotEmpty)%peg.
Proof. yield_operator. Qed.

Lemma membership_operator_yields :
  yields (fun op =>
            existsb (Z.eqb op) matchOperators = true
            /\ (op =? MatchIsEmpty)%Z || (op =? MatchIsNotEmpty)%Z = false)
    (peg.MatchIn // peg.MatchNotIn)%peg.
Proof. yield_operator. Qed.

Lemma ExpressionValue_wellFormed :
  yields (fun v => wellFormedValue v = true) (peg.ExpressionValue rt).
Proof.
  unfold peg.ExpressionValue.
  apply yields_alt.
  - eapply yields_pbind; [apply yields_any|intros lhs _].
    eapply yields_pbind; [apply arithmetic_operator_yields|intros op [Ho Hv]].
    eapply yields_pbind; [apply yields_any|intros rhs _].
    apply yields_pret. cbn [wellFormedValue isLeaf andb].
    now rewrite Hv, Ho.
  - eapply yields_pbind; [apply yields_any|intros v _].
    apply yields_pret. reflexivity.
Qed.

Lemma MatchExpression_wellFormed :
  yields (fun e => wellFormed e = true) (peg.MatchExpression rt).
Proof.
  unfold peg.MatchExpression, peg.MatchSelectorOpValue, peg.MatchSelectorOp,
    peg.MatchValueOpSelector.
  apply yields_alt; [|apply yields_alt; [|apply yields_alt]].
  - eapply yields_pbind; [apply ExpressionValue_wellFormed|intros lhs Hl].
    eapply yields_pbind; [apply binary_operator_yields|intros op [Ho He]].
    eapply yields_pbind; [apply ExpressionValue_wellFormed|intros rhs Hr].
    apply yields_pret. cbn [wellFormed wellFormedMatch].
    now rewrite Ho, He, Hl, Hr.
  - eapply yields_pbind; [apply yields_any|intros lhs _].
    eapply yields_pbind; [apply emptiness_operator_yields|intros op [Ho He]].
    apply yields_pret. cbn [wellFormed wellFormedMatch].
    now rewrite Ho, He.
  - eapply yields_pbind; [apply yields_any|intros v _].
    eapply yields_pbind; [apply membership_operator_yields|intros op [Ho He]].
    eapply yields_pbind; [apply yields_any|intros sel _].
    apply yields_pret. cbn [wellFormed wellFormedMatch].
    now rewrite Ho, He.
  - eapply yields_pbind; [apply yields_any|intros v _].
    eapply yields_pbind; [apply yields_any|intros op _].
    eapply yields_pbind; [apply yields_any|intros u _].
    apply yields_raise.
Qed.

Lemma negate_keeps_wellFormed (e : Node) :
  wellFormed e = true -> wellFormed (peg.negate e) = true.
Proof.
  destruct e as [|op operand| | | |]; try (intros H; exact H).
  destruct op; intros H; exact H.
Qed.

Lemma rules_wellFormed n :
  yields (fun e => wellFormed e = true) (peg.OrExpression rt n)
  /\ yields (fun e => wellFormed e = true) (peg.AndExpression rt n)
  /\ yields (fun e => wellFormed e = true) (peg.NotExpression rt n)
  /\ yields (fun e => wellFormed e = true) (peg.ParenthesizedExpression rt n).
Proof.
  induction n as [|n (IHo & IHa & IHn & IHp)].
  - repeat split; apply yields_fuel.
  - rewrite OrExpression_S, AndExpression_S, NotExpression_S,
      ParenthesizedExpression_S.
    repeat split.
    + apply yields_alt; [|exact IHa].
      eapply yields_pbind; [exact IHa|intros lhs Hl].
      do 3 (eapply yields_pbind; [apply yields_any|intros ? _]).
      eapply yields_pbind; [exact IHo|intros rhs Hr].
      apply yields_pret. cbn. now rewrite Hl, Hr.
    + apply yields_alt; [|exact IHn].
      eapply yields_pbind; [exact IHn|intros lhs Hl].
      do 3 (eapply yields_pbind; [apply yields_any|intros ? _]).
      eapply yields_pbind; [exact IHa|intros rhs Hr].
      apply yields_pret. cbn. now rewrite Hl, Hr.
    + apply yields_alt; [|exact IHp].
      do 2 (eapply yields_pbind; [apply yields_any|intros ? _]).
      eapply yields_pbind; [exact IHn|intros expr He].
      apply yields_pret. now apply negate_keeps_wellFormed.
    + apply yields_alt; [|apply yields_alt; [|apply yields_alt;
        [|apply yields_alt]]].
      * do 2 (eapply yields_pbind; [apply yields_any|intros ? _]).
        eapply yields_pbind; [apply ExpressionValue_wellFormed|intros v Hv].
        do 2 (eapply yields_pbind; [apply yields_any|intros ? _]).
        apply yields_pret. exact Hv.
      * do 2 (eapply yields_pbind; [apply yields_any|intros ? _]).
        eapply yields_pbind; [exact IHo|intros e He].
        do 2 (eapply yields_pbind; [apply yields_any|intros ? _]).
        apply yields_pret. exact He.
      * apply MatchExpression_wellFormed.
      * eapply yields_pbind; [apply ExpressionValue_wellFormed|intros v Hv].
        apply yields_pret. exact Hv.
      * do 5 (eapply yields_pbind; [apply yields_any|intros ? _]).
        apply yields_raise.
Qed.

Lemma Input_wellFormed n : yields (fun e => wellFormed e = true) (peg.Input rt n).
Proof.
  destruct (rules_wellFormed n) as (Ho & _).
  unfold peg.Input, peg.Input_parenthesized, peg.Input_plain.
  apply yields_alt.
  - do 3 (eapply yields_pbind; [apply yields_any|intros ? _]).
    eapply yields_pbind; [exact Ho|intros e He].
    do 4 (eapply yields_pbind; [apply yields_any|intros ? _]).
    apply yields_pret. exact He.
  - eapply yields_pbind; [apply yields_any|intros ? _].
    eapply yields_pbind; [exact Ho|intros e He].
    do 2 (eapply yields_pbind; [apply yields_any|intros ? _]).
    apply yields_pret. exact He.
Qed.

Lemma wellFormedValue_dump v indent level :
  wellFormedValue v = true ->
  exists text,
    ExpressionValue_ExpressionDump rt v indent level = Done (Some text).
Proof.
  destruct v as [|lhs op rhs]; [discriminate|].
  cbn [wellFormedValue]. intros H.
  apply andb_true_iff in H. destruct H as [Hl Hr].
  destruct lhs; try discriminate.
  assert (R : isNil rhs = true \/ isLeaf rhs = true).
  { destruct (op =? MathOpValue)%Z; [now left|].
    apply andb_true_iff in Hr. now right. }
  destruct R as [R|R]; destruct rhs; try discriminate;
    cbn; eexists; reflexivity.
Qed.

Lemma wellFormed_dump e indent level :
  wellFormed e = true ->
  exists text, ExpressionDump rt e indent level = Done (Some text).
Proof.
  revert level. induction e as [|op operand IH|lhs IHl op rhs IHr|m|v|mv];
    intros level H; try discriminate.
  - cbn [wellFormed] in H. apply andb_true_iff in H. destruct H as [_ H].
    destruct (IH (level + 1) H) as [text E].
    cbn [ExpressionDump]. rewrite E. cbn. eexists; reflexivity.
  - cbn [wellFormed] in H. apply andb_true_iff in H. destruct H as [H Hr].
    apply andb_true_iff in H. destruct H as [_ Hl].
    destruct (IHl (level + 1) Hl) as [tl El].
    destruct (IHr (level + 1) Hr) as [tr Er].
    cbn [ExpressionDump]. rewrite El, Er. cbn. eexists; reflexivity.
  - cbn [wellFormed ExpressionDump] in *.
    destruct m as [op lhs rhs]. cbn [wellFormedMatch] in H.
    apply andb_true_iff in H. destruct H as [H Hr].
    apply andb_true_iff in H. destruct H as [Ho Hl].
    unfold MatchExpression_ExpressionDump.
    destruct lhs as [|ll lo lr]; [discriminate|].
    cbn [wellFormedValue] in Hl. apply andb_true_iff in Hl.
    destruct Hl as [Hll _]. destruct ll; try discriminate.
    simpl in Ho.
    repeat match type of Ho with
    | (?a =? ?b)%Z || _ = true =>
        destruct (Z.eqb_spec a b) as [->|_];
        [clear Ho | cbn [orb] in Ho]
    end; try discriminate.
    all: cbn in Hr |- *.
    all: try (eexists; reflexivity).
    all: destruct rhs as [|rl ro rr]; [discriminate|].
    all: cbn [wellFormedValue] in Hr; apply andb_true_iff in Hr.
    all: destruct Hr as [_ Hr].
    all: assert (R : isNil rr = true \/ isLeaf rr = true)
           by (destruct (ro =? MathOpValue)%Z; [now left|];
               apply andb_true_iff in Hr; now right).
    all: destruct R as [R|R]; destruct rr; try discriminate;
         cbn; eexists; reflexivity.
  - cbn [wellFormed ExpressionDump] in *. now apply wellFormedValue_dump.
Qed.

(** X18. Every tree that [Parse] returns has the shape of the grammar,
    and can be dumped: the dump of such a tree, with any indent and at any
    level, touches no nil operand and writes a text. *)
Theorem parsed_trees_can_be_dumped (input : string) e rest indent level :
  peg.Parse rt input = Matched e rest ->
  wellFormed e = true
  /\ exists text, ExpressionDump rt e indent level = Done (Some text).
Proof.
  intros H. assert (W : wellFormed e = true) by exact (Input_wellFormed _ _ _ _ H).
  split; [exact W | now apply wellFormed_dump].
Qed.

(** *** A literal by itself *)

Ltac crunch :=
  repeat first
    [ progress cbv beta iota zeta delta
        [peg.Integer peg.Float peg.TrueOrFalse peg.Undefined peg.Identifier
         peg.AfterNumbers peg.ws peg.ows peg.EOF peg.Selector
         text pbind peg.optional alt lit andp notp raise
         peg.integerPart class classStar classPlus pret dropPrefix]
    | match goal with
      | |- context [Ascii.eqb ?a ?b] => Numerals.eval_in_goal (Ascii.eqb a b)
      | |- context [byte_in ?a ?b (N_of_ascii ?c)] =>
          Numerals.eval_in_goal (byte_in a b (N_of_ascii c))
      | |- context [isLetter ?c] => Numerals.eval_in_goal (isLetter c)
      | |- context [isSpace ?c] => Numerals.eval_in_goal (isSpace c)
      end
    | rewrite Numerals.span_digits
    | progress cbn [String.length span substring]
    | rewrite Nat.sub_0_r
    | rewrite Numerals.substring_all ].

(** The decimal text of an integer is an integer literal, and no other
    kind of value. *)
Lemma Value_FormatInt n :
  peg.Value rt (FormatInt n)
  = Matched (peg.literal ValueTypeInt (FormatInt n)) "".
Proof.
  unfold peg.Value.
  assert (T : peg.TrueOrFalse (FormatInt n) = NoMatch
              /\ peg.Undefined (FormatInt n) = NoMatch
              /\ peg.Selector rt (FormatInt n) = NoMatch
              /\ peg.Float (FormatInt n) = NoMatch
              /\ peg.Integer (FormatInt n) = Matched (FormatInt n) "").
  { unfold FormatInt. destruct n as [|p|p]; [repeat split; reflexivity|..];
      cbn [Z.to_int NilZero.string_of_int]; Numerals.first_digit p;
      crunch; repeat split; reflexivity. }
  destruct T as (Tb & Tu & Ts & Tf & Ti).
  unfold alt at 1. unfold pbind at 1. rewrite Tb.
  unfold alt at 1. unfold pbind at 1. rewrite Tu.
  unfold alt at 1. unfold pbind at 1. rewrite Ts.
  unfold alt at 1. unfold pbind at 1. rewrite Tf.
  unfold alt at 1. unfold pbind at 1. rewrite Ti.
  reflexivity.
Qed.

Lemma lit_other (c d : ascii) (t s : string) :
  c <> d -> lit (String c t) (String d s) = NoMatch.
Proof.
  intros H. unfold lit. cbn [dropPrefix].
  destruct (Ascii.eqb_spec c d); [contradiction|reflexivity].
Qed.

Lemma not_then_space {A} (k : unit -> parser A) (s : string) :
  pbind (lit "not") (fun _ => peg.ws) s = NoMatch ->
  pbind (lit "not") (fun _ => pbind peg.ws k) s = NoMatch.
Proof.
  unfold pbind. destruct (lit "not" s) as [? r| | |]; try discriminate;
    [|reflexivity].
  destruct (peg.ws r); try discriminate. reflexivity.
Qed.

(** An input that is one value, and starts neither with white space nor
    with a parenthesis nor with a [not] and white space, is read as that
    value. *)
Lemma Parse_lone_value (c : ascii) (t : string) (v : MatchValue) :
  isSpace c = false -> "("%char <> c ->
  pbind (lit "not") (fun _ => peg.ws) (String c t) = NoMatch ->
  peg.Value rt (String c t) = Matched v "" ->
  peg.Parse rt (String c t) = Matched (ValueNode (peg.single v)) "".
Proof.
  intros Hs Hp Hn E. set (s := String c t) in *.
  assert (EV : peg.ExpressionValue rt s = Matched (peg.single v) "").
  { unfold peg.ExpressionValue, alt, pbind. rewrite E. reflexivity. }
  assert (ME : peg.MatchExpression rt s = NoMatch).
  { unfold peg.MatchExpression, peg.MatchSelectorOpValue, peg.MatchSelectorOp,
      peg.MatchValueOpSelector, alt, pbind. rewrite EV, E. reflexivity. }
  assert (Lp : lit "(" s = NoMatch) by now apply lit_other.
  assert (PE : forall k,
             peg.ParenthesizedExpression rt (S k) s
             = Matched (ValueNode (peg.single v)) "").
  { intros k. rewrite ParenthesizedExpression_S. unfold alt, pbind.
    rewrite Lp, ME, EV. reflexivity. }
  assert (NE : forall k,
             peg.NotExpression rt (S (S k)) s
             = Matched (ValueNode (peg.single v)) "").
  { intros k. rewrite NotExpression_S. unfold alt at 1.
    rewrite (not_then_space _ s Hn). apply PE. }
  assert (AE : forall k,
             peg.AndExpression rt (S (S (S k))) s
             = Matched (ValueNode (peg.single v)) "").
  { intros k. rewrite AndExpression_S. unfold alt, pbind.
    rewrite NE. reflexivity. }
  assert (OE : forall k,
             peg.OrExpression rt (S (S (S (S k)))) s
             = Matched (ValueNode (peg.single v)) "").
  { intros k. rewrite OrExpression_S. unfold alt, pbind.
    rewrite AE. reflexivity. }
  rewrite <- (Input_enough (S (S (S (S (peg.fuelFor s))))) s) by lia.
  unfold peg.Input, peg.Input_parenthesized, peg.Input_plain, alt.
  unfold pbind at 1. rewrite (ows_solid s Hs).
  unfold pbind at 1. rewrite Lp.
  unfold pbind at 1. rewrite (ows_solid s Hs).
  unfold pbind at 1. rewrite OE. reflexivity.
Qed.

(** The decimal text of an integer is a whole input: the tree is the
    integer literal with that text. *)
Lemma Parse_FormatInt n :
  peg.Parse rt (FormatInt n)
  = Matched (ValueNode (peg.single (peg.literal ValueTypeInt (FormatInt n))))
      "".
Proof.
  pose proof (Value_FormatInt n) as E. revert E.
  unfold FormatInt. destruct n as [|p|p];
    cbn [Z.to_int NilZero.string_of_int]; try Numerals.first_digit p;
    intros E; apply Parse_lone_value; try exact E; try reflexivity;
    discriminate.
Qed.

(** *** A dotted path by itself *)

Lemma span_app (f : ascii -> bool) (a b : string) :
  forallb f (list_ascii_of_string a) = true ->
  match b with String c _ => f c = false | "" => True end ->
  span f (a ++ b) = (a, b).
Proof.
  intros Ha Hb. induction a as [|c a IH]; simpl in *.
  - destruct b as [|d b]; [reflexivity|]. simpl. now rewrite Hb.
  - apply andb_true_iff in Ha. destruct Ha as [Hc Ha].
    now rewrite Hc, (IH Ha).
Qed.

Lemma substring_app (a b : string) :
  substring 0 (String.length (a ++ b) - String.length b) (a ++ b) = a.
Proof.
  rewrite length_append, Nat.add_sub.
  induction a as [|c a IH]; simpl.
  - now destruct b.
  - now rewrite IH.
Qed.

Lemma Identifier_reads (id rest : string) :
  isIdentifier id = true ->
  match rest with String c _ => isIdentChar c = false | "" => True end ->
  peg.Identifier (id ++ rest) = Matched id rest.
Proof.
  intros Hid Hrest. destruct id as [|c t]; [discriminate|].
  simpl in Hid. apply andb_true_iff in Hid. destruct Hid as [Hc Ht].
  pose proof (substring_app (String c t) rest) as Hsub.
  unfold peg.Identifier, text, pbind, class, classStar.
  cbn [append]. rewrite Hc, (span_app isIdentChar t rest Ht Hrest).
  cbn [append] in Hsub. rewrite Hsub. reflexivity.
Qed.

Lemma dotted_start (parts : list string) :
  match dotted parts with
  | String c _ => isIdentChar c = false
  | "" => True
  end.
Proof. destruct parts; [exact I | reflexivity]. Qed.

Lemma SelectorOrIndex_dot (id rest : string) :
  isIdentifier id = true ->
  match rest with String c _ => isIdentChar c = false | "" => True end ->
  peg.SelectorOrIndex rt ("." ++ id ++ rest) = Matched id rest.
Proof.
  intros Hid Hrest.
  assert (L : lit "." ("." ++ id ++ rest) = Matched tt (id ++ rest))
    by reflexivity.
  unfold peg.SelectorOrIndex, alt. unfold pbind at 1.
  rewrite L, (Identifier_reads id rest Hid Hrest). reflexivity.
Qed.

Lemma star_dotted (parts : list string) : forall n,
  forallb isIdentifier parts = true -> List.length parts < n ->
  star n (peg.SelectorOrIndex rt) (dotted parts) = Matched parts "".
Proof.
  induction parts as [|id parts IH]; intros n Hp Hn;
    destruct n as [|n]; try lia.
  - reflexivity.
  - simpl in Hp. apply andb_true_iff in Hp. destruct Hp as [Hid Hp].
    cbn [dotted star].
    rewrite (SelectorOrIndex_dot id (dotted parts) Hid (dotted_start parts)).
    rewrite (IH n Hp) by (simpl in Hn; lia). reflexivity.
Qed.

Lemma dotted_length (parts : list string) :
  List.length parts <= String.length (dotted parts).
Proof.
  induction parts as [|id parts IH]; simpl; [lia|].
  rewrite length_append. lia.
Qed.

Lemma Join_dotted (first : string) (rest : list string) :
  strings_Join (first :: rest) "." = first ++ dotted rest.
Proof.
  unfold strings_Join. revert first.
  induction rest as [|id rest IH]; intros first; simpl.
  - induction first as [|c first IHf]; simpl; [reflexivity|].
    now rewrite <- IHf.
  - now rewrite <- (IH id).
Qed.

Lemma Selector_dotted (first : string) (rest : list string) :
  isIdentifier first = true -> forallb isIdentifier rest = true ->
  peg.Selector rt (first ++ dotted rest)
  = Matched {| Type_ := SelectorTypeBexpr; Path := first :: rest |} "".
Proof.
  intros Hf Hr. unfold peg.Selector, alt. unfold pbind at 1.
  rewrite (Identifier_reads first (dotted rest) Hf (dotted_start rest)).
  unfold pbind at 1. unfold many.
  rewrite (star_dotted rest _ Hr)
    by (pose proof (dotted_length rest); lia).
  reflexivity.
Qed.

Lemma lit_prefix (t s : string) : String.prefix t s = false -> lit t s = NoMatch.
Proof.
  unfold lit. revert s. induction t as [|x t IH]; intros s;
    [destruct s; discriminate|].
  destruct s as [|y s]; [reflexivity|]. cbn [String.prefix dropPrefix].
  destruct (Ascii.ascii_dec x y) as [->|Hne].
  - rewrite Ascii.eqb_refl. apply IH.
  - destruct (Ascii.eqb_spec x y); [contradiction|reflexivity].
Qed.

Lemma prefix_before_dot (t a b : string) :
  forallb (fun c => negb (Ascii.eqb c ".")) (list_ascii_of_string t) = true ->
  match b with String c _ => c = "."%char | "" => True end ->
  String.prefix t a = false -> String.prefix t (a ++ b) = false.
Proof.
  intros Ht Hb. revert a. induction t as [|x t IH]; intros a;
    [destruct a; discriminate|].
  simpl in Ht. apply andb_true_iff in Ht. destruct Ht as [Hx Ht].
  destruct a as [|y a]; cbn [append String.prefix].
  - intros _. destruct b as [|c b]; [reflexivity|]. subst c.
    cbn [append String.prefix].
    destruct (Ascii.ascii_dec x "."); [|reflexivity].
    subst x. discriminate.
  - destruct (Ascii.ascii_dec x y); [apply (IH Ht)|reflexivity].
Qed.

Lemma letter_facts (c : ascii) :
  isLetter c = true -> isIdentChar c = true /\ "("%char <> c.
Proof.
  destruct c as [[] [] [] [] [] [] [] []]; intros H; try discriminate H;
    split; try reflexivity; intros E; discriminate E.
Qed.

Lemma identChar_no_space (c : ascii) :
  isIdentChar c = true -> isSpace c = false.
Proof.
  destruct c as [[] [] [] [] [] [] [] []]; intros H; try discriminate H;
    reflexivity.
Qed.

Lemma no_space_after (t s : string) :
  forallb (fun c => negb (isSpace c)) (list_ascii_of_string s) = true ->
  pbind (lit t) (fun _ => peg.ws) s = NoMatch.
Proof.
  unfold pbind, lit. revert s. induction t as [|x t IH]; intros s Hs.
  - cbn [dropPrefix]. destruct s as [|c s]; [reflexivity|].
    simpl in Hs. apply andb_true_iff in Hs. destruct Hs as [Hc _].
    unfold peg.ws, classPlus, pbind, class.
    destruct (isSpace c); [discriminate|reflexivity].
  - destruct s as [|c s]; [reflexivity|]. cbn [dropPrefix].
    simpl in Hs. apply andb_true_iff in Hs. destruct Hs as [_ Hs].
    destruct (Ascii.eqb x c); [apply (IH s Hs)|reflexivity].
Qed.

Lemma forallb_append (f : ascii -> bool) (a b : string) :
  forallb f (list_ascii_of_string (a ++ b))
  = forallb f (list_ascii_of_string a) && forallb f (list_ascii_of_string b).
Proof.
  induction a as [|c a IH]; simpl; [reflexivity|].
  now rewrite IH, andb_assoc.
Qed.

Lemma identifier_no_space (id : string) :
  isIdentifier id = true ->
  forallb (fun c => negb (isSpace c)) (list_ascii_of_string id) = true.
Proof.
  destruct id as [|c t]; [discriminate|]. simpl. intros H.
  apply andb_true_iff in H. destruct H as [Hc Ht].
  destruct (letter_facts c Hc) as [Hi _].
  rewrite (identChar_no_space c Hi). simpl.
  induction t as [|d t IH]; [reflexivity|]. simpl in *.
  apply andb_true_iff in Ht. destruct Ht as [Hd Ht].
  now rewrite (identChar_no_space d Hd), (IH Ht).
Qed.

Lemma dotted_no_space (parts : list string) :
  forallb isIdentifier parts = true ->
  forallb (fun c => negb (isSpace c)) (list_ascii_of_string (dotted parts))
  = true.
Proof.
  induction parts as [|id parts IH]; [reflexivity|]. simpl. intros H.
  apply andb_true_iff in H. destruct H as [Hid Hp].
  now rewrite forallb_append, (identifier_no_space id Hid), (IH Hp).
Qed.

(** X22. A dotted path of identifiers that starts with none of the words
    [true], [false] and [undefined] is read back from the text that
    [Selector.String] writes for it: the text is a whole input, and its tree
    is the selector with that path. *)
Theorem selector_round_trip (first : string) (rest : list string) :
  let sel := {| Type_ := SelectorTypeBexpr; Path := first :: rest |} in
  isIdentifier first = true -> forallb isIdentifier rest = true ->
  noLiteralWord first = true ->
  peg.Parse rt (Selector_String sel)
  = Matched (ValueNode (peg.single (selectorValue sel "" None))) "".
Proof.
  intros sel Hf Hr Hw.
  assert (Es : Selector_String sel = first ++ dotted rest)
    by apply Join_dotted.
  rewrite Es. clear Es.
  unfold noLiteralWord in Hw.
  apply andb_true_iff in Hw. destruct Hw as [Hw Hu].
  apply andb_true_iff in Hw. destruct Hw as [Ht Hfa].
  apply negb_true_iff in Ht, Hfa, Hu.
  assert (Hdot : match dotted rest with
                 | String c _ => c = "."%char
                 | "" => True
                 end) by (destruct rest; [exact I | reflexivity]).
  assert (Lt : lit "true" (first ++ dotted rest) = NoMatch)
    by (apply lit_prefix, prefix_before_dot; auto).
  assert (Lf : lit "false" (first ++ dotted rest) = NoMatch)
    by (apply lit_prefix, prefix_before_dot; auto).
  assert (Lu : lit "undefined" (first ++ dotted rest) = NoMatch)
    by (apply lit_prefix, prefix_before_dot; auto).
  assert (V : peg.Value rt (first ++ dotted rest)
              = Matched (selectorValue sel "" None) "").
  { unfold peg.Value.
    assert (Tb : peg.TrueOrFalse (first ++ dotted rest) = NoMatch).
    { unfold peg.TrueOrFalse, alt, pbind, text. rewrite Lt, Lf. reflexivity. }
    assert (Tu : peg.Undefined (first ++ dotted rest) = NoMatch).
    { unfold peg.Undefined, alt, pbind, text. rewrite Lu. reflexivity. }
    unfold alt at 1. unfold pbind at 1. rewrite Tb.
    unfold alt at 1. unfold pbind at 1. rewrite Tu.
    unfold alt at 1. unfold pbind at 1.
    rewrite (Selector_dotted first rest Hf Hr). reflexivity. }
  assert (Hns : forallb (fun c => negb (isSpace c))
                  (list_ascii_of_string (first ++ dotted rest)) = true)
    by now rewrite forallb_append, (identifier_no_space first Hf),
         (dotted_no_space rest Hr).
  pose proof (no_space_after "not" _ Hns) as Hnot.
  destruct first as [|c t]; [discriminate|].
  cbn [append] in *.
  simpl in Hf. apply andb_true_iff in Hf. destruct Hf as [Hc _].
  destruct (letter_facts c Hc) as [Hi Hp].
  apply Parse_lone_value; auto using identChar_no_space.
Qed.

(** *** The words of the literals, and quoted pointers *)

Lemma Parse_failed_value (c : ascii) (t msg : string) :
  isSpace c = false -> "("%char <> c -> "n"%char <> c ->
  peg.Value rt (String c t) = Failed msg ->
  peg.Parse rt (String c t) = Failed msg.
Proof.
  intros Hs Hp Hn E. set (s := String c t) in *.
  assert (EV : peg.ExpressionValue rt s = Failed msg).
  { unfold peg.ExpressionValue, alt, pbind. rewrite E. reflexivity. }
  assert (ME : peg.MatchExpression rt s = Failed msg).
  { unfold peg.MatchExpression, peg.MatchSelectorOpValue, alt, pbind.
    rewrite EV. reflexivity. }
  assert (Lp : lit "(" s = NoMatch) by now apply lit_other.
  assert (Ln : lit "not" s = NoMatch) by now apply lit_other.
  assert (PE : forall k,
             peg.ParenthesizedExpression rt (S k) s = Failed msg).
  { intros k. rewrite ParenthesizedExpression_S. unfold alt, pbind.
    rewrite Lp, ME. reflexivity. }
  assert (NE : forall k, peg.NotExpression rt (S (S k)) s = Failed msg).
  { intros k. rewrite NotExpression_S. unfold alt, pbind.
    rewrite Ln. apply PE. }
  assert (AE : forall k, peg.AndExpression rt (S (S (S k))) s = Failed msg).
  { intros k. rewrite AndExpression_S. unfold alt, pbind.
    rewrite NE. reflexivity. }
  assert (OE : forall k,
             peg.OrExpression rt (S (S (S (S k)))) s = Failed msg).
  { intros k. rewrite OrExpression_S. unfold alt, pbind.
    rewrite AE. reflexivity. }
  rewrite <- (Input_enough (S (S (S (S (peg.fuelFor s))))) s) by lia.
  unfold peg.Input, peg.Input_parenthesized, peg.Input_plain, alt.
  unfold pbind at 1. rewrite (ows_solid s Hs).
  unfold pbind at 1. rewrite Lp.
  unfold pbind at 1. rewrite (ows_solid s Hs).
  unfold pbind at 1. rewrite OE. reflexivity.
Qed.

Lemma AfterNumbers_fails (c : ascii) (t : string) :
  isSpace c = false -> ")"%char <> c ->
  peg.AfterNumbers (String c t) = NoMatch.
Proof.
  intros Hs Hp.
  unfold peg.AfterNumbers, andp, alt, peg.ws, classPlus, pbind, class, peg.EOF.
  rewrite Hs, (lit_other ")" c "" t Hp). reflexivity.
Qed.

(** X23. No input may start with one of the words [true], [false] and
    [undefined] and go on otherwise than with white space or a closing
    parenthesis: what would be a selector that starts with such a word is
    refused, with the error of an invalid literal. *)
Theorem literal_words_start_no_selector (c : ascii) (t : string) :
  isSpace c = false -> ")"%char <> c ->
  peg.Parse rt ("true" ++ String c t) = Failed "Invalid bool literal"
  /\ peg.Parse rt ("false" ++ String c t) = Failed "Invalid bool literal"
  /\ peg.Parse rt ("undefined" ++ String c t)
     = Failed "Invalid undefined literal".
Proof.
  intros Hs Hp. pose proof (AfterNumbers_fails c t Hs Hp) as A.
  repeat split; cbn [append]; apply Parse_failed_value;
    try reflexivity; try (intros E; discriminate E).
  - unfold peg.Value, peg.TrueOrFalse, alt, pbind, text, notp.
    cbn [lit dropPrefix Ascii.eqb Bool.eqb]. rewrite A. reflexivity.
  - unfold peg.Value, peg.TrueOrFalse, alt, pbind, text, notp.
    cbn [lit dropPrefix Ascii.eqb Bool.eqb]. rewrite A. reflexivity.
  - unfold peg.Value, peg.TrueOrFalse, peg.Undefined, alt, pbind, text, notp.
    cbn [lit dropPrefix Ascii.eqb Bool.eqb]. rewrite A. reflexivity.
Qed.





(** *** A comparison of two numerals *)

Lemma numeralBody_reads (body rest : string) :
  isNumeralBody body = true ->
  match rest with String c _ => isDigit c = false | "" => True end ->
  peg.integerPart (body ++ rest) = Matched tt rest.
Proof.
  intros Hb Hrest. destruct body as [|c t]; [discriminate|].
  cbn [isNumeralBody] in Hb. apply orb_true_iff in Hb.
  unfold peg.integerPart, alt.
  destruct Hb as [Hb|Hb]; apply andb_true_iff in Hb; destruct Hb as [Hc Ht].
  - apply Ascii.eqb_eq in Hc. apply String.eqb_eq in Ht. subst. reflexivity.
  - assert (Hz : lit "0" (String c t ++ rest) = NoMatch).
    { apply lit_other. intros <-. discriminate Hc. }
    rewrite Hz. unfold pbind, class, classStar. cbn [append].
    rewrite Hc, (span_app isDigit t rest Ht Hrest). reflexivity.
Qed.

Lemma numeral_start (t : string) :
  isNumeral t = true ->
  exists c t', t = String c t'
    /\ (c = "-"%char \/ isDigit c = true).
Proof.
  destruct t as [|c t']; [discriminate|]. intros H. exists c, t'.
  split; [reflexivity|].
  destruct (Ascii.eqb_spec c "-") as [->|Hne]; [now left|right].
  assert (Hb : isNumeralBody (String c t') = true).
  { revert H. unfold isNumeral.
    destruct c as [[] [] [] [] [] [] [] []]; try (intros H; exact H).
    now contradiction Hne. }
  cbn [isNumeralBody] in Hb. apply orb_true_iff in Hb.
  destruct Hb as [Hb|Hb]; apply andb_true_iff in Hb; destruct Hb as [Hc _].
  - apply Ascii.eqb_eq in Hc. now subst.
  - revert Hc. destruct c as [[] [] [] [] [] [] [] []]; intros Hc;
      try discriminate Hc; reflexivity.
Qed.

Lemma isNumeral_other (c : ascii) (t : string) :
  c <> "-"%char -> isNumeral (String c t) = isNumeralBody (String c t).
Proof.
  intros Hne. unfold isNumeral.
  destruct c as [[] [] [] [] [] [] [] []]; try reflexivity.
  now contradiction Hne.
Qed.

Lemma sign_then_body (t rest : string) :
  isNumeral t = true ->
  match rest with String c _ => isDigit c = false | "" => True end ->
  pbind (peg.optional "-") (fun _ => peg.integerPart) (t ++ rest)
  = Matched tt rest.
Proof.
  intros Ht Hrest. destruct t as [|c t']; [discriminate|].
  unfold pbind, peg.optional, alt.
  destruct (Ascii.eqb_spec c "-") as [->|Hne].
  - assert (L : lit "-" (String "-" t' ++ rest) = Matched tt (t' ++ rest))
      by reflexivity.
    rewrite L. now apply numeralBody_reads.
  - rewrite (isNumeral_other c t' Hne) in Ht.
    assert (L : lit "-" (String c t' ++ rest) = NoMatch)
      by (apply lit_other; congruence).
    rewrite L. unfold pret. now apply numeralBody_reads.
Qed.

Lemma Integer_reads (t rest : string) :
  isNumeral t = true ->
  match rest with
  | String c _ => isDigit c = false /\ "."%char <> c
  | "" => True
  end ->
  peg.Integer (t ++ rest) = Matched t rest
  /\ peg.Float (t ++ rest) = NoMatch.
Proof.
  intros Ht Hrest.
  assert (Hd : match rest with
               | String c _ => isDigit c = false
               | "" => True
               end) by (destruct rest; [exact I | apply Hrest]).
  pose proof (sign_then_body t rest Ht Hd) as E.
  split.
  - unfold peg.Integer, text. rewrite E. now rewrite substring_app.
  - unfold peg.Float, text.
    assert (F : pbind (peg.optional "-")
                  (fun _ => pbind peg.integerPart
                     (fun _ => pbind (lit ".")
                        (fun _ => classPlus isDigit))) (t ++ rest)
                = NoMatch).
    { revert E. unfold pbind.
      destruct (peg.optional "-" (t ++ rest)) as [? r1| | |];
        try discriminate.
      intros E. rewrite E.
      destruct rest as [|c rest]; [reflexivity|].
      destruct Hrest as [_ Hc]. now rewrite (lit_other "." c "" rest Hc). }
    now rewrite F.
Qed.

Lemma Value_numeral (t rest : string) :
  isNumeral t = true ->
  rest = "" \/ (exists r, rest = String " " r) ->
  peg.Value rt (t ++ rest) = Matched (peg.literal ValueTypeInt t) rest.
Proof.
  intros Ht Hrest.
  assert (Hr : match rest with
               | String c _ => isDigit c = false /\ "."%char <> c
               | "" => True
               end).
  { destruct Hrest as [->|[r ->]]; [exact I|].
    split; [reflexivity | intros E; discriminate E]. }
  assert (A : peg.AfterNumbers rest = Matched tt rest).
  { destruct Hrest as [->|[r ->]]; [reflexivity|].
    unfold peg.AfterNumbers, andp, alt, peg.ws, classPlus, pbind, class,
      classStar.
    cbn [isSpace Ascii.eqb Bool.eqb orb].
    destruct (span isSpace r). reflexivity. }
  destruct (Integer_reads t rest Ht Hr) as [Ei Ef].
  destruct (numeral_start t Ht) as (c & t' & -> & Hc).
  assert (T : peg.TrueOrFalse (String c t' ++ rest) = NoMatch
              /\ peg.Undefined (String c t' ++ rest) = NoMatch
              /\ peg.Selector rt (String c t' ++ rest) = NoMatch).
  { assert (Lt : lit "true" (String c t' ++ rest) = NoMatch)
      by (apply lit_other; destruct Hc as [->|Hc];
          [discriminate | intros <-; discriminate Hc]).
    assert (Lf : lit "false" (String c t' ++ rest) = NoMatch)
      by (apply lit_other; destruct Hc as [->|Hc];
          [discriminate | intros <-; discriminate Hc]).
    assert (Lu : lit "undefined" (String c t' ++ rest) = NoMatch)
      by (apply lit_other; destruct Hc as [->|Hc];
          [discriminate | intros <-; discriminate Hc]).
    assert (Hl : isLetter c = false)
      by (destruct Hc as [->|Hc]; [reflexivity|];
          revert Hc; destruct c as [[] [] [] [] [] [] [] []];
          intros Hc; try discriminate Hc; reflexivity).
    assert (Hq : Ascii.eqb doubleQuote c = false)
      by (destruct Hc as [->|Hc]; [reflexivity|];
          revert Hc; destruct c as [[] [] [] [] [] [] [] []];
          intros Hc; try discriminate Hc; reflexivity).
    repeat split.
    - unfold peg.TrueOrFalse, alt, pbind, text. rewrite Lt, Lf. reflexivity.
    - unfold peg.Undefined, alt, pbind, text. rewrite Lu. reflexivity.
    - unfold peg.Selector, peg.Identifier, alt, pbind, text, class.
      cbn [append]. rewrite Hl, Hq. reflexivity. }
  destruct T as (Tb & Tu & Ts).
  unfold peg.Value.
  unfold alt at 1. unfold pbind at 1. rewrite Tb.
  unfold alt at 1. unfold pbind at 1. rewrite Tu.
  unfold alt at 1. unfold pbind at 1. rewrite Ts.
  unfold alt at 1. unfold pbind at 1. rewrite Ef.
  unfold alt at 1. unfold pbind at 1. rewrite Ei.
  unfold pbind at 1. rewrite A. reflexivity.
Qed.

Lemma Parse_lone_match (c : ascii) (t : string) (e : Node) :
  isSpace c = false -> "("%char <> c -> "n"%char <> c ->
  peg.MatchExpression rt (String c t) = Matched e "" ->
  peg.Parse rt (String c t) = Matched e "".
Proof.
  intros Hs Hp Hn ME. set (s := String c t) in *.
  assert (Lp : lit "(" s = NoMatch) by now apply lit_other.
  assert (Ln : lit "not" s = NoMatch) by now apply lit_other.
  assert (PE : forall k,
             peg.ParenthesizedExpression rt (S k) s = Matched e "").
  { intros k. rewrite ParenthesizedExpression_S. unfold alt, pbind.
    rewrite Lp, ME. reflexivity. }
  assert (NE : forall k, peg.NotExpression rt (S (S k)) s = Matched e "").
  { intros k. rewrite NotExpression_S. unfold alt, pbind.
    rewrite Ln. apply PE. }
  assert (AE : forall k, peg.AndExpression rt (S (S (S k))) s = Matched e "").
  { intros k. rewrite AndExpression_S. unfold alt, pbind.
    rewrite NE. reflexivity. }
  assert (OE : forall k,
             peg.OrExpression rt (S (S (S (S k)))) s = Matched e "").
  { intros k. rewrite OrExpression_S. unfold alt, pbind.
    rewrite AE. reflexivity. }
  rewrite <- (Input_enough (S (S (S (S (peg.fuelFor s))))) s) by lia.
  unfold peg.Input, peg.Input_parenthesized, peg.Input_plain, alt.
  unfold pbind at 1. rewrite (ows_solid s Hs).
  unfold pbind at 1. rewrite Lp.
  unfold pbind at 1. rewrite (ows_solid s Hs).
  unfold pbind at 1. rewrite OE. reflexivity.
Qed.

Lemma ows_one_space (y : string) :
  solid y -> peg.ows (String " " y) = Matched tt y.
Proof.
  intros Hy. change (String " " y) with (" " ++ y).
  rewrite (ows_spaces " " y eq_refl). now apply ows_solid.
Qed.

Lemma numeral_solid (u : string) : isNumeral u = true -> solid u.
Proof.
  intros Hu. destruct (numeral_start u Hu) as (c & u' & -> & [->|Hc]);
    [reflexivity|].
  simpl. revert Hc. destruct c as [[] [] [] [] [] [] [] []]; intros Hc;
    try discriminate Hc; reflexivity.
Qed.

Lemma append_nil_r (s : string) : s ++ "" = s.
Proof. induction s as [|c s IH]; [reflexivity|]. simpl. now rewrite IH. Qed.

Ltac comparison_case t Ht y Ou V2 :=
  let V1 := fresh "V" in
  let Oy := fresh "O" in
  pose proof (Value_numeral t (" " ++ y) Ht
                (or_intror (ex_intro _ y eq_refl))) as V1;
  pose proof (ows_one_space y eq_refl) as Oy;
  cbn [append] in V1, Oy;
  unfold peg.MatchExpression, peg.MatchSelectorOpValue, peg.ExpressionValue;
  operators;
  cbn [append];
  unfold alt, pbind;
  repeat first
    [ rewrite V1
    | rewrite Oy
    | rewrite Ou
    | rewrite V2
    | progress cbn [lit dropPrefix Ascii.eqb Bool.eqb]
    | progress cbv beta iota delta [pret] ];
  reflexivity.

(** Two numerals with the sign of a comparison between them, a space on
    each side of the sign, are a whole input: the tree is the match of the
    two integer literals under the operator of the sign. *)
Lemma Parse_comparison (t u sym : string) (op : MatchOperator) :
  isNumeral t = true -> isNumeral u = true ->
  In (sym, op)
    [("==", MatchEqual); ("!=", MatchNotEqual); ("<", MatchLower);
     ("<=", MatchLowerOrEqual); (">", MatchHigher);
     (">=", MatchHigherOrEqual)] ->
  peg.Parse rt (t ++ " " ++ sym ++ " " ++ u)
  = Matched
      (MatchNode
         (mkMatchExpression op
            (peg.single (peg.literal ValueTypeInt t))
            (peg.single (peg.literal ValueTypeInt u)))) "".
Proof.
  intros Ht Hu Hin.
  pose proof (numeral_solid u Hu) as Su.
  pose proof (ows_one_space u Su) as Ou.
  assert (V2 : peg.Value rt u = Matched (peg.literal ValueTypeInt u) "").
  { pose proof (Value_numeral u "" Hu (or_introl eq_refl)) as V.
    now rewrite append_nil_r in V. }
  assert (M : peg.MatchExpression rt (t ++ " " ++ sym ++ " " ++ u)
              = Matched
                  (MatchNode
                     (mkMatchExpression op
                        (peg.single (peg.literal ValueTypeInt t))
                        (peg.single (peg.literal ValueTypeInt u)))) "").
  { simpl in Hin.
    repeat (destruct Hin as [Hin|Hin];
            [inversion Hin; subst sym op; clear Hin|]);
      try contradiction.
    - comparison_case t Ht ("== " ++ u) Ou V2.
    - comparison_case t Ht ("!= " ++ u) Ou V2.
    - comparison_case t Ht ("< " ++ u) Ou V2.
    - comparison_case t Ht ("<= " ++ u) Ou V2.
    - comparison_case t Ht ("> " ++ u) Ou V2.
    - comparison_case t Ht (">= " ++ u) Ou V2. }
  destruct (numeral_start t Ht) as (c & t' & -> & Hc).
  cbn [append] in M |- *.
  assert (Hf : isSpace c = false /\ "("%char <> c /\ "n"%char <> c).
  { destruct Hc as [->|Hc];
      [repeat split; try reflexivity; intros E; discriminate E|].
    revert Hc. destruct c as [[] [] [] [] [] [] [] []]; intros Hc;
      try discriminate Hc;
      repeat split; try reflexivity; intros E; discriminate E. }
  destruct Hf as (Hs & Hp & Hn).
  now apply Parse_lone_match.
Qed.
(** C8, as amended.  Let white space follow each of two Nots put in front
    of a text X.  Whenever the rule [NotExpression] matches X, it matches
    the longer text with the same tree and the same input left: its action
    turns a Not node whose operand is a Not node into the operand of that
    operand.  [Parse] has an outcome on X and on the longer text, the fuel
    of the recursive rules being enough for both, and no tree that [Parse]
    returns holds a Not node right below a Not node.  And whenever [Parse]
    accepts X otherwise than through the alternative of [Input] that strips
    a pair of parentheses around the whole input, it accepts the longer text
    with the same tree. *)
Theorem not_not_collapses (w1 w2 X : string) :
  blank w1 -> blank w2 ->
  (forall operand,
      peg.negate (UnaryExpression UnaryOpNot
                    (UnaryExpression UnaryOpNot operand))
      = UnaryExpression UnaryOpNot operand
      /\ peg.negate (UnaryExpression UnaryOpNot operand) = operand)
  /\ (forall n e rest,
        peg.NotExpression rt n X = Matched e rest ->
        peg.NotExpression rt (S (S n)) (notNot w1 w2 X) = Matched e rest)
  /\ (peg.Parse rt X <> OutOfFuel
      /\ peg.Parse rt (notNot w1 w2 X) <> OutOfFuel)
  /\ (forall e rest,
        peg.Parse rt X = Matched e rest -> noDoubleNot e = true)
  /\ (forall e rest,
        peg.Input_parenthesized rt (peg.fuelFor X) X = NoMatch ->
        peg.Parse rt X = Matched e rest ->
        peg.Parse rt (notNot w1 w2 X) = Matched e rest).
Proof.
  intros H1 H2. split; [|split; [|split; [|split]]].
  - intros operand. split; reflexivity.
  - intros n e rest. now apply NotExpression_notNot.
  - split; apply Parse_runs.
  - intros e rest. apply Parse_clean.
  - intros e rest. now apply Parse_notNot.
Qed.

End WithRuntime.

Lemma blank_space : blank " ".
Proof. split; [discriminate | reflexivity]. Defined.

Lemma not_not_witness :
  peg.Parse runtime "not not foo == 3" = Matched fooIsThree "".
Proof.
  apply (proj2 (proj2 (proj2 (proj2
           (not_not_collapses runtime " " " " "foo == 3"
              blank_space blank_space))))).
  - vm_compute. reflexivity.
  - vm_compute. reflexivity.
Defined.

(** C8, the claim as it stands: the input [(not -1)] is read by the
    alternative of [Input] that strips the parentheses, as a Not node over
    the number; behind two Nots the same text is an operand, where the rule
    for parentheses first tries an arithmetic value and finds the selector
    [not] minus 1.  The two trees differ. *)
Lemma parenthesized_input_differs :
  peg.Parse runtime "(not -1)" = Matched notMinusOne ""
  /\ peg.Parse runtime "not not (not -1)" = Matched notSelectorMinusOne ""
  /\ peg.Parse runtime "not not (not -1)" <> peg.Parse runtime "(not -1)".
Proof.
  split; [vm_compute; reflexivity|]. split; [vm_compute; reflexivity|].
  vm_compute. discriminate.
Qed.

End ParserProperties.

(* ================================================================= *)
(** ** Further properties of the coercions and of the evaluator *)

Module Laws.
Import Go grammar bexpr Example Spec Notions Numerals.

Section WithRuntime.
Context (rt : Runtime).

Lemma CoerceInt64_text n :
  isInt64 n -> CoerceInt64 rt (VString (FormatInt n)) = (n, None).
Proof. intros H. apply ParseInt_FormatInt; auto. Qed.

(** X1. [CoerceInt64] reads back what [fmt] prints: for an integer
    value of any integer type whose number is that of an [int64], the
    coercion returns that number and no error. *)
Theorem CoerceInt64_round_trip t n :
  isInt64 n -> CoerceInt64 rt (VInt t n) = (n, None).
Proof. intros H. apply ParseInt_FormatInt; auto. Qed.

Lemma doEqualInt64_numbers t u a b :
  isInt64 a -> isInt64 b ->
  doEqualInt64 rt (VInt t a) (VInt u b) = (a =? b)%Z
  /\ doLowerInt64 rt (VInt t a) (VInt u b) = (a <? b)%Z.
Proof.
  intros Ha Hb. unfold doEqualInt64, doLowerInt64.
  cbn [Sprintv]. rewrite !CoerceInt64_text by assumption. split; reflexivity.
Qed.

Lemma primitive_integer t a :
  t <> uintptr ->
  primitiveEqualityFn rt (VInt t a) = Some (doEqualInt64 rt)
  /\ primitiveLowerFn rt (VInt t a) = Some (doLowerInt64 rt).
Proof. intros H. destruct t; try contradiction; split; reflexivity. Qed.

(** X3. Integers are compared by their numbers.  Between two integer
    values whose numbers are those of an [int64], the left one of any integer
    type but [uintptr], the six operators of comparison answer as the order
    of the integers does, with no error. *)
Theorem integers_compare_numerically t u a b :
  t <> uintptr -> isInt64 a -> isInt64 b ->
  let l := VInt t a in
  let r := VInt u b in
  evaluateMatchExpression_op rt MatchEqual l r = Done ((a =? b)%Z, None)
  /\ evaluateMatchExpression_op rt MatchNotEqual l r
     = Done (negb (a =? b)%Z, None)
  /\ evaluateMatchExpression_op rt MatchLower l r = Done ((a <? b)%Z, None)
  /\ evaluateMatchExpression_op rt MatchLowerOrEqual l r
     = Done ((a <=? b)%Z, None)
  /\ evaluateMatchExpression_op rt MatchHigher l r = Done ((b <? a)%Z, None)
  /\ evaluateMatchExpression_op rt MatchHigherOrEqual l r
     = Done ((b <=? a)%Z, None).
Proof.
  intros Ht Ha Hb l r.
  destruct (doEqualInt64_numbers t u a b Ha Hb) as [Ee El].
  destruct (primitive_integer t a Ht) as [Pe Pl].
  unfold evaluateMatchExpression_op, MatchEqual, MatchNotEqual, MatchLower,
    MatchLowerOrEqual, MatchHigher, MatchHigherOrEqual, doMatchEqual,
    doMatchLower, l, r.
  rewrite Pe, Pl, Ee, El. cbn [bind].
  destruct (Z.eqb_spec a b), (Z.ltb_spec a b), (Z.leb_spec a b),
    (Z.ltb_spec b a), (Z.leb_spec b a); try lia; repeat split.
Qed.


(** X4. From two to the power 63 on, the coercion of an unsigned number
    stops at the largest [int64], with a range error that the comparisons
    drop: two such numbers are equal to [Equal], and none of them is [Lower]
    than the other, whatever they are. *)
Theorem large_unsigned_are_equal t u a b :
  t <> uintptr ->
  (2 ^ 63 <= a < 2 ^ 64)%Z -> (2 ^ 63 <= b < 2 ^ 64)%Z ->
  CoerceInt64 rt (VInt t a)
  = ((2 ^ 63 - 1)%Z, Some (NumError "ParseInt" (FormatInt a) ErrRange))
  /\ evaluateMatchExpression_op rt MatchEqual (VInt t a) (VInt u b)
     = Done (true, None)
  /\ evaluateMatchExpression_op rt MatchLower (VInt t a) (VInt u b)
     = Done (false, None).
Proof.
  intros Ht Ha Hb.
  assert (P : forall n, (2 ^ 63 <= n < 2 ^ 64)%Z ->
              strconv_ParseInt (FormatInt n) 0
              = ((2 ^ 63 - 1)%Z,
                 Some (NumError "ParseInt" (FormatInt n) ErrRange))).
  { intros n Hn. destruct n as [|p|p]; try lia.
    rewrite ParseInt_pos by (auto; lia).
    destruct (Z.leb_spec (2 ^ 63) (Z.pos p)); [reflexivity|lia]. }
  destruct (primitive_integer t a Ht) as [Pe Pl].
  split; [exact (P a Ha)|].
  unfold evaluateMatchExpression_op, MatchEqual, MatchLower, doMatchEqual,
    doMatchLower.
  rewrite Pe, Pl. unfold doEqualInt64, doLowerInt64, CoerceInt64.
  cbn [Sprintv]. rewrite (P a Ha), (P b Hb). split; reflexivity.
Qed.

(** X6. Between two booleans [Equal] is the equality, and the order of
    [Lower] and [Higher] has true below false: [Lower] holds for true
    against false only, [Higher] for false against true only. *)
Theorem booleans_compare a b :
  evaluateMatchExpression_op rt MatchEqual (VBool a) (VBool b)
  = Done (Bool.eqb a b, None)
  /\ evaluateMatchExpression_op rt MatchLower (VBool a) (VBool b)
     = Done (a && negb b, None)
  /\ evaluateMatchExpression_op rt MatchHigher (VBool a) (VBool b)
     = Done (negb a && b, None).
Proof. destruct a, b; repeat split. Qed.

Lemma primitive_together v :
  (primitiveEqualityFn rt v = None /\ primitiveLowerFn rt v = None)
  \/ (exists eq lo, primitiveEqualityFn rt v = Some eq
                    /\ primitiveLowerFn rt v = Some lo).
Proof.
  unfold primitiveEqualityFn, primitiveLowerFn.
  destruct (ValueOf_Kind (Indirect v)); eauto.
Qed.

Lemma evaluateMatchExpression_op_complement op l r b :
  In op matchOperators -> op <> MatchHigherOrEqual ->
  evaluateMatchExpression_op rt op l r = Done (b, None) ->
  evaluateMatchExpression_op rt (complement op) l r = Done (negb b, None).
Proof.
  intros Hin Hne. simpl in Hin.
  destruct (primitive_together l) as [[Pe Pl]|(eq & lo & Pe & Pl)];
  repeat (destruct Hin as [<-|Hin]); try contradiction;
    unfold evaluateMatchExpression_op, complement, MatchEqual, MatchNotEqual,
      MatchIn, MatchNotIn, MatchIsEmpty, MatchIsNotEmpty, MatchMatches,
      MatchNotMatches, MatchLower, MatchLowerOrEqual, MatchHigher,
      MatchHigherOrEqual, doMatchEqual, doMatchLower;
    rewrite ?Pe, ?Pl; cbn [bind]; intros E;
    try discriminate;
    try (destruct (eq l r), (lo l r); cbn in E |- *; inversion E;
         reflexivity);
    repeat match goal with
    | H : context [bind ?m _] |- _ =>
        destruct m as [[? [?|]]|?]; cbn in H; try discriminate
    | H : ?m = Done _ |- context [bind ?m _] => rewrite H; cbn
    end;
    inversion E; subst; rewrite ?negb_involutive; reflexivity.
Qed.


Lemma NotPresentDisposition_complement op :
  In op matchOperators ->
  NotPresentDisposition (complement op) = negb (NotPresentDisposition op).
Proof.
  intros Hin. simpl in Hin.
  repeat (destruct Hin as [<-|Hin]; [reflexivity|]). contradiction.
Qed.

(** X7. An operator and the one that asks the opposite question give
    opposite answers: whenever a match under one of the twelve operators,
    [HigherOrEqual] apart, returns a result and no error, the same match
    under the complement of the operator returns the negated result and no
    error; this includes the matches that an undefined left side decides. *)
Theorem complement_negates op lhs rhs datum opts b :
  In op matchOperators -> op <> MatchHigherOrEqual ->
  evaluateMatchExpression rt (mkMatchExpression op lhs rhs) datum opts
  = Done (b, None) ->
  evaluateMatchExpression rt (mkMatchExpression (complement op) lhs rhs)
    datum opts
  = Done (negb b, None).
Proof.
  intros Hin Hne. cbn [evaluateMatchExpression].
  destruct (getExprValue rt lhs datum opts) as [[lv [e|]]|p]; cbn [bind];
    try discriminate.
  destruct (isUndefined lv).
  - intros E. inversion E. now rewrite NotPresentDisposition_complement.
  - destruct (getExprValue rt rhs datum opts) as [[rv [e|]]|p]; cbn [bind];
      try discriminate.
    now apply evaluateMatchExpression_op_complement.
Qed.

(** X8. The laws of De Morgan hold for the evaluation as it is, errors
    and panics included: the negation of a conjunction evaluates as the
    disjunction of the negations does, and the negation of a disjunction as
    the conjunction of the negations. *)
Theorem de_Morgan X Y datum opts :
  evaluate rt (UnaryExpression UnaryOpNot (BinaryExpression X BinaryOpAnd Y))
    datum opts
  = evaluate rt
      (BinaryExpression (UnaryExpression UnaryOpNot X) BinaryOpOr
         (UnaryExpression UnaryOpNot Y)) datum opts
  /\ evaluate rt
       (UnaryExpression UnaryOpNot (BinaryExpression X BinaryOpOr Y))
       datum opts
     = evaluate rt
         (BinaryExpression (UnaryExpression UnaryOpNot X) BinaryOpAnd
            (UnaryExpression UnaryOpNot Y)) datum opts.
Proof.
  split; cbn [evaluate UnaryOpNot BinaryOpAnd BinaryOpOr];
    destruct (evaluate rt X datum opts) as [[res [e|]]|p]; cbn [bind];
    try reflexivity;
    destruct res as [|[|]| | | | | | | | | | |]; reflexivity.
Qed.

(** X9. The action of [NotExpression] does not change what a tree
    evaluates to: where the operand evaluates to a boolean, with or without
    an error, the tree that [negate] builds (the operand of the operand for a
    Not node, a Not node otherwise) evaluates as the Not node over the
    operand does. *)
Theorem negate_keeps_the_value e b err datum opts :
  evaluate rt e datum opts = Done (VBool b, err) ->
  evaluate rt (peg.negate e) datum opts
  = evaluate rt (UnaryExpression UnaryOpNot e) datum opts.
Proof.
  intros H. destruct e as [|op operand| | | |]; try reflexivity.
  destruct op; try reflexivity.
  cbn [peg.negate evaluate UnaryOpNot] in H |- *.
  destruct (evaluate rt operand datum opts) as [[res e]|p]; cbn [bind] in *;
    [|discriminate].
  destruct res; try discriminate. inversion H; subst.
  cbn [bind]. now rewrite negb_involutive.
Qed.


Lemma evaluateNotPresent_short ptr datum :
  (List.length (Parts ptr) < 2)%nat -> evaluateNotPresent rt ptr datum = false.
Proof.
  intros H. unfold evaluateNotPresent.
  destruct (Nat.ltb_spec (List.length (Parts ptr)) 2); [reflexivity|lia].
Qed.

(** X10. A selector that cannot be resolved is an error of the match,
    not an absence, in every case but the one of the missing leaf key under
    a map: when the resolver fails otherwise than by a key not found, or by a
    key not found while no unknown-value option is set and the path has a
    single part or its parent is no map, the leaf evaluates to the wrapped
    error and the match returns false with that error, for every operator
    and every right side. *)
Theorem resolution_errors_surface op sel raw conv rhs datum opts v e :
  let ptr := {| Parts := Path sel;
                PointerConfig :=
                  {| TagName := withTagName opts;
                     ValueTransformationHook := withHookFn opts |} |} in
  pointerstructure_Get rt ptr datum = (v, Some e) ->
  is_ErrNotFound e = false
  \/ (withUnknown opts = None
      /\ ((List.length (Path sel) < 2)%nat
          \/ evaluateNotPresent rt ptr datum = false)) ->
  let wrapped := Errorf "error finding value in datum: %w" [] (Some e) in
  getValue rt (selectorValue sel raw conv) datum opts
  = (undefined, Some wrapped)
  /\ evaluateMatchExpression rt
       (mkMatchExpression op (peg.single (selectorValue sel raw conv)) rhs)
       datum opts
     = Done (false, Some wrapped).
Proof.
  intros ptr Hget Hcase wrapped.
  assert (Hv : getValue rt (selectorValue sel raw conv) datum opts
               = (undefined, Some wrapped)).
  { unfold getValue, selectorValue. cbn [ValType Sel ValueTypeReflect].
    fold ptr. rewrite Hget.
    destruct Hcase as [Hnf | [Hu Hnp]].
    - rewrite Hnf. reflexivity.
    - rewrite Hu.
      assert (Hp : evaluateNotPresent rt ptr datum = false).
      { destruct Hnp as [Hlen|Hp]; [|exact Hp].
        now apply evaluateNotPresent_short. }
      rewrite Hp. destruct (is_ErrNotFound e); reflexivity. }
  split; [exact Hv|].
  cbn [evaluateMatchExpression].
  rewrite Properties.getExprValue_single, Hv. reflexivity.
Qed.

(** X11. The unknown-value option comes first: when the resolver
    reports a key as not found and the option is set (to a value that is no
    JSON number), the leaf evaluates to the value of the option with no
    error, be the parent a map or not, and the match goes on with that value
    on its left. *)
Theorem unknown_value_replaces_missing sel raw conv datum opts v e u :
  let ptr := {| Parts := Path sel;
                PointerConfig :=
                  {| TagName := withTagName opts;
                     ValueTransformationHook := withHookFn opts |} |} in
  pointerstructure_Get rt ptr datum = (v, Some e) ->
  is_ErrNotFound e = true ->
  withUnknown opts = Some u ->
  (forall jn, u <> VJsonNumber jn) ->
  getValue rt (selectorValue sel raw conv) datum opts = (u, None)
  /\ (forall op rhs rv,
        isUndefined u = false ->
        getExprValue rt rhs datum opts = Done (rv, None) ->
        evaluateMatchExpression rt
          (mkMatchExpression op (peg.single (selectorValue sel raw conv)) rhs)
          datum opts
        = evaluateMatchExpression_op rt op u rv).
Proof.
  intros ptr Hget Hnf Hu Hjn.
  assert (Hv : getValue rt (selectorValue sel raw conv) datum opts
               = (u, None)).
  { unfold getValue, selectorValue. cbn [ValType Sel ValueTypeReflect].
    fold ptr. rewrite Hget, Hnf, Hu.
    destruct u; try reflexivity. now contradiction (Hjn s). }
  split; [exact Hv|].
  intros op rhs rv Hund Hr.
  cbn [evaluateMatchExpression].
  rewrite Properties.getExprValue_single, Hv. cbn [bind].
  rewrite Hund, Hr. reflexivity.
Qed.

(** X12. A [json.Number] that the resolver finds, and whose text is the
    decimal text of an [int64], is handed on as that [int64]. *)
Theorem json_number_becomes_int64 sel raw conv datum opts n :
  let ptr := {| Parts := Path sel;
                PointerConfig :=
                  {| TagName := withTagName opts;
                     ValueTransformationHook := withHookFn opts |} |} in
  pointerstructure_Get rt ptr datum = (VJsonNumber (FormatInt n), None) ->
  isInt64 n ->
  getValue rt (selectorValue sel raw conv) datum opts = (VInt int64 n, None).
Proof.
  intros ptr Hget Hn.
  unfold getValue, selectorValue. cbn [ValType Sel ValueTypeReflect].
  fold ptr. rewrite Hget. cbv iota beta.
  rewrite ParseInt_FormatInt by auto. reflexivity.
Qed.

Lemma existsb_eqb_In (l : list string) (x : string) :
  existsb (fun s => s =? x) l = true <-> In x l.
Proof.
  rewrite existsb_exists. split.
  - intros [s [Hin E]]. apply String.eqb_eq in E. now subst.
  - intros Hin. exists x. split; [exact Hin | apply String.eqb_refl].
Qed.

Lemma doMatchIn_interfaces_strings l x :
  doMatchIn_interfaces rt (map VString l) (VString x)
  = Done (existsb (fun s => s =? x) l, None).
Proof.
  induction l as [|s l IH]; [reflexivity|].
  cbn [map doMatchIn_interfaces TypeOf primitiveEqualityFn Indirect
       ValueOf_Kind Kind_of_type existsb].
  unfold doEqualString at 1. cbn [Sprintv].
  destruct (s =? x); [reflexivity | exact IH].
Qed.

Lemma existsb_doEqualString l x :
  existsb (fun item => doEqualString rt item (VString x)) (map VString l)
  = existsb (fun s => s =? x) l.
Proof.
  induction l as [|s l IH]; [reflexivity|].
  cbn [map existsb]. rewrite IH. reflexivity.
Qed.

(** X13. In a slice or an array of strings, typed as strings or as
    interfaces, [In] with a string on the right is the membership in the
    list: it returns no error, and true exactly when the string is one of
    the elements. *)
Theorem in_a_list_of_strings elem l x :
  elem = TBasic reflect.String \/ elem = TInterface ->
  exists found,
    doMatchIn rt (VSlice elem (map VString l)) (VString x)
    = Done (found, None)
    /\ doMatchIn rt (VArray elem (map VString l)) (VString x)
       = Done (found, None)
    /\ (found = true <-> In x l).
Proof.
  intros He. exists (existsb (fun s => s =? x) l).
  split; [|split; [|apply existsb_eqb_In]];
    destruct He as [-> | ->]; unfold doMatchIn;
    cbn [derefType Kind_of_type primitiveEqualityFn Indirect ValueOf_Kind
         TypeOf];
    first [ now rewrite existsb_doEqualString
          | apply doMatchIn_interfaces_strings ].
Qed.



Lemma eqb_prefix (a b : string) : (a =? b) = true -> String.prefix a b = true.
Proof.
  intros E. apply String.eqb_eq in E. subst b.
  apply Properties.prefix_iff. exists "". induction a as [|c a IH];
    [reflexivity | simpl; now rewrite <- IH].
Qed.

(** X20. On strings the four operators of order are two: [LowerOrEqual]
    answers as [Lower] does, whether the right string starts with the left
    one, and [HigherOrEqual] answers as [Higher] does, the negation of that.
    So a string is lower than itself or equal to it, and not higher than
    itself or equal to it. *)
Theorem strings_have_two_orders (a b : string) :
  let l := VString a in
  let r := VString b in
  evaluateMatchExpression_op rt MatchLowerOrEqual l r
  = Done (String.prefix a b, None)
  /\ evaluateMatchExpression_op rt MatchLower l r
     = Done (String.prefix a b, None)
  /\ evaluateMatchExpression_op rt MatchHigher l r
     = Done (negb (String.prefix a b), None)
  /\ evaluateMatchExpression_op rt MatchHigherOrEqual l r
     = Done (negb (String.prefix a b), None)
  /\ evaluateMatchExpression_op rt MatchLowerOrEqual l l = Done (true, None)
  /\ evaluateMatchExpression_op rt MatchHigherOrEqual l l
     = Done (false, None).
Proof.
  intros l r.
  assert (P : forall x y,
             evaluateMatchExpression_op rt MatchLowerOrEqual (VString x)
               (VString y) = Done (String.prefix x y, None)
             /\ evaluateMatchExpression_op rt MatchLower (VString x)
                  (VString y) = Done (String.prefix x y, None)
             /\ evaluateMatchExpression_op rt MatchHigher (VString x)
                  (VString y) = Done (negb (String.prefix x y), None)
             /\ evaluateMatchExpression_op rt MatchHigherOrEqual (VString x)
                  (VString y) = Done (negb (String.prefix x y), None)).
  { intros x y.
    unfold evaluateMatchExpression_op, MatchLowerOrEqual, MatchLower,
      MatchHigher, MatchHigherOrEqual, doMatchEqual, doMatchLower.
    cbn [primitiveEqualityFn primitiveLowerFn Indirect ValueOf_Kind TypeOf
         Kind_of_type].
    unfold doEqualString, doLowerString, strings_HasPrefix. cbn [Sprintv].
    pose proof (eqb_prefix x y) as Hp.
    destruct (x =? y); destruct (String.prefix x y);
      try (specialize (Hp eq_refl); discriminate); repeat split. }
  destruct (P a b) as (P1 & P2 & P3 & P4).
  destruct (P a a) as (Q1 & _ & _ & Q4).
  assert (R : String.prefix a a = true)
    by (apply eqb_prefix, String.eqb_refl).
  rewrite R in Q1, Q4.
  unfold l, r. repeat split; assumption.
Qed.

(** X21. Conjunction and disjunction are associative for the evaluation
    as it is, errors and panics included: how a chain of [and], or a chain
    of [or], is grouped makes no difference to its outcome. *)
Theorem chains_are_associative X Y Z datum opts :
  evaluate rt
    (BinaryExpression (BinaryExpression X BinaryOpAnd Y) BinaryOpAnd Z)
    datum opts
  = evaluate rt
      (BinaryExpression X BinaryOpAnd (BinaryExpression Y BinaryOpAnd Z))
      datum opts
  /\ evaluate rt
       (BinaryExpression (BinaryExpression X BinaryOpOr Y) BinaryOpOr Z)
       datum opts
     = evaluate rt
         (BinaryExpression X BinaryOpOr (BinaryExpression Y BinaryOpOr Z))
         datum opts.
Proof.
  split; cbn [evaluate BinaryOpAnd BinaryOpOr];
    destruct (evaluate rt X datum opts) as [[res [e|]]|p]; cbn [bind];
    try reflexivity;
    destruct res as [|[|]| | | | | | | | | | |]; cbn [bind negb];
    reflexivity.
Qed.

Lemma ParseInt_syntax_error s base e :
  strconv_ParseInt s base = (e, Some (NumError "ParseInt" s ErrSyntax)) ->
  e = 0%Z.
Proof.
  unfold strconv_ParseInt. destruct s as [|c rest]; [now inversion 1|].
  destruct (strconv_ParseUint _ base) as [un [[|]|]];
    repeat match goal with
    | |- context [if ?b then _ else _] => destruct b
    end; inversion 1; reflexivity.
Qed.

(** X5. With an integer on the left, a right operand whose text
    [strconv.ParseInt] rejects with a syntax error counts as zero: the error
    of the coercion is dropped, and [Equal] and [Lower] compare the left
    number with 0. *)
Theorem text_counts_as_zero t a r :
  t <> uintptr -> isInt64 a ->
  snd (strconv_ParseInt (Sprintv rt r) 0)
  = Some (NumError "ParseInt" (Sprintv rt r) ErrSyntax) ->
  evaluateMatchExpression_op rt MatchEqual (VInt t a) r
  = Done ((a =? 0)%Z, None)
  /\ evaluateMatchExpression_op rt MatchLower (VInt t a) r
     = Done ((a <? 0)%Z, None).
Proof.
  intros Ht Ha Hr.
  destruct (primitive_integer t a Ht) as [Pe Pl].
  unfold evaluateMatchExpression_op, MatchEqual, MatchLower, doMatchEqual,
    doMatchLower.
  rewrite Pe, Pl. unfold doEqualInt64, doLowerInt64.
  cbn [Sprintv]. rewrite CoerceInt64_text by assumption.
  unfold CoerceInt64. cbn [Sprintv].
  destruct (strconv_ParseInt (Sprintv rt r) 0) as [n err] eqn:E.
  cbn [snd] in Hr. subst err.
  rewrite (ParseInt_syntax_error _ _ _ E). split; reflexivity.
Qed.

(** X19. The decimal text of an [int64] is an input of its own: it is
    parsed into the tree of an integer literal with that text, and the tree
    evaluates to that [int64] with no error, whatever the datum and the
    options. *)
Theorem integer_literal_round_trip n datum opts :
  isInt64 n ->
  let tree :=
    ValueNode (peg.single (peg.literal ValueTypeInt (FormatInt n))) in
  peg.Parse rt (FormatInt n) = Matched tree ""
  /\ evaluate rt tree datum opts = Done (VInt int64 n, None).
Proof.
  intros Hn tree. split; [apply ParserProperties.Parse_FormatInt|].
  unfold tree. cbn [evaluate].
  rewrite Properties.getExprValue_single.
  unfold getValue, peg.literal. cbn [ValType Raw ValueTypeInt].
  now rewrite CoerceInt64_text.
Qed.

Lemma digits_all (d : Decimal.uint) :
  forallb isDigit (list_ascii_of_string (NilEmpty.string_of_uint d)) = true.
Proof.
  induction d; [reflexivity|..];
    cbn [NilEmpty.string_of_uint list_ascii_of_string forallb];
    rewrite IHd; reflexivity.
Qed.

Lemma FormatInt_numeral (n : Z) : isNumeral (FormatInt n) = true.
Proof.
  unfold FormatInt. destruct n as [|p|p]; [reflexivity|..];
    cbn [Z.to_int NilZero.string_of_int]; first_digit p;
    cbn [isNumeral isNumeralBody]; rewrite digits_all; reflexivity.
Qed.

Lemma integers_under_a_sign sym op cmp a b :
  In (sym, op, cmp) comparisons -> isInt64 a -> isInt64 b ->
  evaluateMatchExpression_op rt op (VInt int64 a) (VInt int64 b)
  = Done (cmp a b, None).
Proof.
  intros Hin Ha Hb.
  destruct (doEqualInt64_numbers int64 int64 a b Ha Hb) as [Ee El].
  destruct (primitive_integer int64 a ltac:(discriminate)) as [Pe Pl].
  simpl in Hin.
  repeat (destruct Hin as [Hin|Hin]; [inversion Hin; subst; clear Hin|]);
    try contradiction;
    unfold evaluateMatchExpression_op, MatchEqual, MatchNotEqual, MatchLower,
      MatchLowerOrEqual, MatchHigher, MatchHigherOrEqual, doMatchEqual,
      doMatchLower;
    rewrite ?Pe, ?Pl, ?Ee, ?El; cbn [bind];
    destruct (Z.eqb_spec a b), (Z.ltb_spec a b), (Z.leb_spec a b),
      (Z.ltb_spec b a), (Z.leb_spec b a); try lia; reflexivity.
Qed.

(** X25. A comparison of two integers, written down, says what it means.
    For two numbers of an [int64] and each of the signs [==], [!=], [<],
    [<=], [>] and [>=], the text made of the decimal text of the first
    number, a space, the sign, a space and the decimal text of the second
    number is a whole input, and its tree evaluates, whatever the datum and
    the options, to the boolean that the comparison of the two numbers
    gives, with no error. *)
Theorem integer_comparisons_end_to_end a b sym op cmp datum opts :
  isInt64 a -> isInt64 b -> In (sym, op, cmp) comparisons ->
  exists tree,
    peg.Parse rt (FormatInt a ++ " " ++ sym ++ " " ++ FormatInt b)
    = Matched tree ""
    /\ evaluate rt tree datum opts = Done (VBool (cmp a b), None).
Proof.
  intros Ha Hb Hin.
  exists (MatchNode
            (mkMatchExpression op
               (peg.single (peg.literal ValueTypeInt (FormatInt a)))
               (peg.single (peg.literal ValueTypeInt (FormatInt b))))).
  split.
  - apply ParserProperties.Parse_comparison; try apply FormatInt_numeral.
    simpl in Hin |- *.
    repeat (destruct Hin as [Hin|Hin]; [inversion Hin; subst; auto 10|]).
    contradiction.
  - cbn [evaluate evaluateMatchExpression].
    rewrite !Properties.getExprValue_single.
    unfold getValue, peg.literal. cbn [ValType Raw ValueTypeInt].
    rewrite !CoerceInt64_text by assumption. cbn [bind].
    change (isUndefined (VInt int64 a)) with false. cbv iota.
    rewrite (integers_under_a_sign sym op cmp a b Hin Ha Hb). reflexivity.
Qed.

End WithRuntime.

(** X2. [CoerceUint64] reads back the decimal text of every number of a
    [uint64], as a [uint64] and with no error; the text of a number below
    zero is a syntax error, with the value 0. *)
Theorem CoerceUint64_round_trip n :
  (0 <= n < 2 ^ 64)%Z ->
  CoerceUint64 (FormatInt n) = (VInt uint64 n, None)
  /\ (n <> 0%Z ->
      CoerceUint64 (FormatInt (- n))
      = (VInt uint64 0,
         Some (NumError "ParseUint" (FormatInt (- n)) ErrSyntax))).
Proof.
  intros Hn. split.
  - unfold CoerceUint64. rewrite ParseUint_FormatInt by auto.
    rewrite Z2N.id by lia. reflexivity.
  - intros Hz. destruct n as [|p|p]; try lia. reflexivity.
Qed.

Lemma wrap64_range z : isInt64 (wrap64 z).
Proof.
  unfold isInt64, wrap64.
  pose proof (Z.mod_pos_bound (z + 2 ^ 63) (2 ^ 64) ltac:(lia)). lia.
Qed.

Lemma wrap64_exact z : isInt64 z -> wrap64 z = z.
Proof.
  unfold isInt64, wrap64. intros H.
  rewrite Z.mod_small by lia. lia.
Qed.

Lemma wrap64_congruent z : ((wrap64 z - z) mod 2 ^ 64 = 0)%Z.
Proof.
  unfold wrap64.
  replace ((z + 2 ^ 63) mod 2 ^ 64 - 2 ^ 63 - z)%Z
    with (- (2 ^ 64 * ((z + 2 ^ 63) / 2 ^ 64)))%Z.
  - rewrite Z.mod_opp_l_z by (try lia; now rewrite Z.mul_comm, Z.mod_mul by lia).
    reflexivity.
  - pose proof (Z.div_mod (z + 2 ^ 63) (2 ^ 64) ltac:(lia)). lia.
Qed.

Lemma quot_range a b :
  isInt64 a -> isInt64 b -> b <> 0%Z ->
  (a = - 2 ^ 63 /\ b = -1)%Z \/ isInt64 (Z.quot a b).
Proof.
  unfold isInt64. intros Ha Hb Hz.
  destruct (Z.eq_dec b 1) as [->|H1];
    [right; rewrite Z.quot_1_r; lia|].
  destruct (Z.eq_dec b (-1)) as [->|H2].
  { change (-1)%Z with (- (1))%Z. rewrite Z.quot_opp_r by lia.
    rewrite Z.quot_1_r.
    destruct (Z.eq_dec a (- 2 ^ 63)) as [->|Hm]; [now left | right; lia]. }
  right.
  destruct (Z.eq_dec a 0) as [->|Hnz]; [rewrite Z.quot_0_l by lia; lia|].
  pose proof (Z.quot_abs a b Hz) as E.
  pose proof (Z.quot_lt (Z.abs a) (Z.abs b) ltac:(lia) ltac:(lia)) as L.
  lia.
Qed.

(** X15. The arithmetic of two [int64] never leaves the [int64]: the
    sum, the difference and the product are the exact ones modulo two to the
    power 64, and the exact ones where those fit; the quotient by a number
    other than zero is the exact one truncated toward zero, but for the
    smallest [int64] divided by -1, which gives the smallest [int64] again;
    the division by zero panics. *)
Theorem int64_arithmetic_wraps a b :
  isInt64 a -> isInt64 b ->
  (forall op f,
      In (op, f) [(MathOpPlus, Z.add); (MathOpMinus, Z.sub); (MathOpMul, Z.mul)] ->
      exists r,
        getExprValue_op op (VInt int64 a) (VInt int64 b)
        = Done (VInt int64 r, None)
        /\ isInt64 r
        /\ ((r - f a b) mod 2 ^ 64 = 0)%Z
        /\ (isInt64 (f a b) -> r = f a b))
  /\ (b <> 0%Z ->
      getExprValue_op MathOpDiv (VInt int64 a) (VInt int64 b)
      = Done (VInt int64
                (if (a =? - 2 ^ 63)%Z && (b =? -1)%Z then (- 2 ^ 63)%Z
                 else Z.quot a b), None))
  /\ getExprValue_op MathOpDiv (VInt int64 a) (VInt int64 0)
     = Panic IntegerDivideByZero.
Proof.
  intros Ha Hb. split; [|split].
  - intros op f Hin. simpl in Hin.
    destruct Hin as [E|[E|[E|[]]]]; inversion E; subst;
      eexists; (split; [reflexivity|]);
      (split; [apply wrap64_range|]);
      (split; [apply wrap64_congruent | apply wrap64_exact]).
  - intros Hz. cbn. unfold int64_div.
    destruct (Z.eqb_spec b 0) as [|_]; [contradiction|]. cbn.
    do 3 f_equal.
    destruct (quot_range a b Ha Hb Hz) as [[-> ->]|Hq]; [reflexivity|].
    rewrite (wrap64_exact _ Hq).
    destruct (Z.eqb_spec a (-9223372036854775808)) as [->|_];
      [|reflexivity].
    destruct (Z.eqb_spec b (-1)) as [->|_]; [|reflexivity].
    unfold isInt64 in Hq. destruct Hq as [_ Hq]. now vm_compute in Hq.
  - reflexivity.
Qed.

(* ----------------------------------------------------------------- *)
(** *** Worked examples *)

Lemma CoerceInt64_witness : CoerceInt64 runtime (VInt int 42) = (42%Z, None).
Proof. apply (CoerceInt64_round_trip runtime int 42). unfold isInt64. lia. Defined.

Lemma CoerceUint64_witness :
  CoerceUint64 "18446744073709551615"
  = (VInt uint64 18446744073709551615, None).
Proof.
  apply (proj1 (CoerceUint64_round_trip 18446744073709551615 ltac:(lia))).
Defined.

Lemma integers_compare_witness :
  evaluateMatchExpression_op runtime MatchLower (VInt int 2) (VInt int64 3)
  = Done (true, None).
Proof.
  refine (proj1 (proj2 (proj2
            (integers_compare_numerically runtime int int64 2 3 _ _ _))));
    [discriminate | unfold isInt64; lia | unfold isInt64; lia].
Defined.

Lemma large_unsigned_witness :
  evaluateMatchExpression_op runtime MatchEqual
    (VInt uint64 9223372036854775808) (VInt uint64 18446744073709551615)
  = Done (true, None).
Proof.
  refine (proj1 (proj2
            (large_unsigned_are_equal runtime uint64 uint64
               9223372036854775808 18446744073709551615 _ _ _)));
    [discriminate | lia | lia].
Defined.

Lemma text_counts_as_zero_witness :
  evaluateMatchExpression_op runtime MatchEqual (VInt int 0) (VString "abc")
  = Done (true, None).
Proof.
  refine (proj1 (text_counts_as_zero runtime int 0 (VString "abc") _ _ _));
    [discriminate | unfold isInt64; lia | reflexivity].
Defined.

Lemma complement_witness :
  evaluateMatchExpression runtime
    (mkMatchExpression MatchNotEqual
       (peg.single (peg.literal ValueTypeInt "2"))
       (peg.single (peg.literal ValueTypeInt "3")))
    VNil noOptions
  = Done (true, None).
Proof.
  refine (complement_negates runtime MatchEqual _ _ VNil noOptions false
            _ _ _);
    [simpl; auto | discriminate | vm_compute; reflexivity].
Defined.

Lemma negate_witness :
  evaluate runtime (peg.negate (UnaryExpression UnaryOpNot fooIsThree))
    (object [("foo", VInt int 3)]) noOptions
  = evaluate runtime
      (UnaryExpression UnaryOpNot (UnaryExpression UnaryOpNot fooIsThree))
      (object [("foo", VInt int 3)]) noOptions.
Proof.
  apply (negate_keeps_the_value runtime _ false None). vm_compute. reflexivity.
Defined.

Lemma resolution_error_witness :
  exists e,
    evaluateMatchExpression runtime
      (mkMatchExpression MatchEqual
         (peg.single
            (selectorValue
               {| Type_ := SelectorTypeBexpr; Path := ["foo"] |} "" None))
         panicking)
      (object []) noOptions
    = Done (false,
            Some (Errorf "error finding value in datum: %w" [] (Some e))).
Proof.
  eexists.
  refine (proj2 (resolution_errors_surface runtime MatchEqual
                   {| Type_ := SelectorTypeBexpr; Path := ["foo"] |} "" None
                   panicking (object []) noOptions _ _ _ _));
    [vm_compute; reflexivity | right; split; [reflexivity | left; simpl; lia]].
Defined.

Lemma unknown_value_witness :
  getValue runtime (selectorValue fooBar "" None) emptyFoo
    {| withTagName := ""; withHookFn := None;
       withUnknown := Some (VString "none") |}
  = (VString "none", None).
Proof.
  refine (proj1 (unknown_value_replaces_missing runtime fooBar "" None
                   emptyFoo _ _ _ (VString "none") _ _ _ _));
    [vm_compute; reflexivity | reflexivity | reflexivity | discriminate].
Defined.

Lemma json_number_witness :
  getValue runtime
    (selectorValue {| Type_ := SelectorTypeBexpr; Path := ["n"] |} "" None)
    (object [("n", VJsonNumber "42")]) noOptions
  = (VInt int64 42, None).
Proof.
  refine (json_number_becomes_int64 runtime _ "" None _ noOptions 42 _ _);
    [vm_compute; reflexivity | unfold isInt64; lia].
Defined.

Lemma in_a_list_witness :
  exists found,
    doMatchIn runtime (VSlice TInterface (map VString ["x"; "a"]))
      (VString "a")
    = Done (found, None)
    /\ doMatchIn runtime (VArray TInterface (map VString ["x"; "a"]))
         (VString "a")
       = Done (found, None)
    /\ (found = true <-> In "a" ["x"; "a"]).
Proof.
  apply (in_a_list_of_strings runtime TInterface ["x"; "a"] "a").
  right. reflexivity.
Defined.


Lemma int64_arithmetic_witness :
  getExprValue_op MathOpDiv (VInt int64 7) (VInt int64 (-2))
  = Done (VInt int64 (-3), None).
Proof.
  refine (proj1 (proj2 (int64_arithmetic_wraps 7 (-2) _ _)) _);
    [unfold isInt64; lia | unfold isInt64; lia | discriminate].
Defined.

Lemma whole_input_witness : "" = "".
Proof.
  apply (ParserProperties.Parse_reads_the_whole_input runtime "foo == 3"
           fooIsThree "").
  vm_compute. reflexivity.
Defined.

Lemma leading_spaces_witness :
  peg.Parse runtime "  foo == 3" = peg.Parse runtime "foo == 3".
Proof.
  apply (ParserProperties.Parse_skips_leading_spaces runtime "  " "foo == 3").
  reflexivity.
Defined.

Lemma dump_witness :
  wellFormed fooIsThree = true
  /\ exists text, ExpressionDump runtime fooIsThree "  " 0 = Done (Some text).
Proof.
  apply (ParserProperties.parsed_trees_can_be_dumped runtime "foo == 3"
           fooIsThree "" "  " 0).
  vm_compute. reflexivity.
Defined.

Lemma integer_literal_witness :
  peg.Parse runtime "-42"
  = Matched (ValueNode (peg.single (peg.literal ValueTypeInt "-42"))) ""
  /\ evaluate runtime
       (ValueNode (peg.single (peg.literal ValueTypeInt "-42"))) VNil
       noOptions
     = Done (VInt int64 (-42), None).
Proof.
  apply (integer_literal_round_trip runtime (-42) VNil noOptions).
  unfold isInt64. lia.
Defined.

Lemma selector_round_trip_witness :
  peg.Parse runtime "foo.bar"
  = Matched (ValueNode (peg.single (selectorValue fooBar "" None))) "".
Proof.
  apply (ParserProperties.selector_round_trip runtime "foo" ["bar"]);
    reflexivity.
Defined.

Lemma literal_word_witness :
  peg.Parse runtime "trueish == 1" = Failed "Invalid bool literal".
Proof.
  refine (proj1 (ParserProperties.literal_words_start_no_selector runtime
                   "i" "sh == 1" _ _));
    [reflexivity | discriminate].
Defined.


Lemma integer_comparison_witness :
  exists tree,
    peg.Parse runtime "-7 <= 12" = Matched tree ""
    /\ evaluate runtime tree VNil noOptions = Done (VBool true, None).
Proof.
  refine (integer_comparisons_end_to_end runtime (-7) 12 "<=" MatchLowerOrEqual
            Z.leb VNil noOptions _ _ _);
    [unfold isInt64; lia | unfold isInt64; lia | simpl; auto 10].
Defined.

End Laws.
